(** * Background remover (app.py): batch pipeline with validation and
      per-file failure isolation.

    A shallow embedding of [app.py].  The program is file plumbing around
    two external libraries (PIL and rembg); the embedding has three layers:

    - [PyStr], [posixpath], [pathlib]: the pure string functions of the
      Python standard library that the program calls ([os.path.join],
      [os.path.splitext], [os.path.relpath], [Path(...).suffix], ...),
      transcribed from CPython 3.11 ([posixpath.py], [genericpath.py],
      [pathlib.py]) for a POSIX host;
    - [World] and the monad [M]: the file system (a directory tree), the
      working directory, the text printed so far and the calls made to the
      segmentation engine; Python exceptions are the [Raise] outcome;
    - the program itself, function by function, under the names of the
      source; the menu of [main] runs in a second monad, [IO], that adds
      the terminal to the world.

    The definitions come first; the proofs follow, with one theorem for
    each claim about the program (C1 to C10) and further properties of
    the program (X1 to X21).  The claims C3, C7 and C9 rest on lemmas of
    the further properties and come last. *)

From Stdlib Require Import String Ascii List Bool Arith ZArith Lia.
From Stdlib.Strings Require Import Byte.
From Stdlib Require Import DecimalString.
Import ListNotations.

Local Open Scope string_scope.
Local Open Scope Z_scope.

(** ** Python strings

    A Python [str] is modelled as a Rocq [string]: the UTF-8 bytes of the
    text.  The characters the program inspects ([/], [.], the letters of
    the six extensions) are ASCII, and a byte below 128 never occurs inside
    the UTF-8 encoding of another character. *)

Module PyStr.

Definition sep : ascii := "/"%char.
Definition extsep : ascii := "."%char.

(** [len(s)] *)
Definition len (s : string) : Z := Z.of_nat (String.length s).

(** [s.rfind(c)] for a one-character [c]: the highest index, or [-1]. *)
Fixpoint rfind_from (c : ascii) (s : string) (i acc : Z) : Z :=
  match s with
  | EmptyString => acc
  | String a r => rfind_from c r (i + 1) (if Ascii.eqb a c then i else acc)
  end.

Definition rfind (c : ascii) (s : string) : Z := rfind_from c s 0 (-1).

(** [s[:i]] and [s[i:]] for [0 <= i]. *)
Fixpoint take (n : nat) (s : string) : string :=
  match n, s with
  | O, _ => EmptyString
  | S _, EmptyString => EmptyString
  | S k, String a r => String a (take k r)
  end.

Fixpoint drop (n : nat) (s : string) : string :=
  match n, s with
  | O, _ => s
  | S _, EmptyString => EmptyString
  | S k, String _ r => drop k r
  end.

Definition slice_to (s : string) (i : Z) : string := take (Z.to_nat i) s.
Definition slice_from (s : string) (i : Z) : string := drop (Z.to_nat i) s.

(** [s.startswith(p)], [s.endswith(c)] *)
Fixpoint startswith (s p : string) {struct p} : bool :=
  match p with
  | EmptyString => true
  | String b p' =>
      match s with
      | EmptyString => false
      | String a s' => Ascii.eqb a b && startswith s' p'
      end
  end.

Fixpoint last_char (s : string) : option ascii :=
  match s with
  | EmptyString => None
  | String a EmptyString => Some a
  | String _ r => last_char r
  end.

Definition endswith_sep (s : string) : bool :=
  match last_char s with
  | Some a => Ascii.eqb a sep
  | None => false
  end.

(** [s.split('/')]: never empty, [''.split('/') = ['']]. *)
Fixpoint split_sep (s : string) : list string :=
  match s with
  | EmptyString => [EmptyString]
  | String a r =>
      if Ascii.eqb a sep then EmptyString :: split_sep r
      else match split_sep r with
           | [] => [String a EmptyString]
           | w :: ws => String a w :: ws
           end
  end.

(** ['/'.join(l)] *)
Fixpoint join_sep (l : list string) : string :=
  match l with
  | [] => EmptyString
  | [w] => w
  | w :: ws => w ++ String sep (join_sep ws)
  end.

(** [s.rstrip('/')] *)
Fixpoint rstrip_sep (s : string) : string :=
  match s with
  | EmptyString => EmptyString
  | String a r =>
      match rstrip_sep r with
      | EmptyString => if Ascii.eqb a sep then EmptyString else String a EmptyString
      | r' => String a r'
      end
  end.

(** [s == '/' * len(s)] *)
Fixpoint all_sep (s : string) : bool :=
  match s with
  | EmptyString => true
  | String a r => Ascii.eqb a sep && all_sep r
  end.

(** [s.lower()] on the ASCII letters.  Python lowers other letters too,
    but no character outside ASCII lowers to a string of the letters that
    spell the six supported extensions, so membership in
    [supported_formats] is decided alike. *)
Definition lower_char (a : ascii) : ascii :=
  let n := nat_of_ascii a in
  if ((65 <=? n) && (n <=? 90))%nat then ascii_of_nat (n + 32) else a.

Fixpoint lower (s : string) : string :=
  match s with
  | EmptyString => EmptyString
  | String a r => String (lower_char a) (lower r)
  end.

(** [c in s] for a one-character [c] *)
Fixpoint has_char (c : ascii) (s : string) : bool :=
  match s with
  | EmptyString => false
  | String a r => Ascii.eqb a c || has_char c r
  end.

(** [x in l] for a list (or set) of strings *)
Definition mem (x : string) (l : list string) : bool :=
  existsb (String.eqb x) l.

(** [s * n] *)
Fixpoint times (s : string) (n : nat) : string :=
  match n with
  | O => EmptyString
  | S k => s ++ times s k
  end.

(** The string of the bytes [l]. *)
Definition chars (l : list nat) : string :=
  fold_right (fun n s => String (ascii_of_nat n) s) EmptyString l.

(** The characters [c] with [c.isspace()], in UTF-8: the ASCII controls
    U+0009 to U+000D and U+001C to U+001F, the space, U+0085, U+00A0,
    U+1680, U+2000 to U+200A, U+2028, U+2029, U+202F, U+205F and U+3000. *)
Definition whitespace : list string :=
  map chars
    [[9]; [10]; [11]; [12]; [13]; [28]; [29]; [30]; [31]; [32];
     [194; 133]; [194; 160]; [225; 154; 128];
     [226; 128; 128]; [226; 128; 129]; [226; 128; 130]; [226; 128; 131];
     [226; 128; 132]; [226; 128; 133]; [226; 128; 134]; [226; 128; 135];
     [226; 128; 136]; [226; 128; 137]; [226; 128; 138];
     [226; 128; 168]; [226; 128; 169]; [226; 128; 175];
     [226; 129; 159]; [227; 128; 128]]%nat.

Fixpoint reverse_onto (s acc : string) : string :=
  match s with
  | EmptyString => acc
  | String a r => reverse_onto r (String a acc)
  end.

(** [s[::-1]], byte by byte *)
Definition reverse (s : string) : string := reverse_onto s EmptyString.

(** Drop the white space in front of [s]: at most [n] characters of it,
    where [n] bounds the length of [s].  [spaces] lists the encodings to
    look for. *)
Fixpoint lstrip_upto (spaces : list string) (n : nat) (s : string) : string :=
  match n with
  | O => s
  | S k =>
      match find (startswith s) spaces with
      | Some sp => lstrip_upto spaces k (drop (String.length sp) s)
      | None => s
      end
  end.

(** [s.lstrip()], [s.rstrip()] and [s.strip()].  In well-formed UTF-8 no
    encoding of a character ends with the encoding of another one, so the
    white space at the end of [s] is found from the reversed bytes. *)
Definition lstrip (s : string) : string :=
  lstrip_upto whitespace (String.length s) s.

Definition rstrip (s : string) : string :=
  reverse (lstrip_upto (map reverse whitespace) (String.length s) (reverse s)).

Definition strip (s : string) : string := rstrip (lstrip s).

End PyStr.

(** ** posixpath.py and genericpath.py *)

Module posixpath.
Import PyStr.

Definition curdir : string := ".".
Definition pardir : string := "..".

Definition isabs (s : string) : bool := startswith s "/".

(** [join(a, b)]: an absolute [b] discards [a]; a separator is inserted
    unless [a] is empty or already ends in one. *)
Definition join (a b : string) : string :=
  if startswith b "/" then b
  else if (String.eqb a "" || endswith_sep a)%bool then a ++ b
  else a ++ String sep b.

(** What [join(a, b)] puts in front of a relative [b]. *)
Definition dirpart (a : string) : string :=
  if (String.eqb a "" || endswith_sep a)%bool then a else a ++ String sep "".

(** [join(a, *p)] *)
Definition join_all (a : string) (p : list string) : string :=
  fold_left join p a.

(** [split(p)] *)
Definition split (p : string) : string * string :=
  let i := rfind sep p + 1 in
  let head := slice_to p i in
  let tail := slice_from p i in
  let head :=
    if (negb (String.eqb head "") && negb (all_sep head))%bool
    then rstrip_sep head else head in
  (head, tail).

Definition dirname (p : string) : string := fst (split p).
Definition basename (p : string) : string := slice_from p (rfind sep p + 1).

(** [genericpath._splitext(p, '/', None, '.')]: the loop that skips the
    leading dots of the last component is the recursion on [n], the
    number of characters between the component's start and the dot. *)
Fixpoint splitext_scan (p : string) (dotIndex : Z) (filenameIndex : Z)
         (n : nat) : string * string :=
  match n with
  | O => (p, EmptyString)
  | S k =>
      if String.eqb (take 1 (slice_from p filenameIndex)) "." then
        splitext_scan p dotIndex (filenameIndex + 1) k
      else (slice_to p dotIndex, slice_from p dotIndex)
  end.

Definition splitext (p : string) : string * string :=
  let sepIndex := rfind sep p in
  let dotIndex := rfind extsep p in
  if sepIndex <? dotIndex then
    splitext_scan p dotIndex (sepIndex + 1) (Z.to_nat (dotIndex - (sepIndex + 1)))
  else (p, EmptyString).

(** [normpath(path)]: [initial_slashes] is 0, 1 or 2. *)
Definition initial_slashes (path : string) : nat :=
  if startswith path "/" then
    if (startswith path "//" && negb (startswith path "///"))%bool then 2%nat
    else 1%nat
  else 0%nat.

Definition norm_step (ini : nat) (new_comps : list string) (comp : string)
  : list string :=
  if (String.eqb comp "" || String.eqb comp ".")%bool then new_comps
  else if (negb (String.eqb comp "..")
           || (Nat.eqb ini 0 && match new_comps with [] => true | _ => false end)
           || match rev new_comps with
              | l :: _ => String.eqb l ".."
              | [] => false
              end)%bool
  then (new_comps ++ [comp])%list
  else removelast new_comps.

Definition norm_comps (path : string) : list string :=
  fold_left (norm_step (initial_slashes path)) (split_sep path) [].

Fixpoint seps (n : nat) : string :=
  match n with O => EmptyString | S k => String sep (seps k) end.

Definition normpath (path : string) : string :=
  if String.eqb path "" then curdir
  else
    let r := seps (initial_slashes path) ++ join_sep (norm_comps path) in
    if String.eqb r "" then curdir else r.

(** [abspath(path)], with [cwd] the value of [os.getcwd()]. *)
Definition abspath (cwd path : string) : string :=
  normpath (if isabs path then path else join cwd path).

(** [len(commonprefix([l1, l2]))] for two lists of components: the
    element-wise comparison of the smaller against the larger list stops
    at the first difference, whatever their order. *)
Fixpoint common_len (l1 l2 : list string) : nat :=
  match l1, l2 with
  | a :: r1, b :: r2 => if String.eqb a b then S (common_len r1 r2) else O
  | _, _ => O
  end.

Definition nonempty_comps (s : string) : list string :=
  filter (fun x => negb (String.eqb x "")) (split_sep s).

(** [relpath(path, start)]; [None] is the [ValueError] raised for an
    empty [path]. *)
Definition relpath (cwd path start : string) : option string :=
  if String.eqb path "" then None
  else
    let start_list := nonempty_comps (abspath cwd start) in
    let path_list := nonempty_comps (abspath cwd path) in
    let i := common_len start_list path_list in
    let rel_list :=
      (repeat pardir (length start_list - i)%nat ++ skipn i path_list)%list in
    match rel_list with
    | [] => Some curdir
    | a :: p => Some (join_all a p)
    end.

End posixpath.

(** ** pathlib.py: [PurePosixPath(s).name] and [.suffix] *)

Module pathlib.
Import PyStr.

(** The parts of a path are its components other than [''] and ['.'];
    [name] is the last of them ([''] when there is none). *)
Definition name (s : string) : string :=
  last (filter (fun x => negb (String.eqb x "" || String.eqb x "."))
               (split_sep s)) "".

(** [suffix]: from the last dot of the name on, when that dot is neither
    the first nor the last character. *)
Definition suffix (s : string) : string :=
  let name := name s in
  let i := rfind extsep name in
  if ((0 <? i) && (i <? len name - 1))%bool then slice_from name i
  else "".

End pathlib.

(** ** Exceptions and outcomes

    [exn] stands for the exceptions that the program can meet: instances
    of Python's [Exception] class, and the two classes that derive from
    [BaseException] alone, [SystemExit] (raised by [sys.exit], which a
    library may call while it is imported or used) and
    [KeyboardInterrupt].  A clause [except Exception] lets these two
    pass. *)

Inductive errno : Type := ENOENT | ENOTDIR | EEXIST | EISDIR.

Inductive exn : Type :=
| OSError (e : errno) (filename : string)
      (* FileNotFoundError, NotADirectoryError, FileExistsError,
         IsADirectoryError: the subclass is chosen by the errno *)
| ValueError (msg : string)
| ImportError (msg : string)
| RecursionError
| LibraryError (class_name msg : string)
      (* any instance of Exception raised inside PIL or rembg *)
| SystemExit (code : Z)
| KeyboardInterrupt.

(** [isinstance(e, Exception)] *)
Definition is_Exception (e : exn) : bool :=
  match e with
  | SystemExit _ | KeyboardInterrupt => false
  | _ => true
  end.

Definition strerror (e : errno) : string :=
  match e with
  | ENOENT => "[Errno 2] No such file or directory"
  | ENOTDIR => "[Errno 20] Not a directory"
  | EEXIST => "[Errno 17] File exists"
  | EISDIR => "[Errno 21] Is a directory"
  end.

(** [str(n)] for an integer *)
Definition str_Z (n : Z) : string :=
  if n <? 0 then "-" ++ NilEmpty.string_of_uint (Nat.to_uint (Z.to_nat (- n)))
  else NilEmpty.string_of_uint (Nat.to_uint (Z.to_nat n)).

(** [str(e)], as interpolated by [f"{e}"] *)
Definition str_exn (e : exn) : string :=
  match e with
  | OSError n f => strerror n ++ ": '" ++ f ++ "'"
  | ValueError m => m
  | ImportError m => m
  | RecursionError => "maximum recursion depth exceeded"
  | LibraryError _ m => m
  | SystemExit code => str_Z code
  | KeyboardInterrupt => ""
  end.

Definition is_FileExistsError (e : exn) : bool :=
  match e with OSError EEXIST _ => true | _ => false end.

Definition is_OSError (e : exn) : bool :=
  match e with OSError _ _ => true | _ => false end.

Definition is_ImportError (e : exn) : bool :=
  match e with ImportError _ => true | _ => false end.

Inductive outcome (A : Type) : Type :=
| Return (a : A)
| Raise (e : exn).
Arguments Return {A} a.
Arguments Raise {A} e.

(** ** The file system

    A tree of directories whose entries are kept in listing order (the
    order [os.scandir] reports them in).  There are no symbolic or hard
    links: a name leads to one node, and a node has one name. *)

#[local] Unset Elimination Schemes.
Inductive node : Type :=
| File (data : list byte)
| Dir (entries : list (string * node)).
#[local] Set Elimination Schemes.

Module FS.

Fixpoint assoc (name : string) (es : list (string * node)) : option node :=
  match es with
  | [] => None
  | (n, c) :: r => if String.eqb n name then Some c else assoc name r
  end.

(** Replace the entry [name], or append it to the listing. *)
Fixpoint set_entry (name : string) (new : node) (es : list (string * node))
  : list (string * node) :=
  match es with
  | [] => [(name, new)]
  | (n, c) :: r =>
      if String.eqb n name then (n, new) :: r
      else (n, c) :: set_entry name new r
  end.

(** The node at a list of names below [n]. *)
Fixpoint lookup (n : node) (comps : list string) : option node :=
  match comps with
  | [] => Some n
  | c :: r =>
      match n with
      | Dir es => match assoc c es with
                  | Some ch => lookup ch r
                  | None => None
                  end
      | File _ => None
      end
  end.

(** Put [new] at [comps]; the parent must be a directory. *)
Fixpoint update (n : node) (comps : list string) (new : node) : option node :=
  match comps with
  | [] => Some new
  | c :: r =>
      match n with
      | Dir es =>
          match r with
          | [] => Some (Dir (set_entry c new es))
          | _ :: _ =>
              match assoc c es with
              | Some ch =>
                  match update ch r new with
                  | Some ch' => Some (Dir (set_entry c ch' es))
                  | None => None
                  end
              | None => None
              end
          end
      | File _ => None
      end
  end.

(** Remove the entry at [comps]. *)
Fixpoint remove_entry (name : string) (es : list (string * node))
  : list (string * node) :=
  match es with
  | [] => []
  | (n, c) :: r =>
      if String.eqb n name then r else (n, c) :: remove_entry name r
  end.

Fixpoint unlink (n : node) (comps : list string) : option node :=
  match comps with
  | [] => None
  | c :: r =>
      match n with
      | Dir es =>
          match r with
          | [] => Some (Dir (remove_entry c es))
          | _ :: _ =>
              match assoc c es with
              | Some ch =>
                  match unlink ch r with
                  | Some ch' => Some (Dir (set_entry c ch' es))
                  | None => None
                  end
              | None => None
              end
          end
      | File _ => None
      end
  end.

(** Path resolution, component by component, from the directory [cur]:
    every component is looked up in an existing directory; the last one
    need not exist. *)
Fixpoint namei (root : node) (cur : list string) (comps : list string)
  : errno + list string :=
  match comps with
  | [] => inr cur
  | c :: r =>
      match lookup root cur with
      | Some (Dir _) =>
          if (String.eqb c "" || String.eqb c ".")%bool then namei root cur r
          else if String.eqb c ".." then namei root (removelast cur) r
          else namei root (cur ++ [c])%list r
      | Some (File _) => inl ENOTDIR
      | None => inl ENOENT
      end
  end.

(** Trailing separators are ignored when a directory is made. *)
Fixpoint strip_trailing_empty (comps : list string) : list string :=
  match comps with
  | [] => []
  | c :: r =>
      match strip_trailing_empty r with
      | [] => if String.eqb c "" then [] else [c]
      | r' => c :: r'
      end
  end.

(** [st_size] of a directory (one block). *)
Definition dir_st_size : Z := 4096.

(** Names of the subdirectories and of the other entries, in listing
    order. *)
Definition dirnames (es : list (string * node)) : list string :=
  map fst (filter (fun e => match snd e with Dir _ => true | File _ => false end) es).

Definition filenames (es : list (string * node)) : list string :=
  map fst (filter (fun e => match snd e with Dir _ => false | File _ => true end) es).

(** [os.walk(top)] below the node at [top], top-down: one triple
    [(dirpath, dirnames, filenames)] per directory. *)
Fixpoint walk (top : string) (n : node)
  : list (string * list string * list string) :=
  match n with
  | File _ => []
  | Dir es =>
      (top, dirnames es, filenames es) ::
      (fix walk_entries (l : list (string * node)) :=
         match l with
         | [] => []
         | (name, ch) :: r =>
             (match ch with
              | Dir _ => walk (posixpath.join top name) ch
              | File _ => []
              end ++ walk_entries r)%list
         end) es
  end.

End FS.

(** ** The world and the monad of the program *)

Inductive session : Type := Session (model_name : string).

(** A call of [rembg.remove], with its keyword arguments. *)
Record remove_call : Type := {
  rc_data : list byte;
  rc_session : session;
  rc_alpha_matting : bool;
  rc_alpha_matting_foreground_threshold : Z;
  rc_alpha_matting_background_threshold : Z;
  rc_alpha_matting_erode_size : Z
}.

(** What the program can read or change.  [print] is taken to succeed
    (the terminal accepts the text); the interpreter's imports have no
    effect on the world. *)
Record World : Type := {
  fs : node;                      (* the root directory *)
  cwd : list string;              (* the working directory, from the root *)
  stdout : list string;           (* the text of every [print], oldest first *)
  remove_calls : list remove_call (* the calls of [rembg.remove], oldest first *)
}.

(** A computation of the program: from a world to an outcome and the
    world it leaves. *)

Definition M (A : Type) : Type := World -> outcome A * World.

Definition ret {A} (a : A) : M A := fun w => (Return a, w).
Definition raise {A} (e : exn) : M A := fun w => (Raise e, w).

Definition bind {A B} (m : M A) (k : A -> M B) : M B :=
  fun w => match m w with
           | (Return a, w') => k a w'
           | (Raise e, w') => (Raise e, w')
           end.

(** [try: m except ... as e: h(e)], with [h] for the [except] clauses
    together: it raises [e] again when no clause is for [e] *)
Definition try_except {A} (m : M A) (h : exn -> M A) : M A :=
  fun w => match m w with
           | (Return a, w') => (Return a, w')
           | (Raise e, w') => h e w'
           end.

(** [try: m except Exception as e: h(e)]: an exception outside
    [Exception] goes on to the caller *)
Definition try_except_Exception {A} (m : M A) (h : exn -> M A) : M A :=
  try_except m (fun e => if is_Exception e then h e else raise e).

Declare Scope py_scope.
Delimit Scope py_scope with py.
Notation "x <- m ;; k" := (bind m (fun x => k))
  (at level 100, m at next level, right associativity) : py_scope.
Notation "m ;; k" := (bind m (fun _ => k))
  (at level 100, right associativity) : py_scope.
Local Open Scope py_scope.

Definition lift {A} (o : outcome A) : M A := fun w => (o, w).

Definition with_fs (f : node) (w : World) : World :=
  {| fs := f; cwd := cwd w; stdout := stdout w; remove_calls := remove_calls w |}.

Definition print_text (text : string) (w : World) : World :=
  {| fs := fs w; cwd := cwd w; stdout := (stdout w ++ [text])%list;
     remove_calls := remove_calls w |}.

Definition log_remove (c : remove_call) (w : World) : World :=
  {| fs := fs w; cwd := cwd w; stdout := stdout w;
     remove_calls := (remove_calls w ++ [c])%list |}.

Definition newline : string := String (ascii_of_nat 10) EmptyString.

(** [print(s, end=e)] and [print(s)] *)
Definition print_end (s e : string) : M unit :=
  fun w => (Return tt, print_text (s ++ e) w).
Definition print (s : string) : M unit := print_end s newline.

(** [str(n)] for a non-negative integer *)
Definition str_int (n : Z) : string :=
  NilEmpty.string_of_uint (Nat.to_uint (Z.to_nat n)).

(** ** The os module *)

Module os.
Import FS.

Definition getcwd_str (w : World) : string :=
  String PyStr.sep (PyStr.join_sep (cwd w)).

Definition resolve (w : World) (p : string) : errno + list string :=
  if String.eqb p "" then inl ENOENT
  else namei (fs w) (if posixpath.isabs p then [] else cwd w)
             (PyStr.split_sep p).

(** [os.stat(p)] *)
Definition stat (w : World) (p : string) : errno + node :=
  match resolve w p with
  | inl e => inl e
  | inr comps =>
      match lookup (fs w) comps with
      | Some n => inr n
      | None => inl ENOENT
      end
  end.

(** [os.path.exists(p)]: [False] on any [OSError] of [os.stat]. *)
Definition path_exists (p : string) : M bool :=
  fun w => (Return (match stat w p with inr _ => true | inl _ => false end), w).

Definition path_isdir (p : string) : M bool :=
  fun w => (Return (match stat w p with inr (Dir _) => true | _ => false end), w).

(** [os.path.getsize(p)] *)
Definition path_getsize (p : string) : M Z :=
  fun w => match stat w p with
           | inr (File data) => (Return (Z.of_nat (length data)), w)
           | inr (Dir _) => (Return dir_st_size, w)
           | inl e => (Raise (OSError e p), w)
           end.

(** [os.path.relpath(path, start)] *)
Definition path_relpath (path start : string) : M string :=
  fun w => match posixpath.relpath (getcwd_str w) path start with
           | Some r => (Return r, w)
           | None => (Raise (ValueError "no path specified"), w)
           end.

(** [os.mkdir(p)] *)
Definition mkdir (p : string) : M unit :=
  fun w =>
    if String.eqb p "" then (Raise (OSError ENOENT p), w)
    else
      match namei (fs w) (if posixpath.isabs p then [] else cwd w)
                  (strip_trailing_empty (PyStr.split_sep p)) with
      | inl e => (Raise (OSError e p), w)
      | inr comps =>
          match lookup (fs w) comps with
          | Some _ => (Raise (OSError EEXIST p), w)
          | None =>
              match update (fs w) comps (Dir []) with
              | Some f => (Return tt, with_fs f w)
              | None => (Raise (OSError ENOENT p), w)
              end
          end
      end.

(** The body of [os.makedirs(name, exist_ok=exist_ok)], with [makedirs]
    for the function it calls on [head]. *)
Definition makedirs_body (makedirs : string -> M unit) (name : string)
           (exist_ok : bool) : M unit :=
  let '(head, tail) := posixpath.split name in
  let '(head, tail) :=
    if String.eqb tail "" then posixpath.split head else (head, tail) in
  missing <- (if (negb (String.eqb head "") && negb (String.eqb tail ""))%bool
              then (ex <- path_exists head ;; ret (negb ex))
              else ret false) ;;
  done <- (if missing : bool then
             (try_except (makedirs head)
                (fun e => if is_FileExistsError e then ret tt else raise e) ;;
              ret (String.eqb tail posixpath.curdir))
           else ret false) ;;
  if done : bool then ret tt
  else
    try_except (mkdir name)
      (fun e =>
         if is_OSError e then
           (d <- path_isdir name ;;
            if (negb exist_ok || negb d)%bool then raise e else ret tt)
         else raise e).

(** [os.makedirs] calls itself on a strictly shorter [head]
    ([makedirs_rec_fuel] below); [fuel] bounds the depth of the
    recursion. *)
Fixpoint makedirs_rec (fuel : nat) (name : string) (exist_ok : bool)
  : M unit :=
  match fuel with
  | O => raise RecursionError
  | S k => makedirs_body (fun head => makedirs_rec k head exist_ok)
                         name exist_ok
  end.

Definition makedirs (name : string) (exist_ok : bool) : M unit :=
  makedirs_rec (S (String.length name)) name exist_ok.

(** [os.remove(p)] of a regular file *)
Definition remove (p : string) : M unit :=
  fun w => match resolve w p with
           | inl e => (Raise (OSError e p), w)
           | inr comps =>
               match lookup (fs w) comps with
               | Some (File _) =>
                   match unlink (fs w) comps with
                   | Some f => (Return tt, with_fs f w)
                   | None => (Raise (OSError ENOENT p), w)
                   end
               | Some (Dir _) => (Raise (OSError EISDIR p), w)
               | None => (Raise (OSError ENOENT p), w)
               end
           end.

(** [open(p, "rb").read()] *)
Definition read_file (p : string) : M (list byte) :=
  fun w => match stat w p with
           | inr (File data) => (Return data, w)
           | inr (Dir _) => (Raise (OSError EISDIR p), w)
           | inl e => (Raise (OSError e p), w)
           end.

(** [open(p, "w+b")] followed by [write(data)]: the file is created, or
    its content replaced. *)
Definition write_file (p : string) (data : list byte) : M unit :=
  fun w => match resolve w p with
           | inl e => (Raise (OSError e p), w)
           | inr comps =>
               match lookup (fs w) comps with
               | Some (Dir _) => (Raise (OSError EISDIR p), w)
               | _ =>
                   match update (fs w) comps (File data) with
                   | Some f => (Return tt, with_fs f w)
                   | None => (Raise (OSError ENOENT p), w)
                   end
               end
           end.

(** [list(os.walk(top))]: errors of [os.scandir] are ignored, so a
    missing [top], or one that is not a directory, yields nothing.  The
    program runs the generator to its end (lines 112-115) before it writes
    anything, so the triples are those of one tree. *)
Definition walk (top : string) : M (list (string * list string * list string)) :=
  fun w => match stat w top with
           | inr n => (Return (FS.walk top n), w)
           | inl _ => (Return [], w)
           end.

End os.

(** ** The external libraries

    PIL and rembg are opaque collaborators: what they compute is a
    parameter of the development.  [image] is the type of [PIL.Image]
    objects.  The libraries decode, encode and segment in memory; the
    files that rembg keeps for its models are not part of the tree. *)

Record Libraries : Type := {
  image : Type;
  (** [import rembg], [from rembg import new_session, remove] and
      [from PIL import Image]: [Some e] when the import raises *)
  import_rembg : option exn;
  import_PIL : option exn;
  (** [Image.open] on the bytes of a file *)
  PIL_open : list byte -> outcome image;
  (** [img.verify()] *)
  PIL_verify : image -> option exn;
  (** [img.convert(mode)] *)
  PIL_convert : image -> string -> outcome image;
  (** the encoder behind [img.save(fp, format, optimize=...)] *)
  PIL_encode : image -> string -> bool -> outcome (list byte);
  (** [rembg.new_session(model_name)] *)
  rembg_new_session : string -> option exn;
  (** [rembg.remove(data, session=..., alpha_matting=..., ...)] *)
  rembg_remove : remove_call -> outcome (list byte)
}.

(** What a library step raises, if it raises, is an instance of
    [Exception]. *)
Definition raises_Exception (r : option exn) : Prop :=
  match r with
  | Some e => is_Exception e = true
  | None => True
  end.

Definition fails_with_Exception {A} (o : outcome A) : Prop :=
  match o with
  | Raise e => is_Exception e = true
  | Return _ => True
  end.

(** [Libs]: libraries whose failures are instances of [Exception], as are
    the errors that PIL and rembg raise on the data they are given.  The
    program is defined over [Libraries]; the statements about libraries
    that never leave through [SystemExit] or [KeyboardInterrupt] are made
    over [Libs]. *)
Record Libs : Type := {
  libraries :> Libraries;
  import_rembg_Exception : raises_Exception (import_rembg libraries);
  import_PIL_Exception : raises_Exception (import_PIL libraries);
  PIL_open_Exception :
    forall data, fails_with_Exception (PIL_open libraries data);
  PIL_verify_Exception :
    forall img, raises_Exception (PIL_verify libraries img);
  PIL_convert_Exception :
    forall img mode, fails_with_Exception (PIL_convert libraries img mode);
  PIL_encode_Exception :
    forall img format optimize,
      fails_with_Exception (PIL_encode libraries img format optimize);
  rembg_new_session_Exception :
    forall model_name, raises_Exception (rembg_new_session libraries model_name);
  rembg_remove_Exception :
    forall c, fails_with_Exception (rembg_remove libraries c)
}.

Definition default {A} (d : A) (o : option A) : A :=
  match o with Some a => a | None => d end.

(** [enumerate(l, start)] *)
Fixpoint enumerate {A} (l : list A) (start : Z) : list (Z * A) :=
  match l with
  | [] => []
  | a :: r => (start, a) :: enumerate r (start + 1)
  end.

(** [for x in l: s = body(x, s)] *)
Fixpoint for_each {A S} (l : list A) (body : A -> S -> M S) (s : S) : M S :=
  match l with
  | [] => ret s
  | a :: r => s' <- body a s ;; for_each r body s'
  end.

(** ** The terminal and the monad of the menu

    [main] reads its answers with [input()].  The terminal holds what the
    user is going to do at the coming prompts, and the prompts shown so
    far: a line typed and entered, the interrupt key (Python raises
    [KeyboardInterrupt] out of [input()]), or an end of file ([EOFError],
    for that call of [input()] only, as after Ctrl-D on a terminal).  When
    nothing is pending the input is at its end for good (a pipe or a file
    that is used up): every call of [input()] raises [EOFError].  The
    interrupt key is modelled at the prompts, where the program waits,
    and, during a call of a library, as the [KeyboardInterrupt] that the
    call raises. *)

Inductive key : Type :=
| Line (text : string)
| Interrupt
| EndOfFile.

Record terminal : Type := {
  pending : list key;
  prompts : list string
}.

(** What the statements of [main] can raise: an exception of the program
    so far, or the [EOFError] that [input()] adds, an instance of
    [Exception]. *)
Inductive signal : Type :=
| Exc (e : exn)
| EOFError.

Definition is_KeyboardInterrupt (s : signal) : bool :=
  match s with Exc KeyboardInterrupt => true | _ => false end.

(** [isinstance(s, Exception)] *)
Definition signal_is_Exception (s : signal) : bool :=
  match s with
  | Exc e => is_Exception e
  | EOFError => true
  end.

(** [str(e)] *)
Definition str_signal (s : signal) : string :=
  match s with
  | Exc e => str_exn e
  | EOFError => "EOF when reading a line"
  end.

(** A computation either is done, or has raised, or is still running when
    the fuel of a [while True] loop is used up. *)
Inductive result (A : Type) : Type :=
| Done (a : A)
| Throw (s : signal)
| Running.
Arguments Done {A} a.
Arguments Throw {A} s.
Arguments Running {A}.

Definition IO (A : Type) : Type := terminal -> World -> result A * terminal * World.

Definition io_ret {A} (a : A) : IO A := fun t w => (Done a, t, w).
Definition io_raise {A} (s : signal) : IO A := fun t w => (Throw s, t, w).

Definition io_bind {A B} (m : IO A) (k : A -> IO B) : IO B :=
  fun t w => match m t w with
             | (Done a, t', w') => k a t' w'
             | (Throw s, t', w') => (Throw s, t', w')
             | (Running, t', w') => (Running, t', w')
             end.

(** A computation of the program, run from the menu. *)
Definition lift_io {A} (m : M A) : IO A :=
  fun t w => match m w with
             | (Return a, w') => (Done a, t, w')
             | (Raise e, w') => (Throw (Exc e), t, w')
             end.

(** [try: m except ...: h], with [h] for the [except] clauses together *)
Definition io_try {A} (m : IO A) (h : signal -> IO A) : IO A :=
  fun t w => match m t w with
             | (Throw s, t', w') => h s t' w'
             | r => r
             end.

Declare Scope io_scope.
Delimit Scope io_scope with io.
Notation "x <- m ;; k" := (io_bind m (fun x => k))
  (at level 100, m at next level, right associativity) : io_scope.
Notation "m ;; k" := (io_bind m (fun _ => k))
  (at level 100, right associativity) : io_scope.

(** [input(prompt)] *)
Definition input (prompt : string) : IO string :=
  fun t w =>
    let shown := (prompts t ++ [prompt])%list in
    match pending t with
    | Line text :: rest =>
        (Done text, {| pending := rest; prompts := shown |}, w)
    | Interrupt :: rest =>
        (Throw (Exc KeyboardInterrupt),
         {| pending := rest; prompts := shown |}, w)
    | EndOfFile :: rest =>
        (Throw EOFError, {| pending := rest; prompts := shown |}, w)
    | [] =>
        (Throw EOFError, {| pending := []; prompts := shown |}, w)
    end.

(** How a turn of a loop ends: with [break], or by going on to the next
    turn (with [continue], or at the end of the body). *)
Inductive flow : Type := Break | Next.

(** [while True: turn], for at most [fuel] turns *)
Fixpoint while_true (fuel : nat) (turn : IO flow) : IO unit :=
  match fuel with
  | O => fun t w => (Running, t, w)
  | S k =>
      io_bind turn (fun f =>
        match f with
        | Break => io_ret tt
        | Next => while_true k turn
        end)
  end.

Section Program.

Variable L : Libraries.

Definition import_module (r : option exn) : M unit :=
  match r with
  | Some e => raise e
  | None => ret tt
  end.

(** [Image.open(path)]: the file is opened for reading, then parsed. *)
Definition Image_open (path : string) : M (image L) :=
  data <- os.read_file path ;;
  lift (PIL_open L data).

(** [Image.open(io.BytesIO(data))] *)
Definition Image_open_bytes (data : list byte) : M (image L) :=
  lift (PIL_open L data).

Definition Image_verify (img : image L) : M unit :=
  import_module (PIL_verify L img).

Definition Image_convert (img : image L) (mode : string) : M (image L) :=
  lift (PIL_convert L img mode).

(** [buf = io.BytesIO(); img.save(buf, format=format); buf.getvalue()] *)
Definition Image_save_bytes (img : image L) (format : string)
  : M (list byte) :=
  lift (PIL_encode L img format false).

(** [img.save(filename, format, optimize=optimize)], after
    [PIL/Image.py]: [created = not os.path.exists(filename)], the file is
    opened with ["w+b"] (created, or truncated), the encoder writes into
    it, and when the encoder raises, a file that this call created is
    removed again before the exception goes on; the clause is
    [except Exception]. *)
Definition Image_save (img : image L) (filename format : string)
           (optimize : bool) : M unit :=
  existed <- os.path_exists filename ;;
  os.write_file filename [] ;;
  try_except_Exception
    (data <- lift (PIL_encode L img format optimize) ;;
     os.write_file filename data)
    (fun e =>
       (if existed : bool then ret tt else os.remove filename) ;;
       raise e).

Definition new_session (model_name : string) : M session :=
  match rembg_new_session L model_name with
  | Some e => raise e
  | None => ret (Session model_name)
  end.

Definition remove (c : remove_call) : M (list byte) :=
  fun w => (rembg_remove L c, log_remove c w).

(** *** app.py *)

(** lines 13-22: the handler is for [ImportError] only, so that any other
    exception of an import goes on to the caller *)
Definition check_dependencies : M bool :=
  try_except
    (import_module (import_rembg L) ;;
     import_module (import_PIL L) ;;
     ret true)
    (fun e =>
       if is_ImportError e then
         (print ("❌ Dependência faltando: " ++ str_exn e) ;;
          print "💡 Execute: pip install rembg pillow onnxruntime" ;;
          ret false)
       else raise e).

(** lines 27-32: the body of the [try] statement *)
Definition is_valid_image_try (file_path : string) : M bool :=
  import_module (import_PIL L) ;;
  size <- os.path_getsize file_path ;;
  if size <? 100 then ret false
  else
    (img <- Image_open file_path ;;
     Image_verify img ;;
     ret true).

(** lines 24-34 *)
Definition is_valid_image (file_path : string) : M bool :=
  try_except_Exception (is_valid_image_try file_path) (fun _ => ret false).

(** lines 50-97: the body of the [try] statement *)
Definition remove_background_try (input_path output_path model_name : string)
           (alpha_matting : bool) : M bool :=
  import_module (import_rembg L) ;;
  import_module (import_PIL L) ;;
  found <- os.path_exists input_path ;;
  if negb found then
    (print ("❌ Arquivo não encontrado: " ++ input_path) ;;
     ret false)
  else
    (valid <- is_valid_image input_path ;;
     if negb valid then
       (print ("❌ Arquivo não é uma imagem válida: " ++ input_path) ;;
        ret false)
     else
       (print ("🔄 Processando com qualidade: " ++ input_path) ;;
        session <- new_session model_name ;;
        input_image <- Image_open input_path ;;
        input_image <- Image_convert input_image "RGBA" ;;
        img_bytes <- Image_save_bytes input_image "PNG" ;;
        output_bytes <- remove
          {| rc_data := img_bytes;
             rc_session := session;
             rc_alpha_matting := alpha_matting;
             rc_alpha_matting_foreground_threshold := 240;
             rc_alpha_matting_background_threshold := 10;
             rc_alpha_matting_erode_size := 10 |} ;;
        output_image <- Image_open_bytes output_bytes ;;
        output_image <- Image_convert output_image "RGBA" ;;
        os.makedirs (posixpath.dirname output_path) true ;;
        Image_save output_image output_path "PNG" true ;;
        print ("✅ Salvo: " ++ output_path) ;;
        ret true)).

(** lines 36-101; [None] stands for an argument that the caller leaves
    out, so that the default of line 36 applies *)
Definition remove_background_high_quality
           (input_path output_path : string)
           (model_name : option string) (alpha_matting : option bool)
  : M bool :=
  let model_name := default "u2net" model_name in
  let alpha_matting := default true alpha_matting in
  try_except_Exception
    (remove_background_try input_path output_path model_name alpha_matting)
    (fun e =>
       print ("❌ Erro ao processar: " ++ str_exn e) ;;
       ret false).

(** line 109 *)
Definition supported_formats : list string :=
  [".jpg"; ".jpeg"; ".png"; ".bmp"; ".tiff"; ".webp"].

(** line 114 *)
Definition is_supported (file : string) : bool :=
  PyStr.mem (PyStr.lower (pathlib.suffix file)) supported_formats.

(** lines 111-115 *)
Definition collect_image_files
           (walked : list (string * list string * list string))
  : list string :=
  flat_map (fun '(root, dirs, files) =>
              map (posixpath.join root) (filter is_supported files))
           walked.

(** lines 129-131 *)
Definition output_file_for (input_dir output_dir img_file : string)
  : M string :=
  rel_path <- os.path_relpath img_file input_dir ;;
  let output_file := posixpath.join output_dir rel_path in
  ret (fst (posixpath.splitext output_file) ++ "_sem_fundo.png").

(** line 127: [f"\n[{i}/{len(image_files)}]"] *)
Definition progress_text (i total : Z) : string :=
  newline ++ "[" ++ str_int i ++ "/" ++ str_int total ++ "]".

(** lines 126-136: one turn of the loop *)
Definition process_one (input_dir output_dir : string) (total : Z)
           (item : Z * string) (counts : Z * Z) : M (Z * Z) :=
  let '(i, img_file) := item in
  let '(success_count, fail_count) := counts in
  print_end (progress_text i total) " " ;;
  output_file <- output_file_for input_dir output_dir img_file ;;
  ok <- remove_background_high_quality img_file output_file None None ;;
  if ok : bool then ret (success_count + 1, fail_count)
  else ret (success_count, fail_count + 1).

(** lines 103-138 *)
Definition process_directory_high_quality (input_dir output_dir : string)
  : M (Z * Z) :=
  found <- os.path_exists input_dir ;;
  if negb found then
    (print ("❌ Diretório não encontrado: " ++ input_dir) ;;
     ret (0, 0))
  else
    (walked <- os.walk input_dir ;;
     let image_files := collect_image_files walked in
     match image_files with
     | [] =>
         print ("❌ Nenhuma imagem encontrada em: " ++ input_dir) ;;
         ret (0, 0)
     | _ :: _ =>
         let total := Z.of_nat (length image_files) in
         print ("📸 Encontradas " ++ str_int total ++ " imagens") ;;
         for_each (enumerate image_files 1)
                  (process_one input_dir output_dir total) (0, 0)
     end).

(** lines 157-173: choice ['1'] of the menu, on the two stripped answers *)
Definition main_choice_1 (input_path output_path : string) : M unit :=
  if String.eqb input_path "" then
    print "❌ Caminho não pode estar vazio!"
  else
    (let output_path :=
       if String.eqb output_path "" then
         fst (posixpath.splitext input_path) ++ "_sem_fundo.png"
       else output_path in
     success <- remove_background_high_quality input_path output_path None None ;;
     if success : bool then
       print ("🎉 Sucesso! Imagem salva em: " ++ output_path)
     else print "😞 Falha no processamento").

Local Open Scope io_scope.

(** lines 155-201: the body of the [try] statement of the loop *)
Definition main_try : IO flow :=
  choice <- input (newline ++ "Opção (1-3): ") ;;
  let choice := PyStr.strip choice in
  if String.eqb choice "1" then
    (input_path <- input "📁 Caminho da imagem de entrada: " ;;
     let input_path := PyStr.strip input_path in
     if String.eqb input_path "" then
       (lift_io (print "❌ Caminho não pode estar vazio!") ;;
        io_ret Next)
     else
       (output_path <- input "💾 Caminho de saída (Enter para automático): " ;;
        let output_path := PyStr.strip output_path in
        let output_path :=
          if String.eqb output_path "" then
            fst (posixpath.splitext input_path) ++ "_sem_fundo.png"
          else output_path in
        success <- lift_io (remove_background_high_quality
                              input_path output_path None None) ;;
        (if success : bool then
           lift_io (print ("🎉 Sucesso! Imagem salva em: " ++ output_path))
         else lift_io (print "😞 Falha no processamento")) ;;
        io_ret Break))
  else if String.eqb choice "2" then
    (input_dir <- input "📁 Diretório de entrada: " ;;
     let input_dir := PyStr.strip input_dir in
     if String.eqb input_dir "" then
       (lift_io (print "❌ Diretório não pode estar vazio!") ;;
        io_ret Next)
     else
       (output_dir <- input "💾 Diretório de saída (Enter para './processadas'): " ;;
        let output_dir := PyStr.strip output_dir in
        let output_dir :=
          if String.eqb output_dir "" then "./processadas" else output_dir in
        counts <- lift_io (process_directory_high_quality input_dir output_dir) ;;
        let '(success_count, fail_count) := counts in
        let total := (success_count + fail_count)%Z in
        lift_io (print (newline ++ "📊 Processamento concluído:")) ;;
        lift_io (print ("✅ Sucessos: " ++ str_int success_count
                        ++ "/" ++ str_int total)) ;;
        lift_io (print ("❌ Falhas: " ++ str_int fail_count
                        ++ "/" ++ str_int total)) ;;
        (if (0 <? success_count)%Z then
           lift_io (print ("🎉 Imagens processadas salvas em: " ++ output_dir))
         else io_ret tt) ;;
        io_ret Break))
  else if String.eqb choice "3" then
    (lift_io (print "👋 Até logo!") ;;
     io_ret Break)
  else
    (lift_io (print "❌ Opção inválida! Digite 1, 2 ou 3.") ;;
     io_ret Next).

(** lines 154-207: one turn of the loop, with the two [except] clauses;
    what is neither a [KeyboardInterrupt] nor an instance of [Exception]
    goes on *)
Definition main_turn : IO flow :=
  io_try main_try
    (fun s =>
       if is_KeyboardInterrupt s then
         (lift_io (print (newline ++ newline ++ "👋 Saindo...")) ;;
          io_ret Break)
       else if signal_is_Exception s then
         (lift_io (print ("❌ Erro: " ++ str_signal s)) ;;
          io_ret Next)
       else io_raise s).

(** lines 140-207; [fuel] bounds the turns of the loop *)
Definition main (fuel : nat) : IO unit :=
  lift_io (print "🎨 Removedor de Fundo de Imagens (Alta Qualidade)") ;;
  lift_io (print (PyStr.times "=" 45)) ;;
  ok <- lift_io check_dependencies ;;
  if negb ok then io_ret tt
  else
    (lift_io (print (newline ++ "Escolha uma opção:")) ;;
     lift_io (print "1. Processar uma imagem (Alta Qualidade)") ;;
     lift_io (print "2. Processar um diretório (Alta Qualidade)") ;;
     lift_io (print "3. Sair") ;;
     while_true fuel main_turn).

End Program.

(** ** Vocabulary of the statements *)

(** [descends n p n']: the names [p], followed from the node [n] through
    the listings, lead to [n']. *)
Inductive descends : node -> list string -> node -> Prop :=
| descends_here : forall n, descends n [] n
| descends_step : forall es name ch p n',
    In (name, ch) es -> descends ch p n' ->
    descends (Dir es) (name :: p) n'.

(** A regular file named [f] in the subdirectory [ds] of [n]. *)
Definition file_under (n : node) (ds : list string) (f : string) : Prop :=
  exists data, descends n (ds ++ [f])%list (File data).

(** The names a directory can hold: not empty, not [.] or [..], and free
    of separators. *)
Definition valid_name (s : string) : bool :=
  (negb (String.eqb s "") && negb (String.eqb s ".")
   && negb (String.eqb s "..") && (PyStr.rfind PyStr.sep s =? -1))%bool.

Fixpoint valid_names (n : node) : bool :=
  match n with
  | File _ => true
  | Dir es =>
      (fix go (l : list (string * node)) : bool :=
         match l with
         | [] => true
         | (name, ch) :: r => (valid_name name && valid_names ch && go r)%bool
         end) es
  end.

(** The path under which [os.walk(top)] reports the file [f] of the
    subdirectory [ds]: [join(join(top, d1), ...)], then [join(root, f)]. *)
Definition walked_path (top : string) (ds : list string) (f : string) : string :=
  posixpath.join_all top (ds ++ [f])%list.

(** The list [image_files] that lines 111-115 build in the world [w]. *)
Definition image_files_at (w : World) (input_dir : string) : list string :=
  match os.stat w input_dir with
  | inr n => collect_image_files (FS.walk input_dir n)
  | inl _ => []
  end.

(** The name of a file without its extension, [os.path.splitext(f)[0]]. *)
Definition stem (f : string) : string := fst (posixpath.splitext f).

(** [<output_root>/<relative_dir>/<basename_without_ext>_sem_fundo.png] *)
Definition mirrored_output (output_dir : string) (ds : list string)
           (f : string) : string :=
  posixpath.join_all output_dir
    (ds ++ [(stem f ++ "_sem_fundo.png")%string])%list.



(** One call of the Single-Image Processor made by the walker: its two
    arguments, what it returned and the world it left. *)
Record invocation : Type := {
  inv_input : string;
  inv_output : string;
  inv_result : bool;
  inv_after : World
}.

(** The batch as a sequence of calls: every item in turn is announced,
    its output path computed and the processor called in the world the
    previous calls left; the calls are recorded.  An exception would end
    the sequence. *)
Fixpoint batch_trace (L : Libs) (input_dir output_dir : string) (total : Z)
         (items : list (Z * string)) (w : World) : list invocation * World :=
  match items with
  | [] => ([], w)
  | (i, img_file) :: rest =>
      let w1 := print_text (progress_text i total ++ " ") w in
      match output_file_for input_dir output_dir img_file w1 with
      | (Return output_file, w2) =>
          match remove_background_high_quality L img_file output_file
                                               None None w2 with
          | (Return ok, w3) =>
              let '(tr, w4) :=
                batch_trace L input_dir output_dir total rest w3 in
              ({| inv_input := img_file; inv_output := output_file;
                  inv_result := ok; inv_after := w3 |} :: tr, w4)
          | (Raise _, w3) => ([], w3)
          end
      | (Raise _, w2) => ([], w2)
      end
  end.

Definition successes (tr : list invocation) : Z :=
  Z.of_nat (length (filter inv_result tr)).
Definition failures (tr : list invocation) : Z :=
  Z.of_nat (length (filter (fun r => negb (inv_result r)) tr)).

(** The world in which the loop of the walker starts. *)
Definition batch_start (w : World) (input_dir : string) : World :=
  print_text ("📸 Encontradas "
              ++ str_int (Z.of_nat (length (image_files_at w input_dir)))
              ++ " imagens" ++ newline) w.

(** The two diagnostics of the walker that end a run without work. *)
Definition msg_dir_not_found (input_dir : string) : string :=
  "❌ Diretório não encontrado: " ++ input_dir ++ newline.
Definition msg_no_images (input_dir : string) : string :=
  "❌ Nenhuma imagem encontrada em: " ++ input_dir ++ newline.

(** The message of line 100. *)
Definition msg_error (e : exn) : string :=
  "❌ Erro ao processar: " ++ str_exn e ++ newline.


(** [raises_only Q m]: what [m] raises, if it raises, satisfies [Q]. *)
Definition raises_only (Q : exn -> Prop) {A} (m : M A) : Prop :=
  forall w e w', m w = (Raise e, w') -> Q e.

Definition an_Exception (e : exn) : Prop := is_Exception e = true.

(** [e] is what a step of the libraries raises on some input. *)
Definition raised_by_library (L : Libraries) (e : exn) : Prop :=
  import_rembg L = Some e \/ import_PIL L = Some e \/
  (exists data, PIL_open L data = Raise e) \/
  (exists img, PIL_verify L img = Some e) \/
  (exists img mode, PIL_convert L img mode = Raise e) \/
  (exists img format optimize,
      PIL_encode L img format optimize = Raise e) \/
  (exists model_name, rembg_new_session L model_name = Some e) \/
  (exists c, rembg_remove L c = Raise e).

(** [keeps P m]: whatever [m] does, the world it leaves is related by [P]
    to the world it started in. *)
Definition keeps (P : World -> World -> Prop) {A} (m : M A) : Prop :=
  forall w, P w (snd (m w)).

(** Relations between the world before and the world after: only the
    tree may differ; the printed text has grown; the recorded calls have
    grown by calls that satisfy [Q]. *)
Definition fs_only (w w' : World) : Prop :=
  cwd w' = cwd w /\ stdout w' = stdout w /\ remove_calls w' = remove_calls w.

Definition stdout_grows (w w' : World) : Prop :=
  exists l, stdout w' = (stdout w ++ l)%list.

Definition calls_grow (Q : remove_call -> Prop) (w w' : World) : Prop :=
  exists l, remove_calls w' = (remove_calls w ++ l)%list /\ Forall Q l.

Definition calls_kept (w w' : World) : Prop :=
  remove_calls w' = remove_calls w.

(** A call of [rembg.remove] on a session of the model [model_name], with
    the flag [alpha_matting] and the three tuning constants of lines
    82-84. *)
Definition fixed_call (model_name : string) (alpha_matting : bool)
           (c : remove_call) : Prop :=
  rc_session c = Session model_name /\
  rc_alpha_matting c = alpha_matting /\
  rc_alpha_matting_foreground_threshold c = 240 /\
  rc_alpha_matting_background_threshold c = 10 /\
  rc_alpha_matting_erode_size c = 10.

(** A string that is empty or ends with the separator. *)
Definition dir_like (x : string) : Prop :=
  x = "" \/ PyStr.endswith_sep x = true.

(** The tag of line 131. *)
Definition sfx : string := "_sem_fundo.png".

(** The directories [ds] as the front of a path: ["d1/d2/.../"]. *)
Fixpoint dirs_prefix (ds : list string) : string :=
  match ds with
  | [] => ""
  | d :: r => d ++ String PyStr.sep (dirs_prefix r)
  end.

(** A name that [join] appends as it is: not empty and free of
    separators. *)
Definition plain (s : string) : Prop :=
  s <> "" /\ PyStr.has_char PyStr.sep s = false.

Definition is_Dir (o : option node) : Prop := exists es, o = Some (Dir es).

(** A world whose file names are legal. *)
Definition legal_world (w : World) : Prop :=
  valid_names (fs w) = true /\ Forall (fun x => valid_name x = true) (cwd w).

(** [legal_kept w w']: if the names of [w] are legal, so are those of [w']. *)
Definition legal_kept (w w' : World) : Prop := legal_world w -> legal_world w'.

(** What [os.walk] reports below one entry of a directory. *)
Definition walk_child (top : string) (e : string * node)
  : list (string * list string * list string) :=
  match snd e with
  | Dir _ => FS.walk (posixpath.join top (fst e)) (snd e)
  | File _ => []
  end.

(** ** The words of the claims on file names

    What the claims call the extension of a file name, a comparison that
    ignores the case of letters, and the path
    [<output_root>/<relative_dir>/<name>]: said of the text of the names,
    without the functions of the program. *)

(** [name] is [base.ext]: the extension [ext] is what follows the last
    dot of the name, and that dot is neither the first nor the last
    character of the name. *)
Definition has_extension (name base ext : string) : Prop :=
  name = base ++ "." ++ ext /\ base <> "" /\ ext <> "" /\
  ~ In "."%char (list_ascii_of_string ext).

(** The 26 letters, in upper and in lower case. *)
Definition letters : list (ascii * ascii) :=
  combine (list_ascii_of_string "ABCDEFGHIJKLMNOPQRSTUVWXYZ")
          (list_ascii_of_string "abcdefghijklmnopqrstuvwxyz").

Definition same_letter (a b : ascii) : Prop :=
  a = b \/ In (a, b) letters \/ In (b, a) letters.

(** [s] and [t] are the same text when the case of letters is ignored. *)
Definition caseless (s t : string) : Prop :=
  Forall2 same_letter (list_ascii_of_string s) (list_ascii_of_string t).

(** The fixed set of supported extensions. *)
Definition extensions : list string :=
  ["jpg"; "jpeg"; "png"; "bmp"; "tiff"; "webp"].

(** A text made of dots only. *)
Definition only_dots (s : string) : bool :=
  forallb (Ascii.eqb ".") (list_ascii_of_string s).

(** A root as the front of a path: followed by a separator, unless it is
    empty or ends with one already. *)
Definition as_directory (root : string) : string :=
  if String.eqb root "" then ""
  else if PyStr.endswith_sep root then root
  else root ++ "/".

(** [<root>/<d1>/.../<dn>/<name>] *)
Definition path_under (root : string) (ds : list string) (name : string)
  : string :=
  as_directory root ++ dirs_prefix ds ++ name.

(** ** Vocabulary of the menu and of the further properties *)

(** The exception of the first import that fails; [rembg] is imported
    first. *)
Definition first_import_failure (L : Libraries) : option exn :=
  match import_rembg L with
  | Some e => Some e
  | None => import_PIL L
  end.

(** The world after the lines [l] have been printed, one [print] each. *)
Definition said (l : list string) (w : World) : World :=
  fold_left (fun w s => print_text (s ++ newline) w) l w.

(** The terminal after the prompts [l] have been answered by the keys in
    front of [rest]. *)
Definition asked (l : list string) (rest : list key) (t : terminal) : terminal :=
  {| pending := rest; prompts := (prompts t ++ l)%list |}.

(** The lines and the prompts of the menu. *)
Definition banner : list string :=
  ["🎨 Removedor de Fundo de Imagens (Alta Qualidade)"; PyStr.times "=" 45].

Definition menu : list string :=
  [newline ++ "Escolha uma opção:";
   "1. Processar uma imagem (Alta Qualidade)";
   "2. Processar um diretório (Alta Qualidade)";
   "3. Sair"].

Definition msg_missing (e : exn) : string :=
  "❌ Dependência faltando: " ++ str_exn e.
Definition msg_pip : string :=
  "💡 Execute: pip install rembg pillow onnxruntime".
Definition msg_eof : string := "❌ Erro: EOF when reading a line".
Definition msg_bye : string := newline ++ newline ++ "👋 Saindo...".

Definition prompt_choice : string := newline ++ "Opção (1-3): ".

(** The output path of line 166, for an empty answer. *)
Definition automatic_output (input_path : string) : string :=
  fst (posixpath.splitext input_path) ++ "_sem_fundo.png".


(** The call of [rembg.remove] of lines 79-85 on the data [img_bytes]. *)
Definition engine_call (img_bytes : list byte) (model_name : string)
           (alpha_matting : bool) : remove_call :=
  {| rc_data := img_bytes;
     rc_session := Session model_name;
     rc_alpha_matting := alpha_matting;
     rc_alpha_matting_foreground_threshold := 240;
     rc_alpha_matting_background_threshold := 10;
     rc_alpha_matting_erode_size := 10 |}.

(** [files_kept Q w w']: every regular file of [w] whose name does not
    satisfy [Q] is in [w'], at the same place and with the same content. *)
Definition files_kept (Q : string -> Prop) (w w' : World) : Prop :=
  forall comps data,
    FS.lookup (fs w) comps = Some (File data) ->
    ~ Q (last comps "") ->
    FS.lookup (fs w') comps = Some (File data).

(** A name that ends with the tag of the outputs. *)
Definition tagged (name : string) : Prop :=
  exists x, name = x ++ "_sem_fundo.png".




(** The two lines of a successful run (lines 63 and 96). *)
Definition msg_processing (input_path : string) : string :=
  "🔄 Processando com qualidade: " ++ input_path ++ newline.
Definition msg_done (output_path : string) : string :=
  "✅ Salvo: " ++ output_path ++ newline.

(** ** A small concrete instance

    Stand-ins for the two libraries and a file system, used where a
    statement is evaluated on a concrete run: the decoder accepts the data
    that start with the PNG signature, the segmentation engine returns its
    input. *)

Module Demo.

Definition png_signature : list byte :=
  [x89; x50; x4e; x47; x0d; x0a; x1a; x0a].

Fixpoint has_prefix (p d : list byte) : bool :=
  match p, d with
  | [], _ => true
  | _ :: _, [] => false
  | a :: p', b :: d' => Byte.eqb a b && has_prefix p' d'
  end.

Definition decode (data : list byte) : outcome (list byte) :=
  if has_prefix png_signature data then Return data
  else Raise (LibraryError "UnidentifiedImageError"
                           "cannot identify image file").

Definition stand_ins : Libraries := {|
  image := list byte;
  import_rembg := None;
  import_PIL := None;
  PIL_open := decode;
  PIL_verify := fun _ => None;
  PIL_convert := fun img _ => Return img;
  PIL_encode := fun img _ _ => Return img;
  rembg_new_session := fun _ => None;
  rembg_remove := fun c => Return (rc_data c)
|}.

Definition decode_Exception (data : list byte)
  : fails_with_Exception (decode data) :=
  match has_prefix png_signature data as b
        return fails_with_Exception
                 (if b then Return data
                  else Raise (LibraryError "UnidentifiedImageError"
                                           "cannot identify image file"))
  with
  | true => I
  | false => eq_refl
  end.

Definition libs : Libs := {|
  libraries := stand_ins;
  import_rembg_Exception := I;
  import_PIL_Exception := I;
  PIL_open_Exception := decode_Exception;
  PIL_verify_Exception := fun _ => I;
  PIL_convert_Exception := fun _ _ => I;
  PIL_encode_Exception := fun _ _ _ => I;
  rembg_new_session_Exception := fun _ => I;
  rembg_remove_Exception := fun _ => I
|}.

(** The same libraries with an engine whose inference fails. *)
Definition libs_failing_inference : Libs := {|
  libraries := {|
    image := list byte;
    import_rembg := None;
    import_PIL := None;
    PIL_open := decode;
    PIL_verify := fun _ => None;
    PIL_convert := fun img _ => Return img;
    PIL_encode := fun img _ _ => Return img;
    rembg_new_session := fun _ => None;
    rembg_remove := fun _ =>
      Raise (LibraryError "RuntimeError" "inference failed")
  |};
  import_rembg_Exception := I;
  import_PIL_Exception := I;
  PIL_open_Exception := decode_Exception;
  PIL_verify_Exception := fun _ => I;
  PIL_convert_Exception := fun _ _ => I;
  PIL_encode_Exception := fun _ _ _ => I;
  rembg_new_session_Exception := fun _ => I;
  rembg_remove_Exception := fun _ => eq_refl
|}.


(** A file of [n >= 8] bytes that the decoder accepts, and one of [n]
    bytes that it rejects. *)
Definition png (n : nat) : list byte :=
  (png_signature ++ repeat x00 (n - 8))%list.
Definition junk (n : nat) : list byte := repeat x00 n.

Definition world_of (root : node) : World :=
  {| fs := root; cwd := ["home"; "u"]; stdout := []; remove_calls := [] |}.

Definition in_home (es : list (string * node)) : node :=
  Dir [("home", Dir [("u", Dir es)])].

(** [in/] holds two images, one of them in a subdirectory with an
    upper-case extension, a text file and a corrupt [.jpg]. *)
Definition batch_dir : node :=
  Dir [("a.png", File (png 120));
       ("b.txt", File (junk 300));
       ("sub", Dir [("IMG.PNG", File (png 200));
                    ("bad.jpg", File (junk 200))])].

Definition batch_world : World := world_of (in_home [("in", batch_dir)]).

(** A single image in the working directory. *)
Definition photo_world : World :=
  world_of (in_home [("photo.jpg", File (png 150))]).

(** An image whose name is made of dots before its extension. *)
Definition dotted_world : World :=
  world_of (in_home [("in", Dir [("..png", File (png 120))])]).



(** The batch over [in/] with the output root [out/]. *)
Definition batch_run : list invocation * World :=
  batch_trace libs "in" "out"
              (Z.of_nat (length (image_files_at batch_world "in")))
              (enumerate (image_files_at batch_world "in") 1)
              (batch_start batch_world "in").

(** The libraries on a machine where [rembg] is not installed. *)
Definition libs_without_rembg : Libs := {|
  libraries := {|
    image := list byte;
    import_rembg := Some (ImportError "No module named 'rembg'");
    import_PIL := None;
    PIL_open := decode;
    PIL_verify := fun _ => None;
    PIL_convert := fun img _ => Return img;
    PIL_encode := fun img _ _ => Return img;
    rembg_new_session := fun _ => None;
    rembg_remove := fun c => Return (rc_data c)
  |};
  import_rembg_Exception := eq_refl;
  import_PIL_Exception := I;
  PIL_open_Exception := decode_Exception;
  PIL_verify_Exception := fun _ => I;
  PIL_convert_Exception := fun _ _ => I;
  PIL_encode_Exception := fun _ _ _ => I;
  rembg_new_session_Exception := fun _ => I;
  rembg_remove_Exception := fun _ => I
|}.

(** A terminal on which [keys] are going to be typed. *)
Definition typing (keys : list key) : terminal :=
  {| pending := keys; prompts := [] |}.

End Demo.

(** * Proofs *)

Import PyStr posixpath.
Local Open Scope string_scope.
Local Open Scope Z_scope.
Local Open Scope py_scope.

(** ** Running the monad *)

Lemma bind_Return_inv {A B} (m : M A) (k : A -> M B) w b w' :
  bind m k w = (Return b, w') ->
  exists a w1, m w = (Return a, w1) /\ k a w1 = (Return b, w').
Proof.
  unfold bind. destruct (m w) as [[a|e] w1]; intro H.
  - now exists a, w1.
  - discriminate.
Qed.

Lemma bind_Raise_inv {A B} (m : M A) (k : A -> M B) w e w' :
  bind m k w = (Raise e, w') ->
  m w = (Raise e, w') \/
  exists a w1, m w = (Return a, w1) /\ k a w1 = (Raise e, w').
Proof.
  unfold bind. destruct (m w) as [[a|e0] w1]; intro H.
  - right. now exists a, w1.
  - left. injection H as -> ->. reflexivity.
Qed.

Lemma bind_run {A B} (m : M A) (k : A -> M B) w a w1 :
  m w = (Return a, w1) -> bind m k w = k a w1.
Proof. unfold bind. now intros ->. Qed.




Lemma print_run s w : print s w = (Return tt, print_text (s ++ newline) w).
Proof. reflexivity. Qed.

Lemma stat_print_text t w p : os.stat (print_text t w) p = os.stat w p.
Proof. reflexivity. Qed.

(** ** Strings and paths *)

Lemma sapp_nil_r (s : string) : s ++ "" = s.
Proof. induction s; cbn; congruence. Qed.

Lemma sapp_assoc (a b c : string) : (a ++ b) ++ c = a ++ (b ++ c).
Proof. induction a; cbn; congruence. Qed.

Lemma slength_app (a b : string) :
  String.length (a ++ b) = (String.length a + String.length b)%nat.
Proof. induction a; cbn; congruence. Qed.

Lemma len_app (a b : string) : len (a ++ b) = len a + len b.
Proof. unfold len. rewrite slength_app. lia. Qed.

Lemma len_nonneg (s : string) : 0 <= len s.
Proof. unfold len. lia. Qed.

Lemma has_char_app c a b :
  has_char c (a ++ b) = (has_char c a || has_char c b)%bool.
Proof.
  induction a as [|x a IH]; cbn; [reflexivity|].
  rewrite IH. now rewrite orb_assoc.
Qed.

Lemma rfind_from_shift c s : forall i acc,
  rfind_from c s i acc = if has_char c s then i + rfind c s else acc.
Proof.
  unfold rfind.
  induction s as [|a r IH]; intros i acc; cbn [rfind_from has_char].
  - reflexivity.
  - rewrite (IH (i + 1)), (IH (0 + 1)).
    destruct (has_char c r), (Ascii.eqb a c); cbn [orb]; lia.
Qed.

Lemma rfind_bounds c s :
  if has_char c s then 0 <= rfind c s < len s else rfind c s = -1.
Proof.
  induction s as [|a r IH]; [reflexivity|].
  unfold rfind. cbn [rfind_from has_char]. rewrite rfind_from_shift.
  unfold len in *. cbn [String.length].
  destruct (has_char c r), (Ascii.eqb a c); cbn [orb]; lia.
Qed.

Lemma rfind_absent c s : has_char c s = false -> rfind c s = -1.
Proof. intro H. generalize (rfind_bounds c s). now rewrite H. Qed.

Lemma rfind_absent_iff c s : rfind c s = -1 <-> has_char c s = false.
Proof.
  split; [|apply rfind_absent].
  generalize (rfind_bounds c s). destruct (has_char c s); [lia|reflexivity].
Qed.

Lemma rfind_app c a b :
  rfind c (a ++ b) = if has_char c b then len a + rfind c b else rfind c a.
Proof.
  induction a as [|x a IH].
  - cbn [append]. unfold len. cbn.
    generalize (rfind_bounds c b). destruct (has_char c b); [lia|].
    intros ->. reflexivity.
  - unfold rfind at 1 3. cbn [append rfind_from].
    rewrite !rfind_from_shift, IH, has_char_app.
    unfold len. cbn [String.length].
    generalize (rfind_bounds c a).
    destruct (has_char c a), (has_char c b), (Ascii.eqb x c); cbn [orb]; lia.
Qed.

Lemma drop_app_length a b k :
  drop (String.length a + k) (a ++ b) = drop k b.
Proof. induction a; cbn; auto. Qed.

Lemma take_app_length a b k :
  take (String.length a + k) (a ++ b) = a ++ take k b.
Proof. induction a; cbn; congruence. Qed.

Lemma slice_from_app a b k :
  0 <= k -> slice_from (a ++ b) (len a + k) = slice_from b k.
Proof.
  intro H. unfold slice_from, len.
  replace (Z.to_nat (Z.of_nat (String.length a) + k))
    with (String.length a + Z.to_nat k)%nat by lia.
  apply drop_app_length.
Qed.

Lemma slice_to_app a b k :
  0 <= k -> slice_to (a ++ b) (len a + k) = a ++ slice_to b k.
Proof.
  intro H. unfold slice_to, len.
  replace (Z.to_nat (Z.of_nat (String.length a) + k))
    with (String.length a + Z.to_nat k)%nat by lia.
  apply take_app_length.
Qed.

Lemma last_char_app a x b :
  last_char (a ++ String x b) = last_char (String x b).
Proof.
  induction a as [|y a IH]; [reflexivity|].
  cbn [append]. change (last_char (String y (a ++ String x b)))
    with (match a ++ String x b with
          | EmptyString => Some y
          | _ => last_char (a ++ String x b)
          end).
  rewrite IH. destruct a; reflexivity.
Qed.

Lemma endswith_sep_rfind x :
  endswith_sep x = true -> rfind sep x = len x - 1.
Proof.
  unfold endswith_sep.
  induction x as [|a r IH]; [discriminate|].
  destruct r as [|b r'].
  - cbn. destruct (Ascii.eqb a sep); [reflexivity|discriminate].
  - change (last_char (String a (String b r'))) with (last_char (String b r')).
    intro H. specialize (IH H).
    change (String a (String b r')) with (String a "" ++ String b r').
    rewrite rfind_app, len_app, IH.
    generalize (rfind_bounds sep (String b r')).
    destruct (has_char sep (String b r')); [lia|].
    intro Hm. rewrite Hm in IH. unfold len in IH. cbn [String.length] in IH. lia.
Qed.

Lemma dir_like_rfind x : dir_like x -> rfind sep x = len x - 1.
Proof.
  intros [->|H]; [reflexivity|]. now apply endswith_sep_rfind.
Qed.

Lemma rfind_lt_len c s : rfind c s < len s.
Proof.
  generalize (rfind_bounds c s) (len_nonneg s).
  destruct (has_char c s); lia.
Qed.

Lemma valid_name_spec s :
  valid_name s = true <->
  s <> "" /\ s <> "." /\ s <> ".." /\ has_char sep s = false.
Proof.
  unfold valid_name. rewrite !andb_true_iff, !negb_true_iff, !String.eqb_neq.
  rewrite Z.eqb_eq, rfind_absent_iff. tauto.
Qed.

Lemma valid_name_plain s : valid_name s = true -> plain s.
Proof. rewrite valid_name_spec. unfold plain. tauto. Qed.

Lemma splitext_scan_app X f d n : forall j,
  0 <= j -> 0 <= d ->
  splitext_scan (X ++ f) (len X + d) (len X + j) n
  = (X ++ fst (splitext_scan f d j n), snd (splitext_scan f d j n)).
Proof.
  induction n as [|n IH]; intros j Hj Hd; cbn [splitext_scan].
  - reflexivity.
  - rewrite slice_from_app by assumption.
    destruct (String.eqb (take 1 (slice_from f j)) ".").
    + rewrite <- Z.add_assoc. apply IH; lia.
    + rewrite slice_to_app, slice_from_app by assumption. reflexivity.
Qed.

Lemma splitext_app X f :
  dir_like X -> has_char sep f = false ->
  splitext (X ++ f) = (X ++ fst (splitext f), snd (splitext f)).
Proof.
  intros HX Hf. unfold splitext.
  rewrite !rfind_app, Hf, (dir_like_rfind X HX), (rfind_absent sep f Hf).
  generalize (rfind_bounds extsep f) (rfind_lt_len extsep X).
  destruct (has_char extsep f); intros Hd HdX.
  - replace (len X - 1 <? len X + rfind extsep f) with true
      by (symmetry; apply Z.ltb_lt; lia).
    replace (-1 <? rfind extsep f) with true
      by (symmetry; apply Z.ltb_lt; lia).
    replace (len X - 1 + 1) with (len X + 0) by lia.
    replace (len X + rfind extsep f - (len X + 0))
      with (rfind extsep f - (-1 + 1)) by lia.
    change (-1 + 1) with 0.
    apply splitext_scan_app; lia.
  - rewrite Hd.
    replace (len X - 1 <? rfind extsep X) with false
      by (symmetry; apply Z.ltb_ge; lia).
    reflexivity.
Qed.

Lemma has_char_take c n s :
  has_char c (take n s) = true -> has_char c s = true.
Proof.
  revert s. induction n as [|n IH]; intros [|a r]; cbn; try discriminate.
  destruct (Ascii.eqb a c); cbn; [reflexivity|]. apply IH.
Qed.

Lemma splitext_scan_fst p d j n :
  fst (splitext_scan p d j n) = p \/ fst (splitext_scan p d j n) = slice_to p d.
Proof.
  revert j. induction n as [|n IH]; intro j; cbn [splitext_scan].
  - now left.
  - destruct (String.eqb _ "."); [apply IH | now right].
Qed.

Lemma stem_no_sep f : has_char sep f = false -> has_char sep (stem f) = false.
Proof.
  intro Hf. unfold stem, splitext.
  destruct (rfind sep f <? rfind extsep f); [|exact Hf].
  destruct (splitext_scan_fst f (rfind extsep f) (rfind sep f + 1)
              (Z.to_nat (rfind extsep f - (rfind sep f + 1)))) as [-> | ->].
  - exact Hf.
  - destruct (has_char sep (slice_to f (rfind extsep f))) eqn:E; [|reflexivity].
    apply has_char_take in E. congruence.
Qed.

(** *** join *)

Lemma startswith_sep_plain b : has_char sep b = false -> startswith b "/" = false.
Proof.
  destruct b as [|a r]; [reflexivity|]. cbn.
  destruct (Ascii.eqb a sep) eqn:E.
  - discriminate.
  - intros _. change (Ascii.eqb a "/") with (Ascii.eqb a sep). now rewrite E.
Qed.

Lemma join_rel a b : startswith b "/" = false -> join a b = dirpart a ++ b.
Proof.
  intro H. unfold join, dirpart. rewrite H.
  destruct (String.eqb a "" || endswith_sep a)%bool; [reflexivity|].
  now rewrite sapp_assoc.
Qed.

Lemma endswith_sep_snoc a : endswith_sep (a ++ String sep "") = true.
Proof. unfold endswith_sep. rewrite last_char_app. reflexivity. Qed.

Lemma dirpart_dir_like a : dir_like (dirpart a).
Proof.
  unfold dirpart, dir_like.
  destruct (String.eqb_spec a "") as [->|Hne]; [now left|].
  cbn [orb]. destruct (endswith_sep a) eqn:E; [now right|].
  right. apply endswith_sep_snoc.
Qed.

Lemma last_char_plain x : plain x -> exists c, last_char x = Some c /\ c <> sep.
Proof.
  intros [Hne Hs]. induction x as [|a r IH]; [congruence|].
  cbn in Hs. apply orb_false_iff in Hs. destruct Hs as [Ha Hr].
  destruct r as [|b r'].
  - exists a. split; [reflexivity|]. now apply Ascii.eqb_neq.
  - apply IH; [discriminate | exact Hr].
Qed.

Lemma append_nonempty_r a x : x <> "" -> a ++ x <> "".
Proof. destruct a, x; cbn; congruence. Qed.

Lemma endswith_sep_app_plain a x : plain x -> endswith_sep (a ++ x) = false.
Proof.
  intro H. destruct (last_char_plain x H) as (c & Hc & Hne).
  unfold endswith_sep. destruct x as [|y r]; [destruct H; congruence|].
  rewrite last_char_app, Hc. now apply Ascii.eqb_neq.
Qed.

Lemma dirpart_app_plain a x :
  plain x -> dirpart (a ++ x) = a ++ x ++ String sep "".
Proof.
  intro H. unfold dirpart.
  rewrite (endswith_sep_app_plain a x H).
  destruct (String.eqb_spec (a ++ x) "") as [E|_].
  - exfalso. revert E. apply append_nonempty_r. apply H.
  - cbn [orb]. apply sapp_assoc.
Qed.

Lemma join_sep_cons x l :
  l <> [] -> join_sep (x :: l) = x ++ String sep (join_sep l).
Proof. destruct l; [congruence | reflexivity]. Qed.

Lemma join_all_plain names : forall top,
  names <> [] -> Forall plain names ->
  join_all top names = dirpart top ++ join_sep names.
Proof.
  unfold join_all.
  induction names as [|x l IH]; intros top Hne HF; [congruence|].
  inversion HF as [|? ? Hx Hl]; subst.
  cbn [fold_left].
  rewrite (join_rel top x) by (apply startswith_sep_plain, Hx).
  destruct l as [|y r].
  - reflexivity.
  - rewrite IH by (discriminate || assumption).
    rewrite dirpart_app_plain by assumption.
    rewrite (join_sep_cons x (y :: r)) by discriminate.
    now rewrite !sapp_assoc.
Qed.

Lemma join_sep_snoc ds f : join_sep (ds ++ [f]) = dirs_prefix ds ++ f.
Proof.
  induction ds as [|d r IH]; [reflexivity|].
  cbn [app dirs_prefix]. rewrite join_sep_cons by (destruct r; discriminate).
  rewrite IH. now rewrite sapp_assoc.
Qed.

Lemma dir_like_app_dirs a ds : dir_like a -> dir_like (a ++ dirs_prefix ds).
Proof.
  intro Ha. induction ds as [|d r IH] using rev_ind.
  - cbn. now rewrite sapp_nil_r.
  - right.
    assert (E : dirs_prefix (r ++ [d]) = dirs_prefix r ++ d ++ String sep "").
    { clear. induction r as [|x r IH]; cbn; [reflexivity|].
      rewrite IH. now rewrite !sapp_assoc. }
    rewrite E, <- !sapp_assoc. apply endswith_sep_snoc.
Qed.

(** The path that [join] builds for a file is a directory-like front
    followed by the name of the file. *)
Lemma join_all_file a ds f :
  Forall plain ds -> plain f ->
  join_all a (ds ++ [f]) = (dirpart a ++ dirs_prefix ds) ++ f.
Proof.
  intros Hds Hf. rewrite join_all_plain.
  - now rewrite join_sep_snoc, sapp_assoc.
  - destruct ds; discriminate.
  - apply Forall_app. split; [assumption | now constructor].
Qed.

Lemma plain_stem_sfx f : plain f -> plain (stem f ++ sfx).
Proof.
  intros [_ Hf]. split.
  - apply append_nonempty_r. discriminate.
  - rewrite has_char_app, (stem_no_sep f Hf). reflexivity.
Qed.

(** Lines 130-131 on the relative path of a file. *)
Lemma output_of_relative_path out ds f :
  Forall plain ds -> plain f ->
  fst (splitext (join out (join_sep (ds ++ [f])))) ++ sfx
  = mirrored_output out ds f.
Proof.
  intros Hds Hf. unfold mirrored_output.
  fold sfx.
  rewrite (join_all_file out ds (stem f ++ sfx) Hds (plain_stem_sfx f Hf)).
  rewrite join_rel.
  - rewrite join_sep_snoc, <- sapp_assoc.
    rewrite splitext_app.
    + cbn [fst]. now rewrite !sapp_assoc.
    + apply dir_like_app_dirs, dirpart_dir_like.
    + apply Hf.
  - rewrite join_sep_snoc.
    destruct ds as [|d r]; cbn [dirs_prefix append].
    + apply startswith_sep_plain, Hf.
    + inversion Hds; subst.
      destruct d as [|c d']; [destruct H1; congruence|].
      cbn. destruct H1 as [_ H1]. cbn in H1.
      apply orb_false_iff in H1. destruct H1 as [H1 _].
      change (Ascii.eqb c "/") with (Ascii.eqb c sep). now rewrite H1.
Qed.

(** *** split and normpath *)

Lemma split_sep_nonempty s : split_sep s <> [].
Proof.
  destruct s as [|a r]; cbn; [discriminate|].
  destruct (Ascii.eqb a sep); [discriminate|].
  destruct (split_sep r); discriminate.
Qed.

Lemma split_sep_app_sep a b :
  split_sep (a ++ String sep b) = (split_sep a ++ split_sep b)%list.
Proof.
  induction a as [|x a IH]; cbn [append split_sep].
  - now rewrite Ascii.eqb_refl.
  - rewrite IH. destruct (Ascii.eqb x sep); [reflexivity|].
    generalize (split_sep_nonempty a).
    destruct (split_sep a); [congruence|reflexivity].
Qed.

Lemma split_sep_plain s : has_char sep s = false -> split_sep s = [s].
Proof.
  induction s as [|a r IH]; [reflexivity|]. cbn.
  destruct (Ascii.eqb a sep); [discriminate|]. cbn.
  intro H. now rewrite IH.
Qed.

Lemma split_sep_join_sep l :
  l <> [] -> Forall plain l -> split_sep (join_sep l) = l.
Proof.
  induction l as [|x l IH]; intros Hne HF; [congruence|].
  inversion HF as [|? ? Hx Hl]; subst.
  destruct l as [|y r].
  - cbn. apply split_sep_plain, Hx.
  - rewrite (join_sep_cons x (y :: r)) by discriminate.
    rewrite split_sep_app_sep, IH by (discriminate || assumption).
    now rewrite (split_sep_plain x) by apply Hx.
Qed.

Lemma split_sep_no_sep s :
  Forall (fun c => has_char sep c = false) (split_sep s).
Proof.
  induction s as [|a r IH]; cbn.
  - now constructor.
  - destruct (Ascii.eqb a sep) eqn:E; [now constructor|].
    destruct (split_sep r) as [|w ws]; [now repeat constructor; cbn; rewrite E|].
    inversion IH; subst. constructor; [|assumption].
    cbn. now rewrite E.
Qed.

Lemma norm_step_empty ini acc : norm_step ini acc "" = acc.
Proof. reflexivity. Qed.

Lemma norm_step_valid ini acc x :
  valid_name x = true -> norm_step ini acc x = (acc ++ [x])%list.
Proof.
  rewrite valid_name_spec. intros (H1 & H2 & H3 & _).
  unfold norm_step.
  apply String.eqb_neq in H1, H2, H3. now rewrite H1, H2, H3.
Qed.

Lemma fold_norm_step_valid ini names : forall acc,
  Forall (fun x => valid_name x = true) names ->
  fold_left (norm_step ini) names acc = (acc ++ names)%list.
Proof.
  induction names as [|x l IH]; intros acc HF; cbn [fold_left].
  - now rewrite app_nil_r.
  - inversion HF; subst.
    rewrite norm_step_valid, IH by assumption.
    now rewrite <- app_assoc.
Qed.

Lemma Forall_removelast {A} (P : A -> Prop) l :
  Forall P l -> Forall P (removelast l).
Proof.
  induction l as [|a l IH]; cbn; [auto|].
  intro H. inversion H; subst. destruct l; [constructor|].
  constructor; auto.
Qed.

Lemma norm_step_plain ini acc c :
  Forall plain acc -> has_char sep c = false ->
  Forall plain (norm_step ini acc c).
Proof.
  intros Hacc Hc. unfold norm_step.
  destruct (String.eqb_spec c "") as [->|Hne]; cbn [orb]; [assumption|].
  destruct (String.eqb c "."); [assumption|].
  match goal with |- Forall _ (if ?b then _ else _) => destruct b end.
  - apply Forall_app. split; [assumption|]. constructor; [|constructor].
    now split.
  - now apply Forall_removelast.
Qed.

Lemma fold_norm_step_plain ini comps : forall acc,
  Forall plain acc -> Forall (fun c => has_char sep c = false) comps ->
  Forall plain (fold_left (norm_step ini) comps acc).
Proof.
  induction comps as [|c l IH]; intros acc Hacc HF; cbn [fold_left].
  - assumption.
  - inversion HF; subst. apply IH; [|assumption].
    now apply norm_step_plain.
Qed.

Lemma norm_comps_plain p : Forall plain (norm_comps p).
Proof.
  apply fold_norm_step_plain; [constructor | apply split_sep_no_sep].
Qed.

Lemma endswith_sep_cons a y :
  y <> "" -> endswith_sep (String a y) = endswith_sep y.
Proof. destruct y; [congruence | reflexivity]. Qed.

Lemma dirpart_cons a y :
  y <> "" -> dirpart (String a y) = String a (dirpart y).
Proof.
  intro H. unfold dirpart. rewrite endswith_sep_cons by assumption.
  destruct y as [|b y']; [congruence|]. cbn [String.eqb orb].
  destruct (endswith_sep (String b y')); reflexivity.
Qed.

Lemma dirpart_app_nonempty a x : x <> "" -> dirpart (a ++ x) = a ++ dirpart x.
Proof.
  intro H. induction a as [|c a IH]; [reflexivity|].
  cbn [append]. rewrite dirpart_cons, IH; [reflexivity|].
  now apply append_nonempty_r.
Qed.

Lemma startswith_seps_dirpart n : forall y r,
  y <> "" -> startswith r "/" = false ->
  startswith (dirpart y ++ r) (seps n) = startswith y (seps n).
Proof.
  induction n as [|m IH]; intros y r Hy Hr; [reflexivity|].
  destruct y as [|a y1]; [congruence|].
  destruct y1 as [|b y2].
  - unfold dirpart. cbn [String.eqb orb endswith_sep last_char].
    destruct (Ascii.eqb a sep) eqn:E; cbn [append seps startswith];
      rewrite E; cbn [andb]; [|reflexivity].
    destruct m; [reflexivity|].
    cbn [seps]. destruct r as [|c r']; [reflexivity|].
    cbn in Hr |- *. apply andb_false_iff in Hr.
    destruct Hr as [Hr|Hr]; [|discriminate].
    change (Ascii.eqb c sep) with (Ascii.eqb c "/"). now rewrite Hr.
  - rewrite dirpart_cons by discriminate.
    cbn [append seps startswith]. f_equal.
    apply IH; [discriminate | assumption].
Qed.

Lemma initial_slashes_dirpart y r :
  y <> "" -> startswith r "/" = false ->
  initial_slashes (dirpart y ++ r) = initial_slashes y.
Proof.
  intros Hy Hr. unfold initial_slashes.
  change "///" with (seps 3). change "//" with (seps 2).
  change "/" with (seps 1).
  now rewrite !startswith_seps_dirpart by assumption.
Qed.

Lemma endswith_sep_inv y :
  endswith_sep y = true -> exists y0, y = y0 ++ String sep "".
Proof.
  unfold endswith_sep. induction y as [|a r IH]; [discriminate|].
  destruct r as [|b r'].
  - cbn. intro H. apply Ascii.eqb_eq in H. subst. now exists "".
  - intro H. destruct (IH H) as (y0 & E). exists (String a y0).
    cbn [append]. now rewrite <- E.
Qed.

Lemma fold_norm_dirpart ini y r :
  y <> "" ->
  fold_left (norm_step ini) (split_sep (dirpart y ++ r)) []
  = fold_left (norm_step ini) (split_sep r)
              (fold_left (norm_step ini) (split_sep y) []).
Proof.
  intro Hy. unfold dirpart.
  apply String.eqb_neq in Hy. rewrite Hy. cbn [orb].
  destruct (endswith_sep y) eqn:E.
  - destruct (endswith_sep_inv y E) as (y0 & ->).
    rewrite sapp_assoc. cbn [append].
    rewrite !split_sep_app_sep, !fold_left_app. reflexivity.
  - rewrite sapp_assoc. cbn [append].
    now rewrite split_sep_app_sep, fold_left_app.
Qed.

Lemma nonempty_comps_seps k s :
  nonempty_comps (seps k ++ s) = nonempty_comps s.
Proof.
  induction k as [|k IH]; [reflexivity|].
  unfold nonempty_comps in *. cbn [seps append split_sep].
  rewrite Ascii.eqb_refl. cbn [filter String.eqb negb]. exact IH.
Qed.

Lemma filter_nonempty_plain l :
  Forall plain l -> filter (fun x => negb (String.eqb x "")) l = l.
Proof.
  induction 1 as [|x l [Hx _] _ IH]; [reflexivity|].
  cbn. apply String.eqb_neq in Hx. rewrite Hx. cbn. now rewrite IH.
Qed.

Lemma nonempty_comps_join_sep cs :
  Forall plain cs -> nonempty_comps (join_sep cs) = cs.
Proof.
  intro H. unfold nonempty_comps. destruct cs as [|c l]; [reflexivity|].
  rewrite split_sep_join_sep by (discriminate || assumption).
  now apply filter_nonempty_plain.
Qed.

Lemma seps_join_nonempty k s : (0 < k)%nat -> seps k ++ s <> "".
Proof. destruct k; [lia | discriminate]. Qed.

Lemma initial_slashes_abs y : startswith y "/" = true -> (0 < initial_slashes y)%nat.
Proof.
  intro H. unfold initial_slashes. rewrite H.
  destruct (_ && _)%bool; lia.
Qed.

(** The components of [normpath(y)] for an absolute [y]. *)
Lemma nonempty_comps_normpath y :
  startswith y "/" = true ->
  nonempty_comps (normpath y) = norm_comps y.
Proof.
  intro H. unfold normpath.
  destruct (String.eqb_spec y "") as [->|_]; [discriminate|].
  pose proof (initial_slashes_abs y H) as Hk.
  destruct (String.eqb_spec (seps (initial_slashes y) ++ join_sep (norm_comps y)) "")
    as [E|_].
  - exfalso. revert E. now apply seps_join_nonempty.
  - rewrite nonempty_comps_seps. apply nonempty_comps_join_sep, norm_comps_plain.
Qed.

Lemma join_sep_starts_plain names :
  Forall plain names -> startswith (join_sep names) "/" = false.
Proof.
  intros H. destruct names as [|x l]; [reflexivity|].
  inversion H as [|? ? [Hne Hs] _]; subst.
  destruct x as [|c x']; [congruence|].
  cbn in Hs. apply orb_false_iff in Hs. destruct Hs as [Hc _].
  assert (E : startswith (String c x' ++ String sep (join_sep l)) "/" = false).
  { cbn. change (Ascii.eqb c "/") with (Ascii.eqb c sep). now rewrite Hc. }
  destruct l; [|exact E].
  cbn. change (Ascii.eqb c "/") with (Ascii.eqb c sep). now rewrite Hc.
Qed.

Lemma startswith_dirpart_app y r :
  startswith y "/" = true -> startswith (dirpart y ++ r) "/" = true.
Proof.
  destruct y as [|a y']; [discriminate|].
  unfold dirpart. destruct (_ || _)%bool; cbn; destruct (Ascii.eqb a "/");
    cbn; congruence.
Qed.

Lemma Forall_valid_plain names :
  Forall (fun x => valid_name x = true) names -> Forall plain names.
Proof. apply Forall_impl. intro a. apply valid_name_plain. Qed.

Lemma norm_extend y names :
  startswith y "/" = true ->
  Forall (fun x => valid_name x = true) names -> names <> [] ->
  nonempty_comps (normpath (dirpart y ++ join_sep names))
  = (nonempty_comps (normpath y) ++ names)%list.
Proof.
  intros Hy Hv Hne.
  assert (Hy0 : y <> "") by (intros ->; discriminate).
  pose proof (Forall_valid_plain names Hv) as Hp.
  rewrite !nonempty_comps_normpath
    by (assumption || now apply startswith_dirpart_app).
  unfold norm_comps.
  rewrite initial_slashes_dirpart
    by (assumption || now apply join_sep_starts_plain).
  rewrite fold_norm_dirpart by assumption.
  rewrite split_sep_join_sep by assumption.
  now apply fold_norm_step_valid.
Qed.

Lemma common_len_app l r : common_len l (l ++ r) = length l.
Proof.
  induction l as [|a l IH]; cbn; [now destruct r|].
  now rewrite String.eqb_refl, IH.
Qed.

Lemma skipn_app_length {A} (l r : list A) : skipn (length l) (l ++ r) = r.
Proof. induction l; cbn; auto. Qed.

Lemma join_all_names a p :
  Forall plain (a :: p) -> join_all a p = join_sep (a :: p).
Proof.
  intro H. inversion H; subst. destruct p as [|b p']; [reflexivity|].
  rewrite join_all_plain by (discriminate || assumption).
  rewrite (join_sep_cons a (b :: p')) by discriminate.
  change a with ("" ++ a) at 1. rewrite dirpart_app_plain by assumption.
  cbn [append]. now rewrite sapp_assoc.
Qed.

Lemma join_sep_nonempty names :
  names <> [] -> Forall plain names -> join_sep names <> "".
Proof.
  intros Hne H. destruct names as [|x l]; [congruence|].
  inversion H as [|? ? [Hx _] _]; subst.
  destruct l; cbn; [assumption|]. destruct x; [congruence | discriminate].
Qed.

Lemma isabs_dirpart_app top r :
  top <> "" -> isabs (dirpart top ++ r) = isabs top.
Proof.
  destruct top as [|a t]; [congruence|]. intros _.
  unfold isabs, dirpart. destruct (_ || _)%bool; reflexivity.
Qed.

(** [relpath] gives back the names that [os.walk] joined to its top. *)
Lemma relpath_walked cwd top names :
  startswith cwd "/" = true -> top <> "" -> names <> [] ->
  Forall (fun x => valid_name x = true) names ->
  relpath cwd (join_all top names) top = Some (join_sep names).
Proof.
  intros Hcwd Htop Hne Hv.
  pose proof (Forall_valid_plain names Hv) as Hp.
  unfold relpath. rewrite join_all_plain by assumption.
  destruct (String.eqb_spec (dirpart top ++ join_sep names) "") as [E|_].
  { exfalso. revert E. apply append_nonempty_r. now apply join_sep_nonempty. }
  assert (Habs : exists y,
             startswith y "/" = true /\
             abspath cwd top = normpath y /\
             abspath cwd (dirpart top ++ join_sep names)
             = normpath (dirpart y ++ join_sep names)).
  { unfold abspath. rewrite isabs_dirpart_app by assumption.
    destruct (isabs top) eqn:Ha.
    - exists top. repeat split. exact Ha.
    - exists (join cwd top).
      rewrite !join_rel
        by (try exact Ha;
            rewrite <- (isabs_dirpart_app top (join_sep names)) in Ha
              by assumption; exact Ha).
      repeat split.
      + now apply startswith_dirpart_app.
      + rewrite dirpart_app_nonempty by assumption.
        now rewrite sapp_assoc. }
  destruct Habs as (y & Hy & -> & ->).
  rewrite norm_extend by assumption.
  rewrite common_len_app, Nat.sub_diag, skipn_app_length. cbn [repeat app].
  destruct names as [|a p]; [congruence|].
  now rewrite join_all_names.
Qed.

Lemma take_drop n : forall s, take n s ++ drop n s = s.
Proof.
  induction n as [|n IH]; intros [|a r]; cbn; try reflexivity.
  now rewrite IH.
Qed.

(** [root + ext == p], as the documentation of [splitext] promises. *)
Lemma splitext_concat p : fst (splitext p) ++ snd (splitext p) = p.
Proof.
  unfold splitext. destruct (rfind sep p <? rfind extsep p); [|apply sapp_nil_r].
  generalize (Z.to_nat (rfind extsep p - (rfind sep p + 1))).
  generalize (rfind sep p + 1). intros j n. revert j.
  induction n as [|n IH]; intro j; cbn [splitext_scan].
  - apply sapp_nil_r.
  - destruct (String.eqb _ "."); [apply IH|].
    cbn [fst snd]. apply take_drop.
Qed.

Example stems :
  stem "a.png" = "a" /\ stem "IMG.PNG" = "IMG" /\
  stem "archive.tar.webp" = "archive.tar" /\
  stem "..png" = "..png" /\ is_supported "..png" = true.
Proof. vm_compute. repeat split. Qed.

(** *** The recursion of [os.makedirs] *)

Lemma slength_take_le n : forall s,
  (String.length (take n s) <= n)%nat /\
  (String.length (take n s) <= String.length s)%nat.
Proof.
  induction n as [|n IH]; intros [|a r]; cbn; try lia.
  destruct (IH r). lia.
Qed.

Lemma slength_rstrip_le s :
  (String.length (rstrip_sep s) <= String.length s)%nat.
Proof.
  induction s as [|a r IH]; cbn; [lia|].
  destruct (rstrip_sep r); [destruct (Ascii.eqb a sep)|]; cbn in *; lia.
Qed.

Lemma drop_nonempty n : forall s, drop n s <> "" -> (n < String.length s)%nat.
Proof.
  induction n as [|n IH]; intros [|a r]; cbn; try congruence; try lia.
  intro H. apply IH in H. lia.
Qed.

Lemma split_head_le p :
  (String.length (fst (split p)) <= String.length p)%nat.
Proof.
  unfold split. cbn [fst].
  destruct (slength_take_le (Z.to_nat (rfind sep p + 1)) p) as [_ H].
  destruct (_ && _)%bool; [|exact H].
  pose proof (slength_rstrip_le (slice_to p (rfind sep p + 1))).
  unfold slice_to in *. lia.
Qed.

Lemma split_head_lt p :
  snd (split p) <> "" ->
  (String.length (fst (split p)) < String.length p)%nat.
Proof.
  unfold split. cbn [fst snd]. intro H. apply drop_nonempty in H.
  destruct (slength_take_le (Z.to_nat (rfind sep p + 1)) p) as [H1 _].
  destruct (_ && _)%bool; [|unfold slice_to; lia].
  pose proof (slength_rstrip_le (slice_to p (rfind sep p + 1))).
  unfold slice_to in *. lia.
Qed.

(** The body of [os.makedirs] calls [makedirs] on strictly shorter names
    only. *)
Lemma makedirs_body_ext (rec1 rec2 : string -> M unit) name ok w :
  (forall h w', (String.length h < String.length name)%nat ->
                rec1 h w' = rec2 h w') ->
  os.makedirs_body rec1 name ok w = os.makedirs_body rec2 name ok w.
Proof.
  intro Hrec. unfold os.makedirs_body.
  pose proof (split_head_le name) as Hle.
  pose proof (split_head_lt name) as Hlt.
  destruct (split name) as [h1 t1]. cbn [fst snd] in *.
  pose proof (split_head_lt h1) as Hlt2.
  assert (Hshort : forall h t,
             (if String.eqb t1 "" then split h1 else (h1, t1)) = (h, t) ->
             t <> "" -> (String.length h < String.length name)%nat).
  { intros h t E Ht. destruct (String.eqb_spec t1 "") as [->|Hne].
    - rewrite E in Hlt2. cbn [fst snd] in Hlt2. specialize (Hlt2 Ht). lia.
    - injection E as <- <-. auto. }
  destruct (if String.eqb t1 "" then split h1 else (h1, t1)) as [h t].
  specialize (Hshort h t eq_refl).
  destruct (negb (String.eqb h "") && negb (String.eqb t ""))%bool eqn:Ec;
    [|reflexivity].
  apply andb_true_iff in Ec. destruct Ec as [_ Ec].
  apply negb_true_iff, String.eqb_neq in Ec. specialize (Hshort Ec).
  unfold bind, os.path_exists.
  destruct (os.stat w h); cbn [negb]; unfold ret; [|reflexivity].
  unfold try_except. now rewrite Hrec.
Qed.

(** So the fuel of [os.makedirs] is never used up: more fuel changes
    nothing. *)
Lemma makedirs_rec_fuel ok fuel : forall fuel' name w,
  (String.length name < fuel)%nat -> (String.length name < fuel')%nat ->
  os.makedirs_rec fuel name ok w = os.makedirs_rec fuel' name ok w.
Proof.
  induction fuel as [|k IH]; intros fuel' name w Hk Hk'; [lia|].
  destruct fuel' as [|k']; [lia|].
  cbn [os.makedirs_rec]. apply makedirs_body_ext.
  intros h w' Hh. apply IH; lia.
Qed.

Lemma makedirs_fuel_enough name ok fuel w :
  (String.length name < fuel)%nat ->
  os.makedirs_rec fuel name ok w = os.makedirs name ok w.
Proof.
  intro H. unfold os.makedirs. apply makedirs_rec_fuel; lia.
Qed.


(** ** The directory tree *)

Lemma node_induction (P : node -> Prop) :
  (forall data, P (File data)) ->
  (forall es, Forall (fun e => P (snd e)) es -> P (Dir es)) ->
  forall n, P n.
Proof.
  intros HF HD. fix IH 1. intros [data|es].
  - apply HF.
  - apply HD. induction es as [|e r IHr]; constructor.
    + apply IH.
    + exact IHr.
Qed.

Lemma walk_Dir top es :
  FS.walk top (Dir es)
  = (top, FS.dirnames es, FS.filenames es) :: flat_map (walk_child top) es.
Proof.
  cbn [FS.walk]. f_equal.
  induction es as [|[name ch] r IH]; [reflexivity|].
  cbn [flat_map]. rewrite <- IH. unfold walk_child. cbn [fst snd].
  destruct ch; reflexivity.
Qed.

Lemma collect_app l1 l2 :
  collect_image_files (l1 ++ l2)
  = (collect_image_files l1 ++ collect_image_files l2)%list.
Proof. unfold collect_image_files. apply flat_map_app. Qed.

Lemma in_collect_flat_map {A} (g : A -> list (string * list string * list string))
      (l : list A) x :
  In x (collect_image_files (flat_map g l)) <->
  exists e, In e l /\ In x (collect_image_files (g e)).
Proof.
  induction l as [|a l IH]; cbn [flat_map].
  - split; [intros [] | intros (e & [] & _)].
  - rewrite collect_app, in_app_iff, IH. split.
    + intros [H|(e & He & H)]; [exists a | exists e]; cbn; auto.
    + intros (e & [<-|He] & H); [now left | right; now exists e].
Qed.

Lemma in_filenames f es :
  In f (FS.filenames es) <-> exists data, In (f, File data) es.
Proof.
  unfold FS.filenames. rewrite in_map_iff. split.
  - intros ([name ch] & <- & H). apply filter_In in H. destruct H as [H Hk].
    cbn in Hk. destruct ch as [data|]; [|discriminate]. now exists data.
  - intros (data & H). exists (f, File data). split; [reflexivity|].
    apply filter_In. now split.
Qed.

Lemma descends_File_inv data p n' :
  descends (File data) p n' -> p = [] /\ n' = File data.
Proof. inversion 1; subst. now split. Qed.

Lemma image_files_spec n : forall top x,
  In x (collect_image_files (FS.walk top n)) <->
  exists ds f, file_under n ds f /\ is_supported f = true /\
               x = walked_path top ds f.
Proof.
  induction n as [data|es IH] using node_induction; intros top x.
  - split; [intros [] |].
    intros (ds & f & (d & H) & _). apply descends_File_inv in H.
    destruct H as [H _]. destruct ds; discriminate.
  - rewrite walk_Dir.
    change (collect_image_files ((top, FS.dirnames es, FS.filenames es)
                                   :: flat_map (walk_child top) es))
      with (map (posixpath.join top) (filter is_supported (FS.filenames es))
            ++ collect_image_files (flat_map (walk_child top) es))%list.
    rewrite in_app_iff, in_map_iff, in_collect_flat_map. split.
    + intros [(f & <- & Hf) | ([name ch] & He & Hx)].
      * apply filter_In in Hf. destruct Hf as [Hf Hs].
        apply in_filenames in Hf. destruct Hf as (data & Hf).
        exists [], f. repeat split; [|assumption].
        exists data. cbn. econstructor; [eassumption | constructor].
      * unfold walk_child in Hx. cbn [fst snd] in Hx.
        destruct ch as [|es']; [destruct Hx|].
        rewrite Forall_forall in IH. specialize (IH _ He). cbn [snd] in IH.
        apply IH in Hx. destruct Hx as (ds & f & (data & Hd) & Hs & ->).
        exists (name :: ds), f. repeat split; [|assumption].
        exists data. cbn. econstructor; eassumption.
    + intros (ds & f & (data & Hd) & Hs & ->).
      destruct ds as [|d ds']; cbn [app] in Hd.
      * inversion Hd as [|es0 name ch p n' Hin Hrest]; subst.
        inversion Hrest; subst. left. exists f. split; [reflexivity|].
        apply filter_In. split; [|assumption].
        apply in_filenames. now exists data.
      * inversion Hd as [|es0 name ch p n' Hin Hrest]; subst.
        right. exists (d, ch). split; [assumption|].
        unfold walk_child. cbn [fst snd].
        destruct ch as [data'|es'].
        { apply descends_File_inv in Hrest. destruct Hrest as [H _].
          destruct ds'; discriminate. }
        rewrite Forall_forall in IH. specialize (IH _ Hin). cbn [snd] in IH.
        apply IH. exists ds', f. repeat split; [|assumption].
        now exists data.
Qed.

Lemma valid_names_Dir es :
  valid_names (Dir es) = true <->
  Forall (fun e => valid_name (fst e) = true /\ valid_names (snd e) = true) es.
Proof.
  cbn [valid_names].
  induction es as [|[name ch] r IH].
  - split; [constructor | reflexivity].
  - rewrite !andb_true_iff, IH. split.
    + intros [[H1 H2] H3]. now constructor.
    + intro H. inversion H; subst. cbn in *. tauto.
Qed.

Lemma descends_valid n p n' :
  descends n p n' -> valid_names n = true ->
  Forall (fun x => valid_name x = true) p /\ valid_names n' = true.
Proof.
  induction 1 as [n | es name ch p n' Hin Hd IH]; intro Hv.
  - split; [constructor | assumption].
  - apply valid_names_Dir in Hv. rewrite Forall_forall in Hv.
    destruct (Hv _ Hin) as [Hname Hch]. cbn in Hname, Hch.
    destruct (IH Hch) as [Hp Hn']. split; [now constructor | assumption].
Qed.

(** *** Reading back what was written *)

Lemma assoc_set_entry_same c new es :
  FS.assoc c (FS.set_entry c new es) = Some new.
Proof.
  induction es as [|[n x] r IH]; cbn.
  - now rewrite String.eqb_refl.
  - destruct (String.eqb n c) eqn:E; cbn; now rewrite E.
Qed.

Lemma assoc_set_entry_other c y new es :
  c <> y -> FS.assoc y (FS.set_entry c new es) = FS.assoc y es.
Proof.
  intro Hne. induction es as [|[n x] r IH]; cbn.
  - apply String.eqb_neq in Hne. now rewrite Hne.
  - destruct (String.eqb n c) eqn:E; cbn.
    + apply String.eqb_eq in E. subst n.
      apply String.eqb_neq in Hne. now rewrite Hne.
    + now rewrite IH.
Qed.

Lemma lookup_update_same t : forall n new f,
  FS.update n t new = Some f -> FS.lookup f t = Some new.
Proof.
  induction t as [|c r IH]; intros n new f H; cbn in H.
  - now injection H as <-.
  - destruct n as [|es]; [discriminate|].
    destruct r as [|c' r'].
    + injection H as <-. cbn. now rewrite assoc_set_entry_same.
    + destruct (FS.assoc c es) as [ch|]; [|discriminate].
      destruct (FS.update ch (c' :: r') new) as [ch'|] eqn:E; [|discriminate].
      injection H as <-. cbn [FS.lookup]. rewrite assoc_set_entry_same.
      eapply IH. exact E.
Qed.

Lemma lookup_File_is_Dir data c :
  is_Dir (FS.lookup (File data) c) -> False.
Proof. destruct c; intros (es & H); discriminate. Qed.

(** Writing a regular file leaves every directory a directory. *)
Lemma lookup_update_dir t : forall n data f,
  FS.update n t (File data) = Some f ->
  ~ is_Dir (FS.lookup n t) ->
  forall c, is_Dir (FS.lookup n c) -> is_Dir (FS.lookup f c).
Proof.
  induction t as [|x r IH]; intros n data f H Hnd c Hc; cbn in H.
  - exfalso. apply Hnd. cbn.
    destruct n as [d|es]; [|now exists es].
    now apply lookup_File_is_Dir in Hc.
  - destruct n as [d|es]; [discriminate|].
    destruct c as [|y c']; [destruct r; [|destruct (FS.assoc x es);
        [destruct (FS.update _ _ _)|]]; try discriminate;
        injection H as <-; eexists; reflexivity|].
    cbn [FS.lookup] in Hc, Hnd.
    destruct (String.eqb_spec x y) as [<-|Hxy].
    + destruct (FS.assoc x es) as [ch|] eqn:Ea;
        [|destruct Hc as (? & ?); discriminate].
      destruct r as [|x' r'].
      * exfalso. cbn in Hnd. destruct ch as [d|es'].
        -- now apply lookup_File_is_Dir in Hc.
        -- apply Hnd. now exists es'.
      * destruct (FS.update ch (x' :: r') (File data)) as [ch'|] eqn:Eu;
          [|discriminate].
        injection H as <-. cbn [FS.lookup]. rewrite assoc_set_entry_same.
        eapply IH; eassumption.
    + assert (E : FS.lookup f (y :: c') = FS.lookup (Dir es) (y :: c')).
      { destruct r as [|x' r'].
        - injection H as <-. cbn [FS.lookup].
          now rewrite assoc_set_entry_other.
        - destruct (FS.assoc x es) as [ch|]; [|discriminate].
          destruct (FS.update ch (x' :: r') (File data)); [|discriminate].
          injection H as <-. cbn [FS.lookup].
          now rewrite assoc_set_entry_other. }
      rewrite E. exact Hc.
Qed.

Lemma namei_stable n f comps : forall cur t,
  (forall c, is_Dir (FS.lookup n c) -> is_Dir (FS.lookup f c)) ->
  FS.namei n cur comps = inr t -> FS.namei f cur comps = inr t.
Proof.
  induction comps as [|c r IH]; intros cur t Hdir H; cbn in *.
  - exact H.
  - destruct (FS.lookup n cur) as [[d|es]|] eqn:E; try discriminate.
    destruct (Hdir cur) as (es' & ->); [now exists es; rewrite E|].
    destruct (_ || _)%bool; [now apply IH|].
    destruct (String.eqb c ".."); now apply IH.
Qed.

Lemma stat_write_file p data w w' :
  os.write_file p data w = (Return tt, w') ->
  os.stat w' p = inr (File data).
Proof.
  unfold os.write_file, os.stat, os.resolve.
  destruct (String.eqb p ""); [discriminate|].
  destruct (FS.namei (fs w) _ (split_sep p)) as [e|comps] eqn:En;
    [discriminate|].
  destruct (FS.lookup (fs w) comps) as [[d|es]|] eqn:El; try discriminate.
  - destruct (FS.update (fs w) comps (File data)) as [f|] eqn:Eu;
      [|discriminate].
    intro H. injection H as <-. cbn [fs cwd with_fs].
    rewrite (namei_stable (fs w) f _ _ comps); [|
      eapply lookup_update_dir; [exact Eu | rewrite El; intros (? & ?); discriminate]
      | exact En].
    now rewrite (lookup_update_same _ _ _ _ Eu).
  - destruct (FS.update (fs w) comps (File data)) as [f|] eqn:Eu;
      [|discriminate].
    intro H. injection H as <-. cbn [fs cwd with_fs].
    rewrite (namei_stable (fs w) f _ _ comps); [|
      eapply lookup_update_dir; [exact Eu | rewrite El; intros (? & ?); discriminate]
      | exact En].
    now rewrite (lookup_update_same _ _ _ _ Eu).
Qed.

(** ** Frames: what a computation leaves alone *)

Section Frames.

Variable P : World -> World -> Prop.
Hypothesis P_refl : forall w, P w w.
Hypothesis P_trans : forall a b c, P a b -> P b c -> P a c.

Lemma keeps_ret {A} (a : A) : keeps P (ret a).
Proof. intro w. apply P_refl. Qed.

Lemma keeps_raise {A} (e : exn) : keeps P (@raise A e).
Proof. intro w. apply P_refl. Qed.

Lemma keeps_lift {A} (o : outcome A) : keeps P (lift o).
Proof. intro w. apply P_refl. Qed.

Lemma keeps_bind {A B} (m : M A) (k : A -> M B) :
  keeps P m -> (forall a, keeps P (k a)) -> keeps P (bind m k).
Proof.
  intros Hm Hk w. unfold bind. specialize (Hm w).
  destruct (m w) as [[a|e] w1]; cbn [snd] in *.
  - eapply P_trans; [exact Hm | apply Hk].
  - exact Hm.
Qed.

Lemma keeps_bind_val {A B} (V : A -> Prop) (m : M A) (k : A -> M B) :
  keeps P m -> (forall w a, fst (m w) = Return a -> V a) ->
  (forall a, V a -> keeps P (k a)) -> keeps P (bind m k).
Proof.
  intros Hm HV Hk w. unfold bind. specialize (Hm w). specialize (HV w).
  destruct (m w) as [[a|e] w1]; cbn [snd fst] in *.
  - eapply P_trans; [exact Hm | apply Hk, HV; reflexivity].
  - exact Hm.
Qed.

Lemma keeps_try {A} (m : M A) (h : exn -> M A) :
  keeps P m -> (forall e, keeps P (h e)) -> keeps P (try_except m h).
Proof.
  intros Hm Hh w. unfold try_except. specialize (Hm w).
  destruct (m w) as [[a|e] w1]; cbn [snd] in *.
  - exact Hm.
  - eapply P_trans; [exact Hm | apply Hh].
Qed.

Lemma keeps_try_Exception {A} (m : M A) (h : exn -> M A) :
  keeps P m -> (forall e, keeps P (h e)) -> keeps P (try_except_Exception m h).
Proof.
  intros Hm Hh. apply keeps_try; [assumption|].
  intro e. destruct (is_Exception e); [apply Hh | apply keeps_raise].
Qed.

Lemma keeps_import (r : option exn) : keeps P (import_module r).
Proof. destruct r; [apply keeps_raise | apply keeps_ret]. Qed.

End Frames.

(** Reading the file system changes nothing, and the writing operations
    change the tree only. *)

Lemma fs_only_refl w : fs_only w w.
Proof. repeat split. Qed.

Lemma fs_only_trans a b c : fs_only a b -> fs_only b c -> fs_only a c.
Proof. unfold fs_only. intuition congruence. Qed.

Lemma keeps_weaken (P Q : World -> World -> Prop) {A} (m : M A) :
  (forall w w', P w w' -> Q w w') -> keeps P m -> keeps Q m.
Proof. intros HPQ Hm w. apply HPQ, Hm. Qed.

Ltac frame_step lem_refl lem_trans :=
  first
    [ apply (keeps_ret _ lem_refl)
    | apply (keeps_raise _ lem_refl)
    | apply (keeps_lift _ lem_refl)
    | apply (keeps_import _ lem_refl)
    | apply (keeps_bind _ lem_trans); [|intro]
    | apply (keeps_try _ lem_trans); [|intro]
    | apply (keeps_try_Exception _ lem_refl lem_trans); [|intro]
    | match goal with
      | |- keeps _ (match ?x with _ => _ end) => destruct x
      | |- keeps _ (let (_, _) := ?x in _) => destruct x
      end ].

Ltac primitive :=
  let w := fresh "w" in
  intro w;
  repeat match goal with
         | |- context [match ?x with _ => _ end] => destruct x
         end;
  repeat split.

Lemma fs_only_path_exists p : keeps fs_only (os.path_exists p).
Proof. unfold os.path_exists. primitive. Qed.

Lemma fs_only_path_isdir p : keeps fs_only (os.path_isdir p).
Proof. unfold os.path_isdir. primitive. Qed.

Lemma fs_only_getsize p : keeps fs_only (os.path_getsize p).
Proof. unfold os.path_getsize. primitive. Qed.

Lemma fs_only_read_file p : keeps fs_only (os.read_file p).
Proof. unfold os.read_file. primitive. Qed.

Lemma fs_only_mkdir p : keeps fs_only (os.mkdir p).
Proof. unfold os.mkdir. primitive. Qed.

Lemma fs_only_write_file p d : keeps fs_only (os.write_file p d).
Proof. unfold os.write_file. primitive. Qed.

Lemma fs_only_remove_file p : keeps fs_only (os.remove p).
Proof. unfold os.remove. primitive. Qed.

Ltac fs_only_frame :=
  repeat first
    [ apply fs_only_path_exists | apply fs_only_path_isdir
    | apply fs_only_getsize | apply fs_only_read_file | apply fs_only_mkdir
    | apply fs_only_write_file | apply fs_only_remove_file
    | frame_step fs_only_refl fs_only_trans ].

Lemma fs_only_makedirs_rec fuel : forall name ok,
  keeps fs_only (os.makedirs_rec fuel name ok).
Proof.
  induction fuel as [|k IH]; intros name ok; cbn [os.makedirs_rec].
  - apply (keeps_raise _ fs_only_refl).
  - unfold os.makedirs_body. fs_only_frame. apply IH.
Qed.

Lemma fs_only_makedirs name ok : keeps fs_only (os.makedirs name ok).
Proof. apply fs_only_makedirs_rec. Qed.

(** ** What can be raised

    The operations of [os] raise [OSError], [os.path.relpath] raises
    [ValueError]: instances of [Exception].  Whatever else the program
    raises was raised by a step of the libraries.  With libraries that
    fail with instances of [Exception] only, a clause [except Exception]
    catches whatever its [try] statement raises. *)

Lemma raises_weaken (P Q : exn -> Prop) {A} (m : M A) :
  (forall e, P e -> Q e) -> raises_only P m -> raises_only Q m.
Proof. intros HPQ Hm w e w' H. eapply HPQ, Hm, H. Qed.

Lemma rE_print_end s e : raises_only an_Exception (print_end s e).
Proof. intros w x w' H. discriminate. Qed.

Lemma rE_print s : raises_only an_Exception (print s).
Proof. apply rE_print_end. Qed.

Lemma rE_path_exists p : raises_only an_Exception (os.path_exists p).
Proof. intros w x w' H. discriminate. Qed.

Lemma rE_path_isdir p : raises_only an_Exception (os.path_isdir p).
Proof. intros w x w' H. discriminate. Qed.

Ltac rE_primitive :=
  let w := fresh "w" in
  let e := fresh "e" in
  let w' := fresh "w'" in
  let H := fresh "H" in
  intros w e w' H;
  repeat match type of H with
         | context [match ?x with _ => _ end] => destruct x
         | context [if ?x then _ else _] => destruct x
         end;
  try discriminate;
  injection H as <- _; reflexivity.

Lemma rE_getsize p : raises_only an_Exception (os.path_getsize p).
Proof. unfold os.path_getsize. rE_primitive. Qed.

Lemma rE_relpath p s : raises_only an_Exception (os.path_relpath p s).
Proof. unfold os.path_relpath. rE_primitive. Qed.

Lemma rE_read_file p : raises_only an_Exception (os.read_file p).
Proof. unfold os.read_file. rE_primitive. Qed.

Lemma rE_mkdir p : raises_only an_Exception (os.mkdir p).
Proof. unfold os.mkdir. rE_primitive. Qed.

Lemma rE_write_file p d : raises_only an_Exception (os.write_file p d).
Proof. unfold os.write_file. rE_primitive. Qed.

Lemma rE_remove_file p : raises_only an_Exception (os.remove p).
Proof. unfold os.remove. rE_primitive. Qed.

Lemma rE_walk p : raises_only an_Exception (os.walk p).
Proof. unfold os.walk. rE_primitive. Qed.

Section Raising.

Variable Q : exn -> Prop.
Hypothesis Q_Exception : forall e, an_Exception e -> Q e.

Lemma ro_ret {A} (a : A) : raises_only Q (ret a).
Proof. intros w e w' H. discriminate. Qed.

Lemma ro_raise {A} (e : exn) : Q e -> raises_only Q (@raise A e).
Proof. intros He w e' w' H. injection H as <- _. exact He. Qed.

Lemma ro_bind {A B} (m : M A) (k : A -> M B) :
  raises_only Q m -> (forall a, raises_only Q (k a)) ->
  raises_only Q (bind m k).
Proof.
  intros Hm Hk w e w' H. apply bind_Raise_inv in H.
  destruct H as [H|(a & w1 & _ & H)]; [eapply Hm | eapply Hk]; eassumption.
Qed.

Lemma ro_try {A} (m : M A) (h : exn -> M A) :
  raises_only Q m -> (forall e, Q e -> raises_only Q (h e)) ->
  raises_only Q (try_except m h).
Proof.
  intros Hm Hh w e w' H. unfold try_except in H.
  destruct (m w) as [[a|e0] w1] eqn:E; [discriminate|].
  eapply Hh; [eapply Hm|]; eassumption.
Qed.

Lemma ro_try_Exception {A} (m : M A) (h : exn -> M A) :
  raises_only Q m -> (forall e, Q e -> raises_only Q (h e)) ->
  raises_only Q (try_except_Exception m h).
Proof.
  intros Hm Hh. apply ro_try; [assumption|].
  intros e He. destruct (is_Exception e); [now apply Hh | now apply ro_raise].
Qed.

Lemma ro_Exception {A} (m : M A) :
  raises_only an_Exception m -> raises_only Q m.
Proof. apply raises_weaken, Q_Exception. Qed.

Lemma ro_makedirs_rec fuel : forall name ok,
  raises_only Q (os.makedirs_rec fuel name ok).
Proof.
  induction fuel as [|k IH]; intros name ok; cbn [os.makedirs_rec].
  - now apply ro_raise, Q_Exception.
  - unfold os.makedirs_body.
    destruct (split name) as [head tail].
    destruct (if String.eqb tail "" then split head else (head, tail))
      as [head' tail'].
    apply ro_bind.
    { destruct (_ && _)%bool; [|apply ro_ret].
      apply ro_bind; [apply ro_Exception, rE_path_exists|].
      intro. apply ro_ret. }
    intro missing. apply ro_bind.
    { destruct missing; [|apply ro_ret].
      apply ro_bind; [|intro; apply ro_ret].
      apply ro_try; [apply IH|].
      intros e He. destruct (is_FileExistsError e);
        [apply ro_ret | now apply ro_raise]. }
    intros [|]; [apply ro_ret|].
    apply ro_try; [apply ro_Exception, rE_mkdir|].
    intros e He. destruct (is_OSError e); [|now apply ro_raise].
    apply ro_bind; [apply ro_Exception, rE_path_isdir|].
    intro d. destruct (_ || _)%bool; [now apply ro_raise | apply ro_ret].
Qed.

Lemma ro_makedirs name ok : raises_only Q (os.makedirs name ok).
Proof. apply ro_makedirs_rec. Qed.

Variable L : Libraries.
Hypothesis Q_library : forall e, raised_by_library L e -> Q e.

Lemma ro_import_rembg : raises_only Q (import_module (import_rembg L)).
Proof.
  destruct (import_rembg L) as [e|] eqn:E; cbn; [|apply ro_ret].
  apply ro_raise, Q_library. now left.
Qed.

Lemma ro_import_PIL : raises_only Q (import_module (import_PIL L)).
Proof.
  destruct (import_PIL L) as [e|] eqn:E; cbn; [|apply ro_ret].
  apply ro_raise, Q_library. right. now left.
Qed.

Lemma ro_PIL_open d : raises_only Q (lift (PIL_open L d)).
Proof.
  intros w e w' H. unfold lift in H. injection H as H _.
  apply Q_library. do 2 right. left. now exists d.
Qed.

Lemma ro_Image_open p : raises_only Q (Image_open L p).
Proof.
  unfold Image_open. apply ro_bind; [apply ro_Exception, rE_read_file|].
  intro. apply ro_PIL_open.
Qed.

Lemma ro_Image_verify img : raises_only Q (Image_verify L img).
Proof.
  unfold Image_verify.
  destruct (PIL_verify L img) as [e|] eqn:E; cbn; [|apply ro_ret].
  apply ro_raise, Q_library. do 3 right. left. now exists img.
Qed.

Lemma ro_Image_convert img mode : raises_only Q (Image_convert L img mode).
Proof.
  intros w e w' H. unfold Image_convert, lift in H. injection H as H _.
  apply Q_library. do 4 right. left. now exists img, mode.
Qed.

Lemma ro_PIL_encode img fmt opt :
  raises_only Q (lift (PIL_encode L img fmt opt)).
Proof.
  intros w e w' H. unfold lift in H. injection H as H _.
  apply Q_library. do 5 right. left. now exists img, fmt, opt.
Qed.

Lemma ro_encode_and_write img p fmt opt :
  raises_only Q (data <- lift (PIL_encode L img fmt opt) ;;
                 os.write_file p data).
Proof.
  apply ro_bind; [apply ro_PIL_encode|].
  intro. apply ro_Exception, rE_write_file.
Qed.

Lemma ro_Image_save img p fmt opt :
  raises_only Q (Image_save L img p fmt opt).
Proof.
  unfold Image_save.
  apply ro_bind; [apply ro_Exception, rE_path_exists|]. intro existed.
  apply ro_bind; [apply ro_Exception, rE_write_file|]. intro.
  apply ro_try_Exception; [apply ro_encode_and_write|].
  intros e He. apply ro_bind; [|intro; now apply ro_raise].
  destruct existed; [apply ro_ret | apply ro_Exception, rE_remove_file].
Qed.

Lemma ro_new_session m : raises_only Q (new_session L m).
Proof.
  unfold new_session.
  destruct (rembg_new_session L m) as [e|] eqn:E; [|apply ro_ret].
  apply ro_raise, Q_library. do 6 right. left. now exists m.
Qed.

Lemma ro_remove c : raises_only Q (remove L c).
Proof.
  intros w e w' H. unfold remove in H. injection H as H _.
  apply Q_library. do 7 right. now exists c.
Qed.

Lemma ro_is_valid_image_try p : raises_only Q (is_valid_image_try L p).
Proof.
  unfold is_valid_image_try.
  apply ro_bind; [apply ro_import_PIL|]. intro.
  apply ro_bind; [apply ro_Exception, rE_getsize|]. intro size.
  destruct (size <? 100); [apply ro_ret|].
  apply ro_bind; [apply ro_Image_open|]. intro img.
  apply ro_bind; [apply ro_Image_verify|]. intro. apply ro_ret.
Qed.

Lemma ro_is_valid_image p : raises_only Q (is_valid_image L p).
Proof.
  unfold is_valid_image.
  apply ro_try_Exception; [apply ro_is_valid_image_try|].
  intros. apply ro_ret.
Qed.

Lemma ro_remove_background_try i o mn am :
  raises_only Q (remove_background_try L i o mn am).
Proof.
  unfold remove_background_try.
  apply ro_bind; [apply ro_import_rembg|]. intro.
  apply ro_bind; [apply ro_import_PIL|]. intro.
  apply ro_bind; [apply ro_Exception, rE_path_exists|]. intro found.
  destruct (negb found).
  { apply ro_bind; [apply ro_Exception, rE_print | intro; apply ro_ret]. }
  apply ro_bind; [apply ro_is_valid_image|]. intro valid.
  destruct (negb valid).
  { apply ro_bind; [apply ro_Exception, rE_print | intro; apply ro_ret]. }
  apply ro_bind; [apply ro_Exception, rE_print|]. intro.
  apply ro_bind; [apply ro_new_session|]. intro session.
  apply ro_bind; [apply ro_Image_open|]. intro img.
  apply ro_bind; [apply ro_Image_convert|]. intro rgba.
  apply ro_bind; [apply ro_PIL_encode|]. intro png.
  apply ro_bind; [apply ro_remove|]. intro out.
  apply ro_bind; [apply ro_PIL_open|]. intro img2.
  apply ro_bind; [apply ro_Image_convert|]. intro rgba2.
  apply ro_bind; [apply ro_makedirs|]. intro.
  apply ro_bind; [apply ro_Image_save|]. intro.
  apply ro_bind; [apply ro_Exception, rE_print | intro; apply ro_ret].
Qed.

End Raising.

(** With nothing but instances of [Exception] to catch, the clause
    [except Exception] catches all. *)
Lemma try_Exception_catches {A} (m : M A) (h : exn -> M A) w :
  raises_only an_Exception m ->
  try_except_Exception m h w = try_except m h w.
Proof.
  intro Hm. unfold try_except_Exception, try_except.
  destruct (m w) as [[a|e] w1] eqn:E; [reflexivity|].
  now rewrite (Hm _ _ _ E).
Qed.

Lemma raises_Exception_inv (r : option exn) e :
  raises_Exception r -> r = Some e -> an_Exception e.
Proof. now intros H ->. Qed.

Lemma fails_with_Exception_inv {A} (o : outcome A) e :
  fails_with_Exception o -> o = Raise e -> an_Exception e.
Proof. now intros H ->. Qed.

(** The libraries of [Libs] raise instances of [Exception] only. *)
Lemma Libs_raise_Exceptions (L : Libs) e :
  raised_by_library L e -> an_Exception e.
Proof.
  intros [H|[H|[(d & H)|[(i & H)|[(i & m & H)|[(i & f & o & H)
                                                |[(m & H)|(c & H)]]]]]]].
  - exact (raises_Exception_inv _ _ (import_rembg_Exception L) H).
  - exact (raises_Exception_inv _ _ (import_PIL_Exception L) H).
  - exact (fails_with_Exception_inv _ _ (PIL_open_Exception L d) H).
  - exact (raises_Exception_inv _ _ (PIL_verify_Exception L i) H).
  - exact (fails_with_Exception_inv _ _ (PIL_convert_Exception L i m) H).
  - exact (fails_with_Exception_inv _ _ (PIL_encode_Exception L i f o) H).
  - exact (raises_Exception_inv _ _ (rembg_new_session_Exception L m) H).
  - exact (fails_with_Exception_inv _ _ (rembg_remove_Exception L c) H).
Qed.

Section ExceptionsOfTheLibraries.

Variable L : Libs.

Lemma rE_encode_and_write img p fmt opt :
  raises_only an_Exception (data <- lift (PIL_encode L img fmt opt) ;;
                            os.write_file p data).
Proof.
  apply ro_encode_and_write; [auto | apply Libs_raise_Exceptions].
Qed.

Lemma rE_is_valid_image_try p :
  raises_only an_Exception (is_valid_image_try L p).
Proof.
  apply ro_is_valid_image_try; [auto | apply Libs_raise_Exceptions].
Qed.

Lemma rE_remove_background_try i o mn am :
  raises_only an_Exception (remove_background_try L i o mn am).
Proof.
  apply ro_remove_background_try; [auto | apply Libs_raise_Exceptions].
Qed.

(** The two [except Exception] clauses of the program, and the one of
    [Image.save], catch whatever their [try] statements raise. *)
Lemma is_valid_image_catches p w :
  is_valid_image L p w
  = try_except (is_valid_image_try L p) (fun _ => ret false) w.
Proof. apply try_Exception_catches, rE_is_valid_image_try. Qed.

Lemma sip_catches i o mn am w :
  remove_background_high_quality L i o mn am w
  = try_except
      (remove_background_try L i o (default "u2net" mn) (default true am))
      (fun e => print ("❌ Erro ao processar: " ++ str_exn e) ;; ret false) w.
Proof. apply try_Exception_catches, rE_remove_background_try. Qed.

Lemma Image_save_catches img p fmt opt w :
  Image_save L img p fmt opt w
  = (existed <- os.path_exists p ;;
     os.write_file p [] ;;
     try_except
       (data <- lift (PIL_encode L img fmt opt) ;;
        os.write_file p data)
       (fun e =>
          (if existed : bool then ret tt else os.remove p) ;;
          raise e)) w.
Proof.
  unfold Image_save, bind.
  destruct (os.path_exists p w) as [[a|e] w1]; [|reflexivity].
  destruct (os.write_file p [] w1) as [[u|e] w2]; [|reflexivity].
  apply try_Exception_catches, rE_encode_and_write.
Qed.

End ExceptionsOfTheLibraries.

(** ** The validator and the processor *)

Ltac use_eqs :=
  repeat (cbv beta iota zeta;
          match goal with
          | H : ?x = _ |- context [?x] => rewrite H
          end);
  cbv beta iota zeta.

(** The validator returns a boolean and leaves the world as it is. *)
Lemma is_valid_image_pure (L : Libs) (file_path : string) (w : World) :
  exists b, is_valid_image L file_path w = (Return b, w).
Proof.
  rewrite is_valid_image_catches.
  unfold is_valid_image_try, try_except, bind, import_module, os.path_getsize,
    Image_open, Image_verify, os.read_file, lift, bind, ret, raise,
    import_module.
  destruct (import_PIL L); [now eexists|].
  cbv beta iota zeta.
  destruct (os.stat w file_path) as [e|[data|es]] eqn:Hst;
    cbv beta iota zeta; try (now eexists).
  - destruct (_ <? 100); [now eexists|]. use_eqs.
    destruct (PIL_open L data) as [img|]; use_eqs; [|now eexists].
    destruct (PIL_verify L img); now eexists.
  - destruct (_ <? 100); [now eexists|]. use_eqs. now eexists.
Qed.

(** The processor never raises: whatever its body does, the handler of
    line 99 turns an exception into [False]. *)
Lemma sip_total (L : Libs) i o mn am w :
  exists b w', remove_background_high_quality L i o mn am w = (Return b, w').
Proof.
  rewrite sip_catches. unfold try_except.
  destruct (remove_background_try L i o (default "u2net" mn) (default true am) w)
    as [[b|e] w1].
  - now exists b, w1.
  - now exists false, (print_text (msg_error e) w1).
Qed.

Lemma fs_only_is_valid_image (L : Libs) p : keeps fs_only (is_valid_image L p).
Proof.
  intro w. destruct (is_valid_image_pure L p w) as (b & ->).
  apply fs_only_refl.
Qed.

Lemma fs_only_new_session (L : Libs) m : keeps fs_only (new_session L m).
Proof. unfold new_session. fs_only_frame. Qed.

Lemma fs_only_Image_open (L : Libs) p : keeps fs_only (Image_open L p).
Proof. unfold Image_open. fs_only_frame. Qed.

Lemma fs_only_Image_save (L : Libs) img f fmt o :
  keeps fs_only (Image_save L img f fmt o).
Proof. unfold Image_save. fs_only_frame. Qed.

(** *** The calls of the segmentation engine *)

Lemma calls_grow_refl Q w : calls_grow Q w w.
Proof. exists []. split; [now rewrite app_nil_r | constructor]. Qed.

Lemma calls_grow_trans Q a b c :
  calls_grow Q a b -> calls_grow Q b c -> calls_grow Q a c.
Proof.
  intros (l1 & H1 & F1) (l2 & H2 & F2). exists (l1 ++ l2)%list. split.
  - now rewrite H2, H1, app_assoc.
  - apply Forall_app. now split.
Qed.

Lemma fs_only_calls_grow Q w w' : fs_only w w' -> calls_grow Q w w'.
Proof.
  intros (_ & _ & H). exists []. split; [|constructor].
  now rewrite app_nil_r.
Qed.

Lemma calls_grow_print Q s : keeps (calls_grow Q) (print s).
Proof.
  intro w. exists []. split; [cbn; now rewrite app_nil_r | constructor].
Qed.

Lemma grow_remove (L : Libs) Q c : Q c -> keeps (calls_grow Q) (remove L c).
Proof.
  intros H w. exists [c]. split; [reflexivity|]. now constructor.
Qed.

Lemma new_session_value (L : Libs) m w s :
  fst (new_session L m w) = Return s -> s = Session m.
Proof.
  unfold new_session. destruct (rembg_new_session L m); cbn; congruence.
Qed.

Lemma grow_try (L : Libs) i o mn am :
  keeps (calls_grow (fixed_call mn am)) (remove_background_try L i o mn am).
Proof.
  unfold remove_background_try, Image_open_bytes, Image_convert,
    Image_save_bytes.
  repeat first
    [ apply grow_remove; repeat split; assumption
    | apply (keeps_bind_val _ (calls_grow_trans (fixed_call mn am))
                            (fun s => s = Session mn) (new_session L mn));
      [ | apply new_session_value | intros ? -> ]
    | apply calls_grow_print
    | apply (keeps_weaken fs_only _ _ (fs_only_calls_grow _));
      first [ apply fs_only_path_exists | apply fs_only_is_valid_image
            | apply fs_only_new_session | apply fs_only_Image_open
            | apply fs_only_Image_save | apply fs_only_makedirs ]
    | frame_step (calls_grow_refl (fixed_call mn am))
                 (calls_grow_trans (fixed_call mn am)) ].
Qed.

Lemma grow_sip (L : Libs) i o mn am :
  keeps (calls_grow (fixed_call (default "u2net" mn) (default true am)))
        (remove_background_high_quality L i o mn am).
Proof.
  unfold remove_background_high_quality.
  apply keeps_try_Exception;
    [apply calls_grow_refl | apply calls_grow_trans | apply grow_try |].
  intro e.
  apply (keeps_bind _ (calls_grow_trans _)); [apply calls_grow_print|].
  intro. apply (keeps_ret _ (calls_grow_refl _)).
Qed.

(** *** An output path without a directory *)

Lemma makedirs_empty w :
  os.makedirs "" true w = (Raise (OSError ENOENT ""), w).
Proof. reflexivity. Qed.

Lemma dirname_without_sep o :
  PyStr.rfind PyStr.sep o = -1 -> posixpath.dirname o = "".
Proof.
  intro H. unfold posixpath.dirname, posixpath.split. rewrite H. reflexivity.
Qed.

(** Without a directory in the output path, the body of the [try]
    statement cannot return [True], and it leaves the tree alone. *)
Lemma try_without_directory (L : Libs) i o mn am w :
  rfind sep o = -1 ->
  exists r w1,
    remove_background_try L i o mn am w = (r, w1) /\
    r <> Return true /\ fs w1 = fs w.
Proof.
  intros Hsep. unfold remove_background_try.
  rewrite (dirname_without_sep _ Hsep).
  destruct (is_valid_image_pure L i w) as (b & Hrun).
  unfold bind, import_module, new_session, Image_open,
    Image_open_bytes, Image_convert, Image_save_bytes, remove, lift,
    os.path_exists, os.read_file, bind, ret, raise, print, print_end.
  destruct (import_rembg L); [do 2 eexists; now repeat split|].
  destruct (import_PIL L); [do 2 eexists; now repeat split|].
  cbv beta iota zeta.
  destruct (os.stat w i) as [e|n] eqn:Hst;
    [do 2 eexists; now repeat split|].
  cbn [negb]. rewrite Hrun.
  destruct b; cbn [negb]; cbv beta iota zeta;
    [|do 2 eexists; now repeat split].
  destruct (rembg_new_session L _); [do 2 eexists; now repeat split|].
  cbv beta iota zeta. rewrite stat_print_text, Hst.
  destruct n as [data|es]; [|do 2 eexists; now repeat split].
  cbv beta iota zeta.
  destruct (PIL_open L data) as [img|]; [|do 2 eexists; now repeat split].
  destruct (PIL_convert L img "RGBA") as [img1|];
    [|do 2 eexists; now repeat split].
  destruct (PIL_encode L img1 "PNG" false) as [bytes|];
    [|do 2 eexists; now repeat split].
  destruct (rembg_remove L _) as [out|]; [|do 2 eexists; now repeat split].
  destruct (PIL_open L out) as [img2|]; [|do 2 eexists; now repeat split].
  destruct (PIL_convert L img2 "RGBA") as [img3|];
    [|do 2 eexists; now repeat split].
  rewrite makedirs_empty. do 2 eexists. now repeat split.
Qed.

Lemma sip_without_directory (L : Libs) i o mn am w :
  rfind sep o = -1 ->
  exists w1,
    remove_background_high_quality L i o mn am w = (Return false, w1) /\
    fs w1 = fs w.
Proof.
  intro Hsep. rewrite sip_catches. unfold try_except.
  destruct (try_without_directory L i o (default "u2net" mn)
              (default true am) w Hsep) as ([[|]|e] & w1 & -> & Hr & Hfs).
  - congruence.
  - now exists w1.
  - eexists. split; [reflexivity | exact Hfs].
Qed.

(** *** A successful run *)

Ltac binv H :=
  apply bind_Return_inv in H;
  let a := fresh "a" in
  let w := fresh "w" in
  let H1 := fresh "Hstep" in
  destruct H as (a & w & H1 & H).

Lemma Image_save_success (L : Libs) img p fmt opt w w' :
  Image_save L img p fmt opt w = (Return tt, w') ->
  exists data,
    PIL_encode L img fmt opt = Return data /\ os.stat w' p = inr (File data).
Proof.
  rewrite Image_save_catches. intro H.
  binv H. binv H.
  unfold try_except in H.
  destruct (bind (lift (PIL_encode L img fmt opt))
                 (fun data => os.write_file p data) w1) as [[[]|e] w2] eqn:E.
  - injection H as <-. binv E.
    unfold lift in Hstep1. injection Hstep1 as Henc <-.
    exists a1. split; [assumption|]. eapply stat_write_file. exact E.
  - exfalso. unfold bind in H.
    destruct (if a then _ else _) as [[?|?] ?]; discriminate.
Qed.

(** A successful run ends with the output written. *)
Lemma sip_success (L : Libs) i o mn am w w' :
  remove_background_high_quality L i o mn am w = (Return true, w') ->
  exists (img0 img : image L) data,
    PIL_convert L img0 "RGBA" = Return img /\
    PIL_encode L img "PNG" true = Return data /\
    os.stat w' o = inr (File data).
Proof.
  rewrite sip_catches. unfold try_except.
  destruct (remove_background_try L i o _ _ w) as [[b|e] w1] eqn:E;
    [|discriminate].
  intro H. injection H as -> ->.
  unfold remove_background_try in E.
  binv E. binv E. binv E.
  destruct a1; cbn [negb] in E; [|discriminate].
  binv E. destruct a1; cbn [negb] in E; [|discriminate].
  do 10 binv E.
  repeat match goal with u : unit |- _ => destruct u end.
  match goal with
  | H : Image_save _ _ _ _ _ _ = _ |- _ =>
      apply Image_save_success in H; destruct H as (data & Henc & Hst)
  end.
  match goal with
  | H : Image_convert _ ?x _ _ = (Return ?y, _), H' : PIL_encode _ ?y _ _ = _ |- _ =>
      unfold Image_convert, lift in H; injection H as Hconv _;
      exists x, y, data
  end.
  binv E. unfold ret in E. injection E as <-.
  repeat match goal with u : unit |- _ => destruct u end.
  match goal with
  | H : print _ _ = _ |- _ =>
      rewrite print_run in H;
      let Hw := fresh "Hw" in injection H as Hw; rewrite <- Hw
  end.
  rewrite stat_print_text. repeat split; assumption.
Qed.

(** *** What is printed *)

Lemma stdout_grows_refl w : stdout_grows w w.
Proof. exists []. now rewrite app_nil_r. Qed.

Lemma stdout_grows_trans a b c :
  stdout_grows a b -> stdout_grows b c -> stdout_grows a c.
Proof.
  intros (l1 & H1) (l2 & H2). exists (l1 ++ l2)%list.
  now rewrite H2, H1, app_assoc.
Qed.

Lemma fs_only_stdout_grows w w' : fs_only w w' -> stdout_grows w w'.
Proof. intros (_ & H & _). exists []. now rewrite app_nil_r. Qed.

Lemma stdout_grows_print s : keeps stdout_grows (print s).
Proof. intro w. now exists [s ++ newline]. Qed.

Lemma stdout_grows_remove (L : Libs) c : keeps stdout_grows (remove L c).
Proof. intro w. exists []. cbn. now rewrite app_nil_r. Qed.

Ltac stdout_frame :=
  unfold Image_open_bytes, Image_convert, Image_save_bytes;
  repeat first
    [ apply stdout_grows_print
    | apply stdout_grows_remove
    | apply (keeps_weaken fs_only _ _ fs_only_stdout_grows);
      first [ apply fs_only_path_exists | apply fs_only_is_valid_image
            | apply fs_only_new_session | apply fs_only_Image_open
            | apply fs_only_Image_save | apply fs_only_makedirs ]
    | frame_step stdout_grows_refl stdout_grows_trans ].

Lemma printed_then_grows (K : M bool) (h : exn -> string) m w :
  keeps stdout_grows K ->
  exists l, l <> [] /\
    stdout (snd (match K (print_text m w) with
                 | (Return a, w') => (Return a, w')
                 | (Raise e, w') =>
                     bind (print (h e)) (fun _ => ret false) w'
                 end))
    = (stdout w ++ l)%list.
Proof.
  intro HK. destruct (HK (print_text m w)) as (l & Hl).
  destruct (K (print_text m w)) as [[a|e] w1]; cbn [snd] in *.
  - exists (m :: l). split; [discriminate|].
    rewrite Hl. cbn [stdout print_text]. now rewrite <- app_assoc.
  - exists (m :: l ++ [(h e ++ newline)%string])%list. split; [discriminate|].
    unfold bind, print, print_end, ret. cbn [snd print_text stdout].
    rewrite Hl. cbn [stdout print_text]. now rewrite <- !app_assoc.
Qed.

(** Every call of the processor prints at least one line. *)
Lemma sip_prints (L : Libs) i o mn am w :
  exists l, l <> [] /\
    stdout (snd (remove_background_high_quality L i o mn am w))
    = (stdout w ++ l)%list.
Proof.
  rewrite sip_catches. unfold remove_background_try, try_except.
  unfold bind at 1, import_module at 1.
  destruct (import_rembg L);
    [eexists [_]; split; [discriminate | reflexivity]|].
  unfold ret at 1. unfold bind at 1, import_module at 1.
  destruct (import_PIL L);
    [eexists [_]; split; [discriminate | reflexivity]|].
  unfold ret at 1. unfold bind at 1, os.path_exists at 1.
  destruct (os.stat w i) as [e|n]; cbn [negb];
    [eexists [_]; split; [discriminate | reflexivity]|].
  unfold bind at 1.
  destruct (is_valid_image_pure L i w) as (b & ->).
  destruct b; cbn [negb];
    [|eexists [_]; split; [discriminate | reflexivity]].
  rewrite (bind_run _ _ _ _ _ (print_run _ _)).
  apply (printed_then_grows _ (fun e => "❌ Erro ao processar: " ++ str_exn e)).
  stdout_frame.
Qed.

(** ** The walker *)

Lemma relpath_total cwd path start :
  path <> "" -> exists r, relpath cwd path start = Some r.
Proof.
  intro H. unfold relpath. apply String.eqb_neq in H. rewrite H.
  destruct (_ ++ _)%list; eauto.
Qed.

Lemma output_file_for_total in_dir out_dir img w :
  img <> "" ->
  exists o, output_file_for in_dir out_dir img w = (Return o, w).
Proof.
  intro H. unfold output_file_for, bind, os.path_relpath.
  destruct (relpath_total (os.getcwd_str w) img in_dir H) as (r & ->).
  eexists. reflexivity.
Qed.

Lemma successes_cons r tr :
  successes (r :: tr) = (if inv_result r then 1 else 0) + successes tr.
Proof.
  unfold successes. cbn [filter]. destruct (inv_result r); cbn [length]; lia.
Qed.

Lemma failures_cons r tr :
  failures (r :: tr) = (if inv_result r then 0 else 1) + failures tr.
Proof.
  unfold failures. cbn [filter].
  destruct (inv_result r); cbn [negb length]; lia.
Qed.

Lemma tally_total tr : successes tr + failures tr = Z.of_nat (length tr).
Proof.
  induction tr as [|r tr IH]; [reflexivity|].
  rewrite successes_cons, failures_cons. cbn [length].
  destruct (inv_result r); lia.
Qed.

Lemma process_one_run (L : Libs) in_dir out_dir total i img s f w o ok w3 :
  output_file_for in_dir out_dir img
                  (print_text (progress_text i total ++ " ") w)
  = (Return o, print_text (progress_text i total ++ " ") w) ->
  remove_background_high_quality L img o None None
                                 (print_text (progress_text i total ++ " ") w)
  = (Return ok, w3) ->
  process_one L in_dir out_dir total (i, img) (s, f) w
  = (Return (if ok then (s + 1, f) else (s, f + 1)), w3).
Proof.
  intros Ho Hsip. unfold process_one, bind, print_end.
  rewrite Ho, Hsip. now destruct ok.
Qed.

Lemma for_each_batch (L : Libs) in_dir out_dir total items : forall s f w,
  Forall (fun item => snd item <> "") items ->
  for_each items (process_one L in_dir out_dir total) (s, f) w
  = (Return (s + successes (fst (batch_trace L in_dir out_dir total items w)),
             f + failures (fst (batch_trace L in_dir out_dir total items w))),
     snd (batch_trace L in_dir out_dir total items w)) /\
  map inv_input (fst (batch_trace L in_dir out_dir total items w))
  = map snd items.
Proof.
  induction items as [|[i img] rest IH]; intros s f w HF.
  - cbn. split; [|reflexivity]. unfold ret, successes, failures. cbn.
    now rewrite !Z.add_0_r.
  - inversion HF as [|? ? Himg Hrest]; subst. cbn [snd] in Himg.
    cbn [for_each batch_trace].
    destruct (output_file_for_total in_dir out_dir img
                (print_text (progress_text i total ++ " ") w) Himg)
      as (o & Ho).
    destruct (sip_total L img o None None
                (print_text (progress_text i total ++ " ") w))
      as (ok & w3 & Hsip).
    rewrite (bind_run _ _ _ _ _
               (process_one_run L in_dir out_dir total i img s f w o ok w3
                                Ho Hsip)).
    rewrite Ho, Hsip.
    destruct (batch_trace L in_dir out_dir total rest w3) as [tr w4] eqn:Etr.
    cbn [fst snd map inv_input].
    destruct ok;
      [destruct (IH (s + 1) f w3 Hrest) as [E1 E2]
      |destruct (IH s (f + 1) w3 Hrest) as [E1 E2]];
      rewrite Etr in *; cbn [fst snd] in *;
      rewrite E1, successes_cons, failures_cons; cbn [inv_result];
      (split; [|now rewrite E2]); do 2 f_equal; f_equal; lia.
Qed.

Lemma map_snd_enumerate {A} (l : list A) : forall k, map snd (enumerate l k) = l.
Proof. induction l as [|a l IH]; intro k; cbn; [|rewrite IH]; reflexivity. Qed.

Lemma join_nonempty a b : b <> "" -> join a b <> "".
Proof.
  intro H. unfold join. destruct (startswith b "/"); [assumption|].
  destruct (_ || _)%bool.
  - now apply append_nonempty_r.
  - apply append_nonempty_r. discriminate.
Qed.

Lemma collected_nonempty walked :
  Forall (fun x => x <> "") (collect_image_files walked).
Proof.
  apply Forall_forall. intros x Hx. unfold collect_image_files in Hx.
  apply in_flat_map in Hx. destruct Hx as ([[root dirs] files] & _ & Hx).
  apply in_map_iff in Hx. destruct Hx as (f & <- & Hf).
  apply filter_In in Hf. destruct Hf as [_ Hs].
  apply join_nonempty. intros ->. discriminate.
Qed.

Lemma image_files_nonempty w in_dir :
  Forall (fun x => x <> "") (image_files_at w in_dir).
Proof.
  unfold image_files_at. destruct (os.stat w in_dir); [constructor|].
  apply collected_nonempty.
Qed.

(** The three ways a run of the walker can go. *)
Lemma walker_run (L : Libs) in_dir out_dir w :
  match os.stat w in_dir with
  | inl _ =>
      process_directory_high_quality L in_dir out_dir w
      = (Return (0, 0), print_text (msg_dir_not_found in_dir) w)
  | inr _ =>
      match image_files_at w in_dir with
      | [] =>
          process_directory_high_quality L in_dir out_dir w
          = (Return (0, 0), print_text (msg_no_images in_dir) w)
      | files =>
          let run :=
            batch_trace L in_dir out_dir (Z.of_nat (length files))
                        (enumerate files 1) (batch_start w in_dir) in
          process_directory_high_quality L in_dir out_dir w
          = (Return (successes (fst run), failures (fst run)), snd run) /\
          map inv_input (fst run) = files
      end
  end.
Proof.
  unfold process_directory_high_quality.
  pose proof (image_files_nonempty w in_dir) as Hne.
  assert (Hex : os.path_exists in_dir w
                = (Return (match os.stat w in_dir with
                           | inr _ => true
                           | inl _ => false
                           end), w)) by reflexivity.
  rewrite (bind_run _ _ _ _ _ Hex). clear Hex.
  unfold batch_start, image_files_at in *.
  destruct (os.stat w in_dir) as [e|n] eqn:Hst; cbn [negb].
  - reflexivity.
  - assert (Hwalk : os.walk in_dir w = (Return (FS.walk in_dir n), w))
      by (unfold os.walk; now rewrite Hst).
    rewrite (bind_run _ _ _ _ _ Hwalk). clear Hwalk.
    destruct (collect_image_files (FS.walk in_dir n)) as [|x l] eqn:Ef.
    + reflexivity.
    + cbv zeta. rewrite (bind_run _ _ _ _ _ (print_run _ _)).
      rewrite <- !sapp_assoc.
      match goal with
      | |- for_each ?items _ _ ?w1 = _ /\ _ =>
          destruct (for_each_batch L in_dir out_dir
                      (Z.of_nat (length (x :: l))) items 0 0 w1) as [E1 E2]
      end.
      { rewrite Forall_forall. intros [i img] Hi. cbn [snd].
        rewrite Forall_forall in Hne. apply Hne.
        rewrite <- (map_snd_enumerate (x :: l) 1).
        apply in_map_iff. now exists (i, img). }
      rewrite map_snd_enumerate in E2. split; [|exact E2].
      rewrite E1. now rewrite !Z.add_0_l.
Qed.

Lemma stat_nonempty w p n : os.stat w p = inr n -> p <> "".
Proof. intros H ->. discriminate. Qed.

Lemma getcwd_abs w : startswith (os.getcwd_str w) "/" = true.
Proof. reflexivity. Qed.

Lemma file_under_valid n ds f :
  valid_names n = true -> file_under n ds f ->
  Forall (fun x => valid_name x = true) (ds ++ [f]).
Proof.
  intros Hv (data & Hd). now destruct (descends_valid _ _ _ Hd Hv).
Qed.

Lemma output_file_for_walked in_dir out_dir ds f w :
  in_dir <> "" ->
  Forall (fun x => valid_name x = true) (ds ++ [f]) ->
  output_file_for in_dir out_dir (walked_path in_dir ds f) w
  = (Return (mirrored_output out_dir ds f), w).
Proof.
  intros Hin Hv. unfold output_file_for, bind, os.path_relpath, walked_path.
  rewrite relpath_walked;
    [| apply getcwd_abs | assumption | destruct ds; discriminate | assumption].
  unfold ret. do 2 f_equal.
  pose proof (Forall_valid_plain _ Hv) as Hp.
  apply Forall_app in Hp. destruct Hp as [Hds Hf].
  inversion Hf; subst. now apply output_of_relative_path.
Qed.

Lemma basename_app X f :
  dir_like X -> has_char sep f = false -> basename (X ++ f) = f.
Proof.
  intros HX Hf. unfold basename.
  rewrite rfind_app, Hf, (dir_like_rfind X HX).
  replace (len X - 1 + 1) with (len X + 0) by lia.
  now rewrite slice_from_app by lia.
Qed.


Lemma is_supported_spec f :
  is_supported f = true <->
  In (lower (pathlib.suffix f))
     [".jpg"; ".jpeg"; ".png"; ".bmp"; ".tiff"; ".webp"].
Proof.
  unfold is_supported, mem, supported_formats. rewrite existsb_exists. split.
  - intros (x & Hx & E). apply String.eqb_eq in E. now subst.
  - intro H. exists (lower (pathlib.suffix f)). split; [assumption|].
    apply String.eqb_refl.
Qed.

Lemma batch_trace_calls (L : Libs) in_dir out_dir total items : forall w tr w' r,
  batch_trace L in_dir out_dir total items w = (tr, w') -> In r tr ->
  exists w1 w2,
    output_file_for in_dir out_dir (inv_input r) w1
    = (Return (inv_output r), w2) /\
    remove_background_high_quality L (inv_input r) (inv_output r)
                                   None None w2
    = (Return (inv_result r), inv_after r).
Proof.
  induction items as [|[i img] rest IH]; intros w tr w' r H Hin;
    cbn [batch_trace] in H.
  - injection H as <- _. destruct Hin.
  - destruct (output_file_for in_dir out_dir img _) as [[o|e] w2] eqn:Eo;
      [|injection H as <- _; destruct Hin].
    destruct (remove_background_high_quality L img o None None w2)
      as [[ok|e] w3] eqn:Es; [|injection H as <- _; destruct Hin].
    destruct (batch_trace L in_dir out_dir total rest w3) as [tr' w4] eqn:Et.
    injection H as <- <-. destruct Hin as [<-|Hin].
    + cbn [inv_input inv_output inv_result inv_after]. eauto.
    + eapply IH; eassumption.
Qed.

(** What a run of the walker is, whatever the input. *)
Lemma walker_batch (L : Libs) input_dir output_dir w :
  exists tr w',
    process_directory_high_quality L input_dir output_dir w
    = (Return (successes tr, failures tr), w') /\
    map inv_input tr = image_files_at w input_dir /\
    (image_files_at w input_dir <> [] ->
     batch_trace L input_dir output_dir
                 (Z.of_nat (length (image_files_at w input_dir)))
                 (enumerate (image_files_at w input_dir) 1)
                 (batch_start w input_dir)
     = (tr, w')).
Proof.
  pose proof (walker_run L input_dir output_dir w) as Hrun.
  destruct (os.stat w input_dir) as [e|n] eqn:Hst.
  - exists [], (print_text (msg_dir_not_found input_dir) w).
    unfold image_files_at. rewrite Hst.
    repeat split; [exact Hrun | congruence].
  - destruct (image_files_at w input_dir) as [|x l] eqn:Ef.
    + exists [], (print_text (msg_no_images input_dir) w).
      repeat split; [exact Hrun | congruence].
    + cbv zeta in Hrun. destruct Hrun as [Hrun Hmap].
      destruct (batch_trace L input_dir output_dir _ _ _) as [tr w'].
      cbn [fst snd] in *. exists tr, w'.
      repeat split; [exact Hrun | exact Hmap].
Qed.

(** ** Legal names

    The names of a file system are free of separators; the program keeps
    them so. *)

Lemma legal_kept_refl w : legal_kept w w.
Proof. now intro. Qed.

Lemma legal_kept_trans a b c : legal_kept a b -> legal_kept b c -> legal_kept a c.
Proof. unfold legal_kept. auto. Qed.

Lemma valid_names_set_entry c new es :
  valid_name c = true -> valid_names new = true ->
  valid_names (Dir es) = true ->
  valid_names (Dir (FS.set_entry c new es)) = true.
Proof.
  intros Hc Hnew. rewrite !valid_names_Dir.
  induction es as [|[n x] r IH]; cbn [FS.set_entry]; intro H.
  - constructor; [now split | constructor].
  - inversion H as [|? ? [Hn Hx] Hr]; subst. cbn [fst snd] in *.
    destruct (String.eqb n c); constructor; auto.
Qed.

Lemma valid_names_remove_entry c es :
  valid_names (Dir es) = true ->
  valid_names (Dir (FS.remove_entry c es)) = true.
Proof.
  rewrite !valid_names_Dir.
  induction es as [|[n x] r IH]; cbn [FS.remove_entry]; intro H; [assumption|].
  inversion H; subst. destruct (String.eqb n c); [assumption|].
  constructor; auto.
Qed.

Lemma valid_names_assoc c es ch :
  valid_names (Dir es) = true -> FS.assoc c es = Some ch ->
  valid_names ch = true.
Proof.
  rewrite valid_names_Dir.
  induction es as [|[n x] r IH]; cbn [FS.assoc]; intros H E; [discriminate|].
  inversion H as [|? ? [_ Hx] Hr]; subst. cbn [snd] in Hx.
  destruct (String.eqb n c); [now injection E as <- | auto].
Qed.

Lemma valid_names_lookup comps : forall n n',
  valid_names n = true -> FS.lookup n comps = Some n' ->
  valid_names n' = true.
Proof.
  induction comps as [|c r IH]; intros n n' Hv H; cbn in H.
  - now injection H as <-.
  - destruct n as [|es]; [discriminate|].
    destruct (FS.assoc c es) as [ch|] eqn:E; [|discriminate].
    eapply IH; [|exact H]. eapply valid_names_assoc; eassumption.
Qed.

Lemma valid_names_update comps : forall n new f,
  Forall (fun x => valid_name x = true) comps ->
  valid_names n = true -> valid_names new = true ->
  FS.update n comps new = Some f -> valid_names f = true.
Proof.
  induction comps as [|c r IH]; intros n new f HF Hn Hnew H; cbn in H.
  - now injection H as <-.
  - inversion HF as [|? ? Hc Hr]; subst.
    destruct n as [|es]; [discriminate|].
    destruct r as [|c' r'].
    + injection H as <-. now apply valid_names_set_entry.
    + destruct (FS.assoc c es) as [ch|] eqn:E; [|discriminate].
      destruct (FS.update ch (c' :: r') new) as [ch'|] eqn:Eu; [|discriminate].
      injection H as <-. apply valid_names_set_entry; [assumption| |assumption].
      eapply IH; [exact Hr | | exact Hnew | exact Eu].
      eapply valid_names_assoc; eassumption.
Qed.

Lemma valid_names_unlink comps : forall n f,
  valid_names n = true -> FS.unlink n comps = Some f -> valid_names f = true.
Proof.
  induction comps as [|c r IH]; intros n f Hn H; cbn in H; [discriminate|].
  destruct n as [|es]; [discriminate|].
  destruct r as [|c' r'].
  - injection H as <-. now apply valid_names_remove_entry.
  - destruct (FS.assoc c es) as [ch|] eqn:E; [|discriminate].
    destruct (FS.unlink ch (c' :: r')) as [ch'|] eqn:Eu; [|discriminate].
    injection H as <-.
    assert (Hch : valid_names ch = true)
      by (eapply valid_names_assoc; eassumption).
    apply valid_names_set_entry; [| eapply IH; eassumption | assumption].
    apply valid_names_Dir in Hn. clear -Hn E.
    induction es as [|[n x] r IH]; cbn in E; [discriminate|].
    inversion Hn as [|? ? [Hname _] Hr]; subst. cbn [fst] in Hname.
    destruct (String.eqb_spec n c) as [->|_]; [assumption | auto].
Qed.

(** Path resolution yields legal names. *)
Lemma namei_valid root comps : forall cur t,
  Forall (fun c => has_char sep c = false) comps ->
  Forall (fun x => valid_name x = true) cur ->
  FS.namei root cur comps = inr t ->
  Forall (fun x => valid_name x = true) t.
Proof.
  induction comps as [|c r IH]; intros cur t Hc Hcur H; cbn in H.
  - now injection H as <-.
  - inversion Hc as [|? ? Hsep Hr]; subst.
    destruct (FS.lookup root cur) as [[|es]|]; try discriminate.
    destruct (String.eqb_spec c "") as [->|Hne]; cbn [orb] in H;
      [now apply (IH cur)|].
    destruct (String.eqb_spec c ".") as [->|Hd]; [now apply (IH cur)|].
    destruct (String.eqb_spec c "..") as [->|Hdd].
    + apply (IH (removelast cur)); auto using Forall_removelast.
    + apply (IH (cur ++ [c])%list); auto.
      apply Forall_app. split; [assumption|]. constructor; [|constructor].
      apply valid_name_spec. auto.
Qed.

Lemma strip_trailing_empty_no_sep comps :
  Forall (fun c => has_char sep c = false) comps ->
  Forall (fun c => has_char sep c = false) (FS.strip_trailing_empty comps).
Proof.
  induction 1 as [|c r Hc Hr IH]; cbn; [constructor|].
  destruct (FS.strip_trailing_empty r).
  - destruct (String.eqb c ""); constructor; auto.
  - constructor; auto.
Qed.

Lemma start_valid w p :
  legal_world w ->
  Forall (fun x => valid_name x = true) (if isabs p then [] else cwd w).
Proof. intros [_ H]. destruct (isabs p); [constructor | assumption]. Qed.

Lemma legal_with_fs f w :
  valid_names f = true -> legal_world w -> legal_world (with_fs f w).
Proof. intros Hf [_ Hc]. now split. Qed.

Lemma legal_mkdir p : keeps legal_kept (os.mkdir p).
Proof.
  intros w Hw. unfold os.mkdir.
  destruct (String.eqb p ""); [assumption|].
  destruct (FS.namei _ _ _) as [e|comps] eqn:En; [assumption|].
  destruct (FS.lookup (fs w) comps); [assumption|].
  destruct (FS.update (fs w) comps (Dir [])) as [f|] eqn:Eu; [|assumption].
  cbn [snd]. apply legal_with_fs; [|assumption].
  apply (valid_names_update comps (fs w) (Dir []) f);
    [| apply Hw | reflexivity | exact Eu].
  eapply namei_valid; [| | exact En].
  - apply strip_trailing_empty_no_sep, split_sep_no_sep.
  - now apply start_valid.
Qed.

Lemma legal_write_file p data : keeps legal_kept (os.write_file p data).
Proof.
  intros w Hw. unfold os.write_file, os.resolve.
  destruct (String.eqb p ""); [assumption|].
  destruct (FS.namei _ _ _) as [e|comps] eqn:En; [assumption|].
  assert (Hcomps : Forall (fun x => valid_name x = true) comps).
  { eapply namei_valid; [apply split_sep_no_sep | | exact En].
    now apply start_valid. }
  destruct (FS.lookup (fs w) comps) as [[|]|];
    try assumption;
    (destruct (FS.update (fs w) comps (File data)) as [f|] eqn:Eu;
     [|assumption]);
    cbn [snd]; (apply legal_with_fs; [|assumption]);
    (apply (valid_names_update comps (fs w) (File data) f);
     [exact Hcomps | apply Hw | reflexivity | exact Eu]).
Qed.

Lemma legal_remove_file p : keeps legal_kept (os.remove p).
Proof.
  intros w Hw. unfold os.remove.
  destruct (os.resolve w p) as [e|comps]; [assumption|].
  destruct (FS.lookup (fs w) comps) as [[|]|]; try assumption.
  destruct (FS.unlink (fs w) comps) as [f|] eqn:Eu; [|assumption].
  cbn [snd]. apply legal_with_fs; [|assumption].
  eapply valid_names_unlink; [apply Hw | exact Eu].
Qed.

Lemma legal_same_fs {A} (m : M A) :
  (forall w, fs (snd (m w)) = fs w /\ cwd (snd (m w)) = cwd w) ->
  keeps legal_kept m.
Proof.
  intros H w [H1 H2]. destruct (H w) as [E1 E2].
  split; [now rewrite E1 | now rewrite E2].
Qed.

Ltac legal_frame :=
  repeat first
    [ apply legal_mkdir | apply legal_write_file | apply legal_remove_file
    | apply legal_same_fs; intro; unfold os.path_exists, os.path_isdir,
        os.path_getsize, os.read_file, os.path_relpath, os.walk, print,
        print_end, remove;
      repeat match goal with
             | |- context [match ?x with _ => _ end] => destruct x
             end; now split
    | frame_step legal_kept_refl legal_kept_trans ].

Lemma legal_makedirs_rec fuel : forall name ok,
  keeps legal_kept (os.makedirs_rec fuel name ok).
Proof.
  induction fuel as [|k IH]; intros name ok; cbn [os.makedirs_rec].
  - apply (keeps_raise _ legal_kept_refl).
  - unfold os.makedirs_body. legal_frame. apply IH.
Qed.

Lemma legal_is_valid_image (L : Libs) p : keeps legal_kept (is_valid_image L p).
Proof.
  intro w. destruct (is_valid_image_pure L p w) as (b & ->).
  apply legal_kept_refl.
Qed.

Lemma legal_sip (L : Libs) i o mn am :
  keeps legal_kept (remove_background_high_quality L i o mn am).
Proof.
  unfold remove_background_high_quality, remove_background_try,
    Image_open_bytes, Image_convert, Image_save_bytes, Image_open,
    Image_save, new_session, os.makedirs.
  repeat first
    [ apply legal_is_valid_image | apply legal_makedirs_rec
    | progress legal_frame ].
Qed.

Lemma keeps_for_each (P : World -> World -> Prop) {A S}
      (body : A -> S -> M S) (l : list A) :
  (forall w, P w w) -> (forall a b c, P a b -> P b c -> P a c) ->
  (forall a s, keeps P (body a s)) ->
  forall s, keeps P (for_each l body s).
Proof.
  intros Hr Ht Hb. induction l as [|a l IH]; intro s; cbn [for_each].
  - now apply keeps_ret.
  - apply keeps_bind; auto.
Qed.

(** The program keeps the names of the tree legal. *)
Lemma legal_walker (L : Libs) input_dir output_dir :
  keeps legal_kept (process_directory_high_quality L input_dir output_dir).
Proof.
  unfold process_directory_high_quality.
  apply (keeps_bind _ legal_kept_trans); [legal_frame|]. intro found.
  destruct (negb found); [legal_frame|].
  apply (keeps_bind _ legal_kept_trans); [legal_frame|]. intro walked.
  destruct (collect_image_files walked); [legal_frame|].
  apply (keeps_bind _ legal_kept_trans); [legal_frame|]. intros _.
  apply keeps_for_each;
    [apply legal_kept_refl | apply legal_kept_trans|].
  intros [i img] [sc fc]. unfold process_one, output_file_for.
  apply (keeps_bind _ legal_kept_trans); [legal_frame|]. intros _.
  apply (keeps_bind _ legal_kept_trans); [legal_frame|]. intro output_file.
  apply (keeps_bind _ legal_kept_trans); [apply legal_sip|]. intro ok.
  legal_frame.
Qed.

Lemma names_stay_legal (L : Libs) input_dir output_dir w :
  legal_world w ->
  legal_world (snd (process_directory_high_quality L input_dir output_dir w)).
Proof. apply legal_walker. Qed.

Lemma stat_valid_names w p n :
  valid_names (fs w) = true -> os.stat w p = inr n -> valid_names n = true.
Proof.
  unfold os.stat. intros Hv H.
  destruct (os.resolve w p) as [e|comps]; [discriminate|].
  destruct (FS.lookup (fs w) comps) as [n'|] eqn:E; [|discriminate].
  injection H as <-. eapply valid_names_lookup; eassumption.
Qed.

(** ** The claims *)

(** *** The Image Validator *)



(** *** The Single-Image Processor *)



(** A failure of the inference step, for example. *)
Example inference_failure_is_reported :
  remove_background_high_quality Demo.libs_failing_inference
                                 "photo.jpg" "out/photo.png" None None
                                 Demo.photo_world
  = (Return false,
     print_text ("❌ Erro ao processar: inference failed" ++ newline)
       (log_remove
          {| rc_data := Demo.png 150;
             rc_session := Session "u2net";
             rc_alpha_matting := true;
             rc_alpha_matting_foreground_threshold := 240;
             rc_alpha_matting_background_threshold := 10;
             rc_alpha_matting_erode_size := 10 |}
          (print_text ("🔄 Processando com qualidade: photo.jpg" ++ newline)
                      Demo.photo_world))).
Proof. vm_compute. reflexivity. Qed.



(** On a valid image, the record of the engine calls holds one call. *)
Example remove_is_called_once :
  remove_calls
    (snd (remove_background_high_quality Demo.libs "photo.jpg" "out/photo.png"
                                         None None Demo.photo_world))
  = [ {| rc_data := Demo.png 150;
         rc_session := Session "u2net";
         rc_alpha_matting := true;
         rc_alpha_matting_foreground_threshold := 240;
         rc_alpha_matting_background_threshold := 10;
         rc_alpha_matting_erode_size := 10 |} ].
Proof. vm_compute. reflexivity. Qed.

(** C6 fails on the code.  When the output path has no directory
    component, [os.path.dirname] is the empty string and
    [os.makedirs('')] raises [FileNotFoundError]: the processor returns
    [False] for an image that the validator accepts, and writes
    nothing. *)
Theorem output_without_directory_fails
        (L : Libs) (input_path output_path : string)
        (model_name : option string) (alpha_matting : option bool) (w : World) :
  rfind sep output_path = -1 ->
  fst (is_valid_image L input_path w) = Return true ->
  fst (remove_background_high_quality L input_path output_path
                                      model_name alpha_matting w)
  = Return false /\
  fs (snd (remove_background_high_quality L input_path output_path
                                          model_name alpha_matting w))
  = fs w.
Proof.
  intros Hsep _.
  rewrite sip_catches. unfold try_except.
  destruct (try_without_directory L input_path output_path
              (default "u2net" model_name) (default true alpha_matting)
              w Hsep) as ([[|]|e] & w1 & -> & Hr & Hfs).
  - congruence.
  - now split.
  - split; [reflexivity | exact Hfs].
Qed.

Lemma output_without_directory_fails_witness :
  rfind sep "photo_sem_fundo.png" = -1 /\
  fst (is_valid_image Demo.libs "photo.jpg" Demo.photo_world) = Return true /\
  fst (remove_background_high_quality Demo.libs "photo.jpg"
                                      "photo_sem_fundo.png" None None
                                      Demo.photo_world)
  = Return false /\
  fs (snd (remove_background_high_quality Demo.libs "photo.jpg"
                                          "photo_sem_fundo.png" None None
                                          Demo.photo_world))
  = fs Demo.photo_world.
Proof.
  split; [reflexivity|]. split; [vm_compute; reflexivity|].
  apply (output_without_directory_fails Demo.libs "photo.jpg"
           "photo_sem_fundo.png" None None Demo.photo_world).
  - reflexivity.
  - vm_compute. reflexivity.
Defined.

(** The automatic output path of the menu (lines 165-166) is such a path
    whenever the input is named without a directory: with an empty answer
    for the output, choice 1 reports a failure for every file of the
    working directory, and writes nothing. *)
Lemma automatic_output_has_no_directory i :
  has_char sep i = false ->
  rfind sep (fst (splitext i) ++ "_sem_fundo.png") = -1.
Proof.
  intro H. apply rfind_absent. rewrite has_char_app.
  fold (stem i). now rewrite (stem_no_sep i H).
Qed.

Lemma main_choice_1_in_working_directory (L : Libs) i w :
  i <> "" -> has_char sep i = false ->
  exists w1,
    fs w1 = fs w /\
    main_choice_1 L i "" w
    = (Return tt, print_text ("😞 Falha no processamento" ++ newline) w1).
Proof.
  intros Hne Hsep. unfold main_choice_1.
  apply String.eqb_neq in Hne. rewrite Hne. cbn [String.eqb].
  destruct (sip_without_directory L i (fst (splitext i) ++ "_sem_fundo.png")
              None None w (automatic_output_has_no_directory i Hsep))
    as (w1 & Hrun & Hfs).
  rewrite (bind_run _ _ _ _ _ Hrun).
  exists w1. split; [assumption | reflexivity].
Qed.

(** *** The Directory Walker *)

Lemma file_under_batch_IMG : file_under Demo.batch_dir ["sub"] "IMG.PNG".
Proof.
  exists (Demo.png 200). cbn [app].
  eapply descends_step; [right; right; left; reflexivity|].
  eapply descends_step; [left; reflexivity|]. constructor.
Qed.


(** Both spellings of [png] are listed, the text file is not. *)
Example upper_and_lower_case_are_listed :
  In "in/sub/IMG.PNG" (image_files_at Demo.batch_world "in") /\
  In "in/a.png" (image_files_at Demo.batch_world "in") /\
  ~ In "in/b.txt" (image_files_at Demo.batch_world "in").
Proof.
  vm_compute. repeat split; [tauto | tauto |].
  intros [H|[H|[H|[]]]]; discriminate.
Qed.

(** C8.  When the input root does not exist, or no file below it has a
    supported extension, the list of the walker is empty, the walker
    returns [(0, 0)], and the world it leaves differs from the one it
    found by one printed diagnostic only: the file system and the record
    of engine calls are unchanged.  The processor, which prints on every
    call ([sip_prints]), has not been called. *)
Theorem nothing_to_do
        (L : Libs) (input_dir output_dir : string) (w : World) :
  fst (os.path_exists input_dir w) = Return false \/
  (forall n ds f,
      os.stat w input_dir = inr n -> file_under n ds f ->
      is_supported f = false) ->
  image_files_at w input_dir = [] /\
  exists w' msg,
    process_directory_high_quality L input_dir output_dir w
    = (Return (0, 0), w') /\
    fs w' = fs w /\
    remove_calls w' = remove_calls w /\
    stdout w' = (stdout w ++ [msg])%list /\
    (msg = msg_dir_not_found input_dir \/ msg = msg_no_images input_dir).
Proof.
  intro H. pose proof (walker_run L input_dir output_dir w) as Hrun.
  unfold os.path_exists in H. cbn [fst] in H.
  unfold image_files_at in *.
  destruct (os.stat w input_dir) as [e|n] eqn:Hst.
  - split; [reflexivity|]. rewrite Hrun. do 2 eexists.
    repeat split. now left.
  - destruct H as [H|H]; [discriminate|].
    destruct (collect_image_files (FS.walk input_dir n)) as [|x l] eqn:Ef.
    + split; [reflexivity|]. rewrite Hrun. do 2 eexists.
      repeat split. now right.
    + exfalso.
      assert (Hx : In x (collect_image_files (FS.walk input_dir n)))
        by (rewrite Ef; now left).
      apply image_files_spec in Hx. destruct Hx as (ds & f & Hf & Hs & _).
      rewrite (H n ds f eq_refl Hf) in Hs. discriminate.
Qed.

Lemma nothing_to_do_witness :
  (fst (os.path_exists "nope" Demo.batch_world) = Return false \/
   (forall n ds f,
       os.stat Demo.batch_world "nope" = inr n -> file_under n ds f ->
       is_supported f = false)) /\
  image_files_at Demo.batch_world "nope" = [] /\
  exists w' msg,
    process_directory_high_quality Demo.libs "nope" "out" Demo.batch_world
    = (Return (0, 0), w') /\
    fs w' = fs Demo.batch_world /\
    remove_calls w' = remove_calls Demo.batch_world /\
    stdout w' = (stdout Demo.batch_world ++ [msg])%list /\
    (msg = msg_dir_not_found "nope" \/ msg = msg_no_images "nope").
Proof.
  split; [left; reflexivity|].
  apply (nothing_to_do Demo.libs "nope" "out" Demo.batch_world).
  left. reflexivity.
Defined.

(** A directory that holds no image. *)
Example directory_without_images :
  let w := Demo.world_of (Demo.in_home
             [("docs", Dir [("b.txt", File (Demo.junk 300));
                            ("notes", Dir [("c.PDF", File (Demo.junk 10))])])]) in
  process_directory_high_quality Demo.libs "docs" "out" w
  = (Return (0, 0), print_text (msg_no_images "docs") w).
Proof. vm_compute. reflexivity. Qed.


(** With the output root inside the input root, the outputs of a batch
    have a supported extension and would be listed by a second run, but
    the run that writes them counts the three files it started with. *)
Example outputs_are_not_reprocessed :
  let run := process_directory_high_quality Demo.libs "in" "in/out"
                                            Demo.batch_world in
  fst run = Return (2, 1) /\
  image_files_at Demo.batch_world "in"
  = ["in/a.png"; "in/sub/IMG.PNG"; "in/sub/bad.jpg"] /\
  image_files_at (snd run) "in"
  = ["in/a.png"; "in/sub/IMG.PNG"; "in/sub/bad.jpg";
     "in/out/a_sem_fundo.png"; "in/out/sub/IMG_sem_fundo.png"].
Proof. vm_compute. repeat split. Qed.

(** C2.  When, of the calls of a batch, [N] return [True] and one returns
    [False], the walker returns [(N, 1)]; the failing call does not end
    the batch: every file of the list, the ones after the failing file
    too, has been handed to the processor, and the list has [N + 1]
    files. *)
Theorem one_failure_does_not_abort
        (L : Libs) (input_dir output_dir : string) (w : World)
        (tr : list invocation) (w' : World) (N : Z) :
  image_files_at w input_dir <> [] ->
  batch_trace L input_dir output_dir
              (Z.of_nat (length (image_files_at w input_dir)))
              (enumerate (image_files_at w input_dir) 1)
              (batch_start w input_dir)
  = (tr, w') ->
  successes tr = N ->
  failures tr = 1 ->
  process_directory_high_quality L input_dir output_dir w
  = (Return (N, 1), w') /\
  map inv_input tr = image_files_at w input_dir /\
  Z.of_nat (length (image_files_at w input_dir)) = N + 1.
Proof.
  intros Hne Htr HN HF.
  destruct (walker_batch L input_dir output_dir w)
    as (tr0 & w0 & Hrun & Hmap & Hb).
  rewrite (Hb Hne) in Htr. injection Htr as -> ->.
  rewrite HN, HF in Hrun. repeat split; [exact Hrun | exact Hmap |].
  rewrite <- Hmap, length_map, <- tally_total. lia.
Qed.

Lemma one_failure_does_not_abort_witness :
  image_files_at Demo.batch_world "in" <> [] /\
  successes (fst Demo.batch_run) = 2 /\
  failures (fst Demo.batch_run) = 1 /\
  process_directory_high_quality Demo.libs "in" "out" Demo.batch_world
  = (Return (2, 1), snd Demo.batch_run) /\
  map inv_input (fst Demo.batch_run) = image_files_at Demo.batch_world "in" /\
  Z.of_nat (length (image_files_at Demo.batch_world "in")) = 2 + 1.
Proof.
  split; [vm_compute; discriminate|].
  split; [vm_compute; reflexivity|].
  split; [vm_compute; reflexivity|].
  apply (one_failure_does_not_abort Demo.libs "in" "out" Demo.batch_world
           (fst Demo.batch_run) (snd Demo.batch_run) 2).
  - vm_compute. discriminate.
  - apply surjective_pairing.
  - vm_compute. reflexivity.
  - vm_compute. reflexivity.
Defined.

(** The scenario of the specification: [in/] holds [a.png] and [b.txt];
    the batch writes [out/a_sem_fundo.png], leaves [b.txt] alone and
    returns one success and no failure. *)
Example scenario_a_png_b_txt :
  let w := Demo.world_of (Demo.in_home
             [("in", Dir [("a.png", File (Demo.png 120));
                          ("b.txt", File (Demo.junk 300))])]) in
  let run := process_directory_high_quality Demo.libs "in" "out" w in
  fst run = Return (1, 0) /\
  image_files_at w "in" = ["in/a.png"] /\
  os.stat (snd run) "out/a_sem_fundo.png" = inr (File (Demo.png 120)) /\
  os.stat (snd run) "in/b.txt" = inr (File (Demo.junk 300)) /\
  FS.lookup (fs (snd run)) ["home"; "u"; "out"]
  = Some (Dir [("a_sem_fundo.png", File (Demo.png 120))]).
Proof. vm_compute. repeat split. Qed.

(** * Further properties of the program *)

(** ** The menu *)

Lemma said_app l1 l2 w : said (l1 ++ l2) w = said l2 (said l1 w).
Proof. unfold said. apply fold_left_app. Qed.

Lemma said_one s w : said [s] w = print_text (s ++ newline) w.
Proof. reflexivity. Qed.

Lemma said_fs l : forall w, fs (said l w) = fs w.
Proof. induction l as [|s l IH]; intro w; [reflexivity|]. cbn. now rewrite IH. Qed.

Lemma said_calls l : forall w, remove_calls (said l w) = remove_calls w.
Proof. induction l as [|s l IH]; intro w; [reflexivity|]. cbn. now rewrite IH. Qed.

Lemma said_stdout l : forall w,
  stdout (said l w) = (stdout w ++ map (fun s => (s ++ newline)%string) l)%list.
Proof.
  induction l as [|s l IH]; intro w; cbn [said fold_left map].
  - now rewrite app_nil_r.
  - fold (said l (print_text (s ++ newline) w)). rewrite IH. cbn [stdout print_text].
    now rewrite <- app_assoc.
Qed.

(** X1.  [check_dependencies] returns [True] exactly when both imports
    succeed.  It raises only what the first failing import raised, and
    only when that is not an [ImportError].  When it returns [False] it
    has printed two lines, the first with the message of the first import
    that failed, and changed nothing else; in the other cases it has not
    even printed. *)
Theorem check_dependencies_contract (L : Libraries) (w : World) :
  (fst (check_dependencies L w) = Return true <->
   import_rembg L = None /\ import_PIL L = None) /\
  (forall e, fst (check_dependencies L w) = Raise e ->
             first_import_failure L = Some e /\ is_ImportError e = false) /\
  (fst (check_dependencies L w) = Return false ->
   exists e, first_import_failure L = Some e /\
             snd (check_dependencies L w) = said [msg_missing e; msg_pip] w) /\
  (fst (check_dependencies L w) <> Return false ->
   snd (check_dependencies L w) = w).
Proof.
  unfold check_dependencies, first_import_failure, try_except, bind,
    import_module, ret, raise.
  destruct (import_rembg L) as [e|]; [|destruct (import_PIL L) as [e|]].
  - destruct (is_ImportError e) eqn:E; cbn [fst snd].
    + repeat split; try discriminate; try tauto.
      * intros [H _]. discriminate.
      * intros _. now exists e.
    + repeat split; try discriminate; try congruence.
      * intros [H _]. discriminate.
  - destruct (is_ImportError e) eqn:E; cbn [fst snd].
    + repeat split; try discriminate; try tauto.
      * intros [_ H]. discriminate.
      * intros _. now exists e.
    + repeat split; try discriminate; try congruence.
      * intros [_ H]. discriminate.
  - cbn [fst snd]. repeat split; try discriminate.
Qed.

Local Open Scope io_scope.

Lemma io_bind_run {A B} (m : IO A) (k : A -> IO B) t w a t1 w1 :
  m t w = (Done a, t1, w1) -> io_bind m k t w = k a t1 w1.
Proof. unfold io_bind. now intros ->. Qed.

Lemma lift_io_print {B} s (k : unit -> IO B) t w :
  io_bind (lift_io (print s)) k t w = k tt t (print_text (s ++ newline) w).
Proof. reflexivity. Qed.

Lemma check_dependencies_run (L : Libs) w :
  check_dependencies L w
  = match first_import_failure L with
    | None => (Return true, w)
    | Some e =>
        if is_ImportError e then (Return false, said [msg_missing e; msg_pip] w)
        else (Raise e, w)
    end.
Proof.
  unfold check_dependencies, first_import_failure, try_except, bind,
    import_module, ret, raise.
  destruct (import_rembg L) as [e|]; [|destruct (import_PIL L) as [e|]];
    try destruct (is_ImportError e); reflexivity.
Qed.

(** X2.  When an import fails with an [ImportError], [main] prints the
    banner and the two lines of [check_dependencies] and returns: no
    prompt is shown, no key is read, whatever the fuel, and the file
    system and the record of engine calls are what they were. *)
Theorem main_stops_without_dependencies
        (L : Libs) (fuel : nat) (t : terminal) (w : World) (msg : string) :
  first_import_failure L = Some (ImportError msg) ->
  main L fuel t w
  = (Done tt, t, said (banner ++ [msg_missing (ImportError msg); msg_pip]) w).
Proof.
  intro H. unfold main. rewrite !lift_io_print.
  unfold io_bind at 1, lift_io at 1. rewrite check_dependencies_run, H.
  reflexivity.
Qed.


Lemma main_stops_without_dependencies_witness :
  first_import_failure Demo.libs_without_rembg
  = Some (ImportError "No module named 'rembg'") /\
  main Demo.libs_without_rembg 3 (Demo.typing [Line "1"]) Demo.photo_world
  = (Done tt, Demo.typing [Line "1"],
     said (banner ++ [msg_missing (ImportError "No module named 'rembg'");
                      msg_pip]) Demo.photo_world).
Proof.
  split; [reflexivity|].
  apply (main_stops_without_dependencies Demo.libs_without_rembg 3
           (Demo.typing [Line "1"]) Demo.photo_world
           "No module named 'rembg'").
  reflexivity.
Defined.

Lemma main_with_dependencies (L : Libs) fuel t w :
  first_import_failure L = None ->
  main L fuel t w = while_true fuel (main_turn L) t (said (banner ++ menu) w).
Proof.
  intro H. unfold main. rewrite !lift_io_print.
  unfold io_bind at 1, lift_io at 1. rewrite check_dependencies_run, H.
  cbn [negb]. rewrite !lift_io_print. reflexivity.
Qed.

Lemma asked_asked l1 l2 r1 r2 t :
  asked l2 r2 (asked l1 r1 t) = asked (l1 ++ l2) r2 t.
Proof. unfold asked. cbn. now rewrite app_assoc. Qed.

Lemma turn_at_end_of_input (L : Libs) t w :
  pending t = [] ->
  main_turn L t w = (Done Next, asked [prompt_choice] [] t, said [msg_eof] w).
Proof.
  intro H. unfold main_turn, main_try, io_try, io_bind at 1, input.
  rewrite H. reflexivity.
Qed.

Lemma loop_at_end_of_input (L : Libs) fuel : forall t w,
  pending t = [] ->
  while_true fuel (main_turn L) t w
  = (Running, asked (repeat prompt_choice fuel) [] t,
     said (repeat msg_eof fuel) w).
Proof.
  induction fuel as [|k IH]; intros t w H.
  - cbn. unfold asked. rewrite app_nil_r. now destruct t; cbn in *; subst.
  - cbn [while_true]. rewrite (io_bind_run _ _ _ _ _ _ _ (turn_at_end_of_input L t w H)).
    rewrite IH by reflexivity. rewrite asked_asked.
    change (repeat msg_eof (S k)) with ([msg_eof] ++ repeat msg_eof k)%list.
    now rewrite said_app.
Qed.

(** X3.  With the input at its end, [main] never returns: [input()]
    raises [EOFError], the handler of line 206 prints it and the loop
    starts over.  After [fuel] turns the program is still running and has
    shown the prompt and printed the error [fuel] times. *)
Theorem main_spins_at_end_of_input
        (L : Libs) (fuel : nat) (t : terminal) (w : World) :
  first_import_failure L = None ->
  pending t = [] ->
  main L fuel t w
  = (Running, asked (repeat prompt_choice fuel) [] t,
     said (banner ++ menu ++ repeat msg_eof fuel) w).
Proof.
  intros HL Ht. rewrite main_with_dependencies by assumption.
  rewrite loop_at_end_of_input by assumption.
  now rewrite app_assoc, (said_app (banner ++ menu)).
Qed.

Lemma main_spins_at_end_of_input_witness :
  first_import_failure Demo.libs = None /\
  pending (Demo.typing []) = [] /\
  main Demo.libs 3 (Demo.typing []) Demo.photo_world
  = (Running, asked (repeat prompt_choice 3) [] (Demo.typing []),
     said (banner ++ menu ++ repeat msg_eof 3) Demo.photo_world).
Proof.
  split; [reflexivity|]. split; [reflexivity|].
  apply (main_spins_at_end_of_input Demo.libs 3 (Demo.typing [])
                                    Demo.photo_world);
    reflexivity.
Defined.

Ltac turn_step :=
  match goal with
  | |- context [match ?r with [] => _ | _ :: _ => _ end] =>
      is_var r; destruct r as [|[?| |] ?]
  | |- context [String.eqb ?a ?b] => destruct (String.eqb a b) eqn:?
  | |- context [remove_background_high_quality (libraries ?L) ?i ?o ?m ?a ?w] =>
      let b := fresh "ok" in
      let w1 := fresh "w" in
      let E := fresh "E" in
      destruct (sip_total L i o m a w) as (b & w1 & E); rewrite E; destruct b
  | |- context [process_directory_high_quality (libraries ?L) ?i ?o ?w] =>
      let tr := fresh "tr" in
      let w1 := fresh "w" in
      let E := fresh "E" in
      destruct (walker_batch L i o w) as (tr & w1 & E & _); rewrite E
  | |- context [Z.ltb ?a ?b] => destruct (Z.ltb a b)
  end;
  cbv beta iota zeta; cbn [pending prompts].

(** What a turn of the loop does, whatever is typed: it ends normally,
    having used at least one key unless none was left; and a turn that
    goes on to the next one has printed one line and done nothing
    else. *)
Lemma main_turn_step (L : Libs) t w :
  exists fl t' w',
    main_turn L t w = (Done fl, t', w') /\
    ((length (pending t') < length (pending t))%nat \/
     (pending t = [] /\ pending t' = [])) /\
    (fl = Next ->
     fs w' = fs w /\ remove_calls w' = remove_calls w /\
     exists msg, stdout w' = (stdout w ++ [msg])%list).
Proof.
  unfold main_turn, main_try, io_try, io_bind, input, lift_io, io_ret,
    print, print_end.
  destruct (pending t) as [|[c| |] r]; cbv beta iota zeta;
    cbn [pending prompts]; repeat turn_step;
    (do 3 eexists; split; [reflexivity|]; split;
     [ first [ right; split; reflexivity | left; cbn [pending length]; lia ]
     | first [ discriminate
             | intros _; repeat split; eexists; reflexivity ] ]).
Qed.






(** X5.  A turn of the loop after which the menu asks again (an invalid
    option, an empty path, an end of file) has printed exactly one line
    and has changed neither the file system nor the record of engine
    calls: no exception of the two processors reaches the handler of line
    206. *)
Theorem a_turn_that_asks_again_changes_nothing
        (L : Libs) (t t' : terminal) (w w' : World) :
  main_turn L t w = (Done Next, t', w') ->
  fs w' = fs w /\ remove_calls w' = remove_calls w /\
  exists msg, stdout w' = (stdout w ++ [msg])%list.
Proof.
  intro H. destruct (main_turn_step L t w) as (fl & t1 & w1 & H1 & _ & Hn).
  rewrite H in H1. injection H1 as <- <- <-. now apply Hn.
Qed.

Lemma a_turn_that_asks_again_changes_nothing_witness :
  main_turn Demo.libs (Demo.typing [Line "7"]) Demo.batch_world
  = (Done Next, asked [prompt_choice] [] (Demo.typing [Line "7"]),
     said ["❌ Opção inválida! Digite 1, 2 ou 3."] Demo.batch_world) /\
  fs (said ["❌ Opção inválida! Digite 1, 2 ou 3."] Demo.batch_world)
  = fs Demo.batch_world /\
  remove_calls (said ["❌ Opção inválida! Digite 1, 2 ou 3."] Demo.batch_world)
  = remove_calls Demo.batch_world /\
  exists msg,
    stdout (said ["❌ Opção inválida! Digite 1, 2 ou 3."] Demo.batch_world)
    = (stdout Demo.batch_world ++ [msg])%list.
Proof.
  split; [reflexivity|].
  apply (a_turn_that_asks_again_changes_nothing Demo.libs
           (Demo.typing [Line "7"])
           (asked [prompt_choice] [] (Demo.typing [Line "7"]))).
  reflexivity.
Defined.

(** X6.  The interrupt key at any of the prompts (the option, the input
    path or directory, the output path or directory) ends the loop: the
    handler of line 203 prints the farewell, and nothing has been
    processed. *)
Theorem interrupt_at_a_prompt_ends_main
        (L : Libs) (t : terminal) (w : World)
        (answers : list string) (rest : list key) :
  pending t = (map Line answers ++ Interrupt :: rest)%list ->
  answers = [] \/
  (exists c, answers = [c] /\ (strip c = "1" \/ strip c = "2")) \/
  (exists c p, answers = [c; p] /\ (strip c = "1" \/ strip c = "2") /\
               strip p <> "") ->
  exists shown,
    main_turn L t w = (Done Break, asked shown rest t, said [msg_bye] w).
Proof.
  intros Hp Ha.
  unfold main_turn, main_try, io_try, io_bind, input, lift_io, io_ret,
    print, print_end.
  destruct Ha as [->|[(c & -> & Hc)|(c & p & -> & Hc & Hpne)]];
    rewrite Hp; cbn [map app]; cbv beta iota zeta; cbn [pending prompts].
  - eexists [_]. reflexivity.
  - destruct Hc as [Hc|Hc]; rewrite Hc; cbn [String.eqb Ascii.eqb Bool.eqb];
      cbv beta iota zeta; cbn [pending prompts];
      eexists [_; _]; unfold asked; now rewrite <- app_assoc.
  - apply String.eqb_neq in Hpne.
    destruct Hc as [Hc|Hc]; rewrite Hc; cbn [String.eqb Ascii.eqb Bool.eqb];
      cbv beta iota zeta; cbn [pending prompts]; rewrite Hpne;
      cbv beta iota zeta; cbn [pending prompts];
      eexists [_; _; _]; unfold asked; now rewrite <- !app_assoc.
Qed.

Lemma interrupt_at_a_prompt_ends_main_witness :
  exists shown,
    main_turn Demo.libs (Demo.typing [Line " 2"; Line "in"; Interrupt])
              Demo.batch_world
    = (Done Break,
       asked shown [] (Demo.typing [Line " 2"; Line "in"; Interrupt]),
       said [msg_bye] Demo.batch_world).
Proof.
  apply (interrupt_at_a_prompt_ends_main Demo.libs
           (Demo.typing [Line " 2"; Line "in"; Interrupt]) Demo.batch_world
           [" 2"; "in"] []).
  - reflexivity.
  - right. right. exists " 2", "in". repeat split.
    + right. reflexivity.
    + discriminate.
Defined.









(** ** The names of the outputs *)

(** Every path is a directory part followed by a name without a
    separator. *)
Lemma path_parts p :
  exists X f, p = X ++ f /\ dir_like X /\ has_char sep f = false.
Proof.
  induction p as [|a r (X & f & -> & HX & Hf)].
  - exists "", "". repeat split. now left.
  - destruct (String.eqb_spec X "") as [->|HXne].
    + destruct (Ascii.eqb a sep) eqn:Ea.
      * apply Ascii.eqb_eq in Ea. subst a.
        exists (String sep ""), f. repeat split; [|assumption]. now right.
      * exists "", (String a f). repeat split; [now left|].
        cbn [has_char]. now rewrite Ea.
    + exists (String a X), f. repeat split; [|assumption].
      right. destruct HX as [->|HX]; [congruence|].
      unfold endswith_sep in *. destruct X as [|b X']; [congruence|].
      exact HX.
Qed.

Lemma split_app X f :
  dir_like X -> has_char sep f = false ->
  split (X ++ f)
  = (if (negb (String.eqb X "") && negb (all_sep X))%bool
     then rstrip_sep X else X, f).
Proof.
  intros HX Hf. unfold split.
  rewrite rfind_app, Hf, (dir_like_rfind X HX).
  replace (len X - 1 + 1) with (len X + 0) by lia.
  rewrite slice_to_app, slice_from_app by lia.
  change (slice_to f 0) with "". change (slice_from f 0) with f.
  now rewrite sapp_nil_r.
Qed.

Lemma dirname_app X f g :
  dir_like X -> has_char sep f = false -> has_char sep g = false ->
  dirname (X ++ f) = dirname (X ++ g).
Proof.
  intros HX Hf Hg. unfold dirname. now rewrite !split_app.
Qed.

Lemma sfx_no_sep f : has_char sep f = false -> has_char sep (stem f ++ sfx) = false.
Proof. intro H. rewrite has_char_app, (stem_no_sep f H). reflexivity. Qed.

Lemma automatic_output_parts input_path :
  exists X f,
    input_path = X ++ f /\ dir_like X /\ has_char sep f = false /\
    automatic_output input_path = X ++ (stem f ++ sfx).
Proof.
  destruct (path_parts input_path) as (X & f & -> & HX & Hf).
  exists X, f. repeat split; try assumption.
  unfold automatic_output. rewrite splitext_app by assumption. cbn [fst].
  now rewrite sapp_assoc.
Qed.

(** X9.  The automatic output path of lines 165-166 has the directory of
    the input path, and its name is the name of the input without its
    extension, followed by [_sem_fundo.png]. *)
Theorem automatic_output_lies_beside_the_input (input_path : string) :
  dirname (automatic_output input_path) = dirname input_path /\
  basename (automatic_output input_path)
  = stem (basename input_path) ++ "_sem_fundo.png".
Proof.
  destruct (automatic_output_parts input_path) as (X & f & -> & HX & Hf & ->).
  rewrite !basename_app by (assumption || now apply sfx_no_sep).
  split; [|reflexivity].
  apply dirname_app; [assumption | now apply sfx_no_sep | assumption].
Qed.

Lemma sapp_cancel_l a b c : a ++ b = a ++ c -> b = c.
Proof. induction a as [|x a IH]; cbn; [auto|]. intro H. injection H. auto. Qed.

Lemma sapp_cancel_r a b c : a ++ c = b ++ c -> a = b.
Proof.
  intro H. assert (Hl : String.length a = String.length b).
  { apply (f_equal String.length) in H. rewrite !slength_app in H. lia. }
  revert b H Hl. induction a as [|x a IH]; intros [|y b] H Hl;
    cbn in Hl; try discriminate; [reflexivity|].
  cbn in H. injection H as -> H. f_equal. apply IH; [assumption | lia].
Qed.

Lemma mirrored_output_parts out ds f :
  Forall (fun x => valid_name x = true) (ds ++ [f]) ->
  mirrored_output out ds f
  = dirpart out ++ join_sep (ds ++ [stem f ++ sfx]) /\
  Forall plain (ds ++ [stem f ++ sfx]).
Proof.
  intro Hv. pose proof (Forall_valid_plain _ Hv) as Hp.
  apply Forall_app in Hp. destruct Hp as [Hds Hf]. inversion Hf; subst.
  assert (Hall : Forall plain (ds ++ [stem f ++ sfx])).
  { apply Forall_app. split; [assumption|].
    constructor; [now apply plain_stem_sfx | constructor]. }
  split; [|exact Hall].
  unfold mirrored_output. fold sfx. apply join_all_plain; [|exact Hall].
  destruct ds; discriminate.
Qed.

Lemma mirrored_output_inj out ds1 f1 ds2 f2 :
  Forall (fun x => valid_name x = true) (ds1 ++ [f1]) ->
  Forall (fun x => valid_name x = true) (ds2 ++ [f2]) ->
  mirrored_output out ds1 f1 = mirrored_output out ds2 f2 ->
  ds1 = ds2 /\ stem f1 = stem f2.
Proof.
  intros H1 H2 E.
  destruct (mirrored_output_parts out ds1 f1 H1) as [E1 P1].
  destruct (mirrored_output_parts out ds2 f2 H2) as [E2 P2].
  rewrite E1, E2 in E. apply sapp_cancel_l in E.
  apply (f_equal split_sep) in E.
  rewrite !split_sep_join_sep in E
    by (assumption || (intro Hn; destruct ds1, ds2; discriminate)
        || (destruct ds1; discriminate) || (destruct ds2; discriminate)).
  apply app_inj_tail in E. destruct E as [-> E].
  split; [reflexivity|]. now apply sapp_cancel_r in E.
Qed.

(** X10.  The output paths that lines 129-131 compute for two files of
    the input tree are equal exactly when the files lie in the same
    subdirectory and their names differ in the extension only: [a.jpg]
    and [a.png] are written to the same [a_sem_fundo.png]. *)
Theorem outputs_coincide_for_equal_stems
        (input_dir output_dir : string) (w : World)
        (ds1 ds2 : list string) (f1 f2 : string) :
  input_dir <> "" ->
  Forall (fun x => valid_name x = true) (ds1 ++ [f1]) ->
  Forall (fun x => valid_name x = true) (ds2 ++ [f2]) ->
  (fst (output_file_for input_dir output_dir
                        (walked_path input_dir ds1 f1) w)
   = fst (output_file_for input_dir output_dir
                          (walked_path input_dir ds2 f2) w)
   <-> ds1 = ds2 /\ stem f1 = stem f2).
Proof.
  intros Hin H1 H2.
  rewrite !output_file_for_walked by assumption. cbn [fst]. split.
  - intro E. injection E as E. now apply mirrored_output_inj with output_dir.
  - intros [-> E]. unfold mirrored_output. now rewrite E.
Qed.

Lemma outputs_coincide_for_equal_stems_witness :
  "in" <> "" /\
  Forall (fun x => valid_name x = true) ([] ++ ["a.jpg"]) /\
  Forall (fun x => valid_name x = true) ([] ++ ["a.png"]) /\
  (fst (output_file_for "in" "out" (walked_path "in" [] "a.jpg")
                        Demo.batch_world)
   = fst (output_file_for "in" "out" (walked_path "in" [] "a.png")
                          Demo.batch_world)
   <-> @nil string = [] /\ stem "a.jpg" = stem "a.png").
Proof.
  split; [discriminate|].
  split; [repeat constructor|]. split; [repeat constructor|].
  apply (outputs_coincide_for_equal_stems "in" "out" Demo.batch_world
           [] [] "a.jpg" "a.png").
  - discriminate.
  - repeat constructor.
  - repeat constructor.
Defined.

(** The scan of [splitext] stops at a character that is not a dot. *)
Lemma splitext_scan_stops p d n : forall j k,
  (k < n)%nat ->
  String.eqb (take 1 (slice_from p (j + Z.of_nat k))) "." = false ->
  splitext_scan p d j n = (slice_to p d, slice_from p d).
Proof.
  induction n as [|n IH]; intros j k Hk Hc; [lia|].
  cbn [splitext_scan].
  destruct (String.eqb (take 1 (slice_from p j)) ".") eqn:E; [|reflexivity].
  destruct k as [|k].
  - rewrite Z.add_0_r in Hc. congruence.
  - apply (IH (j + 1) k); [lia|].
    replace (j + 1 + Z.of_nat k) with (j + Z.of_nat (S k)) by lia. exact Hc.
Qed.

Lemma splitext_tagged S :
  has_char sep S = false ->
  splitext (S ++ sfx) = (S ++ "_sem_fundo", ".png").
Proof.
  intro HS. unfold splitext.
  rewrite !rfind_app. change (has_char sep sfx) with false.
  change (has_char extsep sfx) with true. cbv iota.
  rewrite (rfind_absent sep S HS). change (rfind extsep sfx) with 10.
  pose proof (len_nonneg S) as Hl.
  replace (-1 <? len S + 10) with true by (symmetry; apply Z.ltb_lt; lia).
  rewrite (splitext_scan_stops _ _ _ (-1 + 1) (String.length S)).
  - rewrite slice_to_app, slice_from_app by lia. reflexivity.
  - unfold len in *. lia.
  - replace (-1 + 1 + Z.of_nat (String.length S)) with (len S + 0)
      by (unfold len; lia).
    rewrite slice_from_app by lia. reflexivity.
Qed.

Lemma name_of_plain f :
  has_char sep f = false ->
  pathlib.name f = if String.eqb f "." then "" else f.
Proof.
  intro H. unfold pathlib.name. rewrite (split_sep_plain f H). cbn [filter].
  destruct (String.eqb_spec f "") as [->|Hne]; [reflexivity|].
  destruct (String.eqb f "."); reflexivity.
Qed.

Lemma is_supported_tagged S :
  has_char sep S = false -> is_supported (S ++ sfx) = true.
Proof.
  intro HS. unfold is_supported, pathlib.suffix.
  rewrite name_of_plain by (rewrite has_char_app, HS; reflexivity).
  replace (String.eqb (S ++ sfx) ".") with false.
  2:{ symmetry. apply String.eqb_neq. intro E.
      apply (f_equal String.length) in E. rewrite slength_app in E.
      cbn in E. lia. }
  rewrite rfind_app. change (has_char extsep sfx) with true. cbv iota.
  change (rfind extsep sfx) with 10. rewrite len_app.
  change (len sfx) with 14. pose proof (len_nonneg S) as Hl.
  replace (0 <? len S + 10) with true by (symmetry; apply Z.ltb_lt; lia).
  replace (len S + 10 <? len S + 14 - 1) with true
    by (symmetry; apply Z.ltb_lt; lia).
  cbn [andb]. rewrite slice_from_app by lia. reflexivity.
Qed.

(** X11.  The output path computed for a file of the input tree has a
    name with a supported extension: a later run over a tree that holds
    the outputs lists them as images, and would write
    [<stem>_sem_fundo_sem_fundo.png] for them. *)
Theorem outputs_are_images_for_a_later_run
        (input_dir output_dir : string) (w : World)
        (ds : list string) (f : string) :
  input_dir <> "" ->
  Forall (fun x => valid_name x = true) (ds ++ [f]) ->
  exists output_file,
    output_file_for input_dir output_dir (walked_path input_dir ds f) w
    = (Return output_file, w) /\
    is_supported (basename output_file) = true /\
    stem (basename output_file) = stem f ++ "_sem_fundo".
Proof.
  intros Hin Hv. exists (mirrored_output output_dir ds f).
  split; [now apply output_file_for_walked|].
  pose proof (Forall_valid_plain _ Hv) as Hp.
  apply Forall_app in Hp. destruct Hp as [Hds Hf]. inversion Hf; subst.
  assert (Hs : has_char sep (stem f) = false)
    by (apply stem_no_sep; match goal with H : plain f |- _ => apply H end).
  unfold mirrored_output. fold sfx.
  rewrite join_all_file by (assumption || now apply plain_stem_sfx).
  rewrite basename_app;
    [| apply dir_like_app_dirs, dirpart_dir_like
     | rewrite has_char_app, Hs; reflexivity ].
  split; [now apply is_supported_tagged|].
  unfold stem at 1. now rewrite splitext_tagged.
Qed.

Lemma outputs_are_images_for_a_later_run_witness :
  "in" <> "" /\
  Forall (fun x => valid_name x = true) (["sub"] ++ ["IMG.PNG"]) /\
  exists output_file,
    output_file_for "in" "in/out" (walked_path "in" ["sub"] "IMG.PNG")
                    Demo.batch_world
    = (Return output_file, Demo.batch_world) /\
    is_supported (basename output_file) = true /\
    stem (basename output_file) = stem "IMG.PNG" ++ "_sem_fundo".
Proof.
  split; [discriminate|]. split; [repeat constructor|].
  apply (outputs_are_images_for_a_later_run "in" "in/out" Demo.batch_world
           ["sub"] "IMG.PNG").
  - discriminate.
  - repeat constructor.
Defined.

(** *** The names that the walker lists *)

Lemma lower_char_dot a :
  Ascii.eqb (lower_char a) extsep = Ascii.eqb a extsep.
Proof.
  destruct a as [[] [] [] [] [] [] [] []]; reflexivity.
Qed.

Lemma has_char_lower s : has_char extsep (lower s) = has_char extsep s.
Proof.
  induction s as [|a r IH]; [reflexivity|].
  cbn [lower has_char]. now rewrite lower_char_dot, IH.
Qed.

Lemma slength_lower s : String.length (lower s) = String.length s.
Proof. induction s as [|a r IH]; cbn; congruence. Qed.

Lemma rfind_lower s : rfind extsep (lower s) = rfind extsep s.
Proof.
  induction s as [|a r IH]; [reflexivity|].
  unfold rfind. cbn [lower rfind_from].
  rewrite !rfind_from_shift, has_char_lower, IH, lower_char_dot.
  reflexivity.
Qed.

(** An extension of the six: it starts with its only dot and has at
    least four characters. *)
Lemma supported_extension ext :
  In (lower ext) supported_formats ->
  rfind extsep ext = 0 /\ 4 <= len ext.
Proof.
  intro H. rewrite <- rfind_lower. unfold len.
  rewrite <- (slength_lower ext).
  repeat (destruct H as [<-|H]; [split; [reflexivity | cbn; lia]|]).
  destruct H.
Qed.

(** X12.  The test of line 114 on a file name: the name is listed exactly
    when it is a non-empty base followed by one of the six extensions, in
    any case of letters.  So [.png] alone is not listed, and
    [archive.tar.JPeG] is. *)
Theorem listed_names_end_in_a_supported_extension (f : string) :
  has_char sep f = false ->
  (is_supported f = true <->
   exists base ext,
     f = base ++ ext /\ base <> "" /\ In (lower ext) supported_formats).
Proof.
  intro Hf. unfold is_supported, mem. rewrite existsb_exists. split.
  - intros (x & Hx & E). apply String.eqb_eq in E. subst x.
    unfold pathlib.suffix in Hx. rewrite name_of_plain in Hx by assumption.
    destruct (String.eqb_spec f ".") as [->|Hd];
      [repeat (destruct Hx as [Hx|Hx]; [discriminate|]); destruct Hx|].
    destruct ((0 <? rfind extsep f) && (rfind extsep f <? len f - 1))%bool
      eqn:Ei;
      [|repeat (destruct Hx as [Hx|Hx]; [discriminate|]); destruct Hx].
    apply andb_true_iff in Ei. destruct Ei as [E0 E1].
    apply Z.ltb_lt in E0, E1.
    exists (slice_to f (rfind extsep f)), (slice_from f (rfind extsep f)).
    split; [symmetry; apply take_drop|]. split; [|exact Hx].
    intro E. assert (Hl : String.length (slice_to f (rfind extsep f)) = 0%nat)
      by now rewrite E.
    unfold slice_to, len in *.
    assert (forall n s, (n <= String.length s)%nat ->
                        String.length (take n s) = n) as Htake.
    { induction n as [|n IH]; intros [|a r] Hn; cbn in *; try lia.
      rewrite IH; lia. }
    rewrite Htake in Hl; lia.
  - intros (base & ext & -> & Hb & He).
    exists (lower ext). split; [exact He|]. apply String.eqb_eq.
    destruct (supported_extension ext He) as [Hr Hl].
    unfold pathlib.suffix. rewrite name_of_plain by assumption.
    replace (String.eqb (base ++ ext) ".") with false.
    2:{ symmetry. apply String.eqb_neq. intro E.
        apply (f_equal String.length) in E. rewrite slength_app in E.
        unfold len in Hl. cbn in E. lia. }
    assert (Hd : has_char extsep ext = true).
    { destruct (has_char extsep ext) eqn:E; [reflexivity|].
      apply rfind_absent in E. lia. }
    rewrite rfind_app, Hd, Hr, len_app.
    assert (0 < len base).
    { unfold len. destruct base; [congruence | cbn; lia]. }
    replace (0 <? len base + 0) with true by (symmetry; apply Z.ltb_lt; lia).
    replace (len base + 0 <? len base + len ext - 1) with true
      by (symmetry; apply Z.ltb_lt; lia).
    cbn [andb]. rewrite slice_from_app by lia. reflexivity.
Qed.

Lemma listed_names_end_in_a_supported_extension_witness :
  has_char sep "archive.tar.JPeG" = false /\
  (is_supported "archive.tar.JPeG" = true <->
   exists base ext,
     "archive.tar.JPeG" = base ++ ext /\ base <> "" /\
     In (lower ext) supported_formats).
Proof.
  split; [reflexivity|].
  apply (listed_names_end_in_a_supported_extension "archive.tar.JPeG").
  reflexivity.
Defined.

(** ** The data of a successful run *)

Lemma try_success (L : Libs) i o mn am w w' :
  remove_background_try L i o mn am w = (Return true, w') ->
  exists data img rgba png out img2 rgba2 saved,
    os.stat w i = inr (File data) /\
    PIL_open L data = Return img /\
    PIL_convert L img "RGBA" = Return rgba /\
    PIL_encode L rgba "PNG" false = Return png /\
    rembg_remove L (engine_call png mn am) = Return out /\
    PIL_open L out = Return img2 /\
    PIL_convert L img2 "RGBA" = Return rgba2 /\
    PIL_encode L rgba2 "PNG" true = Return saved /\
    os.stat w' o = inr (File saved) /\
    remove_calls w' = (remove_calls w ++ [engine_call png mn am])%list /\
    stdout w' = stdout (said ["🔄 Processando com qualidade: " ++ i;
                              "✅ Salvo: " ++ o] w) /\
    cwd w' = cwd w.
Proof.
  unfold remove_background_try.
  destruct (is_valid_image_pure L i w) as (b & Hrun).
  unfold bind, import_module, new_session, Image_open,
    Image_open_bytes, Image_convert, Image_save_bytes, remove, lift,
    os.path_exists, os.read_file, bind, ret, raise, print, print_end.
  destruct (import_rembg L); [discriminate|].
  destruct (import_PIL L); [discriminate|].
  cbv beta iota zeta.
  destruct (os.stat w i) as [e|n] eqn:Hst; [discriminate|].
  cbn [negb]. rewrite Hrun.
  destruct b; cbn [negb]; cbv beta iota zeta; [|discriminate].
  destruct (rembg_new_session L _); [discriminate|].
  cbv beta iota zeta. rewrite stat_print_text, Hst.
  destruct n as [data|es]; [|discriminate].
  cbv beta iota zeta.
  destruct (PIL_open L data) as [img|] eqn:E1; [|discriminate].
  destruct (PIL_convert L img "RGBA") as [rgba|] eqn:E2; [|discriminate].
  destruct (PIL_encode L rgba "PNG" false) as [png|] eqn:E3; [|discriminate].
  fold (engine_call png mn am).
  destruct (rembg_remove L _) as [out|] eqn:E4; [|discriminate].
  destruct (PIL_open L out) as [img2|] eqn:E5; [|discriminate].
  destruct (PIL_convert L img2 "RGBA") as [rgba2|] eqn:E6; [|discriminate].
  match goal with
  | |- context [os.makedirs ?d true ?W] =>
      pose proof (fs_only_makedirs d true W) as Hmk;
      destruct (os.makedirs d true W) as [[[]|e] w2] eqn:Emk; [|discriminate]
  end.
  cbn [snd] in Hmk.
  pose proof (fs_only_Image_save L rgba2 o "PNG" true w2) as Hsv.
  destruct (Image_save L rgba2 o "PNG" true w2) as [[[]|e] w3] eqn:Esave;
    [|discriminate].
  cbn [snd] in Hsv. intro H. injection H as <-.
  apply Image_save_success in Esave. destruct Esave as (saved & E7 & Hout).
  exists data, img, rgba, png, out, img2, rgba2, saved.
  destruct Hmk as (Hc1 & Ho1 & Hr1). destruct Hsv as (Hc2 & Ho2 & Hr2).
  repeat split; try assumption.
  - cbn [remove_calls print_text]. now rewrite Hr2, Hr1.
  - cbn [stdout print_text said fold_left]. rewrite Ho2, Ho1. cbn.
    now rewrite <- app_assoc.
  - cbn [cwd print_text]. now rewrite Hc2, Hc1.
Qed.

(** X13.  When the processor returns [True], the input path led to a
    regular file; its content was decoded, converted to RGBA and encoded
    as PNG; the engine was called exactly once, on these bytes, with the
    session of the model and the constants of lines 82-84; what the engine
    returned, decoded, converted to RGBA and encoded as PNG with
    [optimize=True], is the content of the output path; and the two lines
    of lines 63 and 96 were printed, and no other. *)
Theorem a_true_result_is_the_engine_output_saved
        (L : Libs) (input_path output_path : string)
        (model_name : option string) (alpha_matting : option bool)
        (w w' : World) :
  remove_background_high_quality L input_path output_path
                                 model_name alpha_matting w
  = (Return true, w') ->
  exists data img rgba png out img2 rgba2 saved,
    os.stat w input_path = inr (File data) /\
    PIL_open L data = Return img /\
    PIL_convert L img "RGBA" = Return rgba /\
    PIL_encode L rgba "PNG" false = Return png /\
    rembg_remove L (engine_call png (default "u2net" model_name)
                                (default true alpha_matting)) = Return out /\
    PIL_open L out = Return img2 /\
    PIL_convert L img2 "RGBA" = Return rgba2 /\
    PIL_encode L rgba2 "PNG" true = Return saved /\
    os.stat w' output_path = inr (File saved) /\
    remove_calls w'
    = (remove_calls w ++ [engine_call png (default "u2net" model_name)
                                      (default true alpha_matting)])%list /\
    stdout w'
    = stdout (said ["🔄 Processando com qualidade: " ++ input_path;
                    "✅ Salvo: " ++ output_path] w).
Proof.
  rewrite sip_catches. unfold try_except.
  destruct (remove_background_try L input_path output_path _ _ w)
    as [[b|e] w1] eqn:E; [|discriminate].
  intro H. injection H as -> ->.
  apply try_success in E.
  destruct E as (data & img & rgba & png & out & img2 & rgba2 & saved & E).
  exists data, img, rgba, png, out, img2, rgba2, saved.
  intuition auto.
Qed.

Lemma a_true_result_is_the_engine_output_saved_witness :
  remove_background_high_quality Demo.libs "photo.jpg" "out/photo.png"
                                 None None Demo.photo_world
  = (Return true,
     snd (remove_background_high_quality Demo.libs "photo.jpg" "out/photo.png"
                                         None None Demo.photo_world)) /\
  exists data img rgba png out img2 rgba2 saved,
    os.stat Demo.photo_world "photo.jpg" = inr (File data) /\
    PIL_open Demo.libs data = Return img /\
    PIL_convert Demo.libs img "RGBA" = Return rgba /\
    PIL_encode Demo.libs rgba "PNG" false = Return png /\
    rembg_remove Demo.libs (engine_call png (default "u2net" None)
                                        (default true None)) = Return out /\
    PIL_open Demo.libs out = Return img2 /\
    PIL_convert Demo.libs img2 "RGBA" = Return rgba2 /\
    PIL_encode Demo.libs rgba2 "PNG" true = Return saved /\
    os.stat (snd (remove_background_high_quality
                    Demo.libs "photo.jpg" "out/photo.png"
                    None None Demo.photo_world)) "out/photo.png"
    = inr (File saved) /\
    remove_calls (snd (remove_background_high_quality
                         Demo.libs "photo.jpg" "out/photo.png"
                         None None Demo.photo_world))
    = (remove_calls Demo.photo_world
       ++ [engine_call png (default "u2net" None) (default true None)])%list /\
    stdout (snd (remove_background_high_quality
                   Demo.libs "photo.jpg" "out/photo.png"
                   None None Demo.photo_world))
    = stdout (said ["🔄 Processando com qualidade: " ++ "photo.jpg";
                    "✅ Salvo: " ++ "out/photo.png"] Demo.photo_world).
Proof.
  assert (H : remove_background_high_quality
                Demo.libs "photo.jpg" "out/photo.png" None None
                Demo.photo_world
              = (Return true,
                 snd (remove_background_high_quality
                        Demo.libs "photo.jpg" "out/photo.png" None None
                        Demo.photo_world)))
    by (apply injective_projections; [vm_compute|]; reflexivity).
  split; [exact H|].
  apply (a_true_result_is_the_engine_output_saved
           Demo.libs "photo.jpg" "out/photo.png" None None Demo.photo_world
           _ H).
Defined.

(** ** What the program leaves alone in the tree *)

Lemma files_kept_refl Q w : files_kept Q w w.
Proof. now intros comps data H _. Qed.

Lemma files_kept_trans Q a b c :
  files_kept Q a b -> files_kept Q b c -> files_kept Q a c.
Proof. intros H1 H2 comps data H Hq. apply H2; [apply H1|]; assumption. Qed.

Lemma files_kept_weaken (Q Q' : string -> Prop) w w' :
  (forall x, Q x -> Q' x) -> files_kept Q w w' -> files_kept Q' w w'.
Proof. intros HQ H comps data Hl Hq. apply H; [assumption|]. auto. Qed.

Lemma files_kept_same_fs Q {A} (m : M A) :
  (forall w, fs (snd (m w)) = fs w) -> keeps (files_kept Q) m.
Proof. intros H w comps data Hl _. now rewrite H. Qed.

Lemma lookup_File_nonempty data c :
  c <> [] -> FS.lookup (File data) c = None.
Proof. destruct c; [congruence | reflexivity]. Qed.

(** A regular file away from the place of an update is not touched,
    when the update does not replace a directory. *)
Lemma lookup_update_file t : forall n new f comps data,
  FS.update n t new = Some f ->
  FS.lookup n comps = Some (File data) ->
  comps <> t ->
  ~ is_Dir (FS.lookup n t) ->
  FS.lookup f comps = Some (File data).
Proof.
  induction t as [|c r IH]; intros n new f comps data Hu Hl Hne Hnd.
  - exfalso. apply Hnd. cbn. destruct n as [d|es]; [|now exists es].
    rewrite lookup_File_nonempty in Hl by assumption. discriminate.
  - cbn in Hu. destruct n as [d|es]; [discriminate|].
    destruct comps as [|y c']; [discriminate|].
    cbn [FS.lookup] in Hl.
    destruct (String.eqb_spec c y) as [<-|Hcy].
    + destruct (FS.assoc c es) as [ch|] eqn:Ea; [|discriminate].
      destruct r as [|x r'].
      * exfalso. apply Hnd. cbn [FS.lookup]. rewrite Ea.
        destruct ch as [d|es']; [|now exists es'].
        rewrite lookup_File_nonempty in Hl by congruence. discriminate.
      * destruct (FS.update ch (x :: r') new) as [ch'|] eqn:Eu; [|discriminate].
        injection Hu as <-. cbn [FS.lookup]. rewrite assoc_set_entry_same.
        apply (IH ch new ch'); try assumption; [congruence|].
        cbn [FS.lookup] in Hnd. now rewrite Ea in Hnd.
    + assert (E : FS.lookup f (y :: c') = FS.lookup (Dir es) (y :: c')).
      { destruct r as [|x r'].
        - injection Hu as <-. cbn [FS.lookup].
          now rewrite assoc_set_entry_other.
        - destruct (FS.assoc c es) as [ch|]; [|discriminate].
          destruct (FS.update ch (x :: r') new); [|discriminate].
          injection Hu as <-. cbn [FS.lookup].
          now rewrite assoc_set_entry_other. }
      rewrite E. exact Hl.
Qed.

Lemma assoc_remove_entry_other c y es :
  c <> y -> FS.assoc y (FS.remove_entry c es) = FS.assoc y es.
Proof.
  intro Hne. induction es as [|[n x] r IH]; [reflexivity|].
  cbn [FS.remove_entry]. destruct (String.eqb_spec n c) as [->|Hn].
  - cbn [FS.assoc]. apply String.eqb_neq in Hne. now rewrite Hne.
  - cbn [FS.assoc]. now rewrite IH.
Qed.

Lemma lookup_unlink_file t : forall n f comps data,
  FS.unlink n t = Some f ->
  FS.lookup n comps = Some (File data) ->
  comps <> t ->
  ~ is_Dir (FS.lookup n t) ->
  FS.lookup f comps = Some (File data).
Proof.
  induction t as [|c r IH]; intros n f comps data Hu Hl Hne Hnd;
    [discriminate|].
  cbn in Hu. destruct n as [d|es]; [discriminate|].
  destruct comps as [|y c']; [discriminate|].
  cbn [FS.lookup] in Hl.
  destruct (String.eqb_spec c y) as [<-|Hcy].
  - destruct (FS.assoc c es) as [ch|] eqn:Ea; [|discriminate].
    destruct r as [|x r'].
    + exfalso. apply Hnd. cbn [FS.lookup]. rewrite Ea.
      destruct ch as [d|es']; [|now exists es'].
      rewrite lookup_File_nonempty in Hl by congruence. discriminate.
    + destruct (FS.unlink ch (x :: r')) as [ch'|] eqn:Eu; [|discriminate].
      injection Hu as <-. cbn [FS.lookup]. rewrite assoc_set_entry_same.
      apply (IH ch ch'); try assumption; [congruence|].
      cbn [FS.lookup] in Hnd. now rewrite Ea in Hnd.
  - assert (E : FS.lookup f (y :: c') = FS.lookup (Dir es) (y :: c')).
    { destruct r as [|x r'].
      - injection Hu as <-. cbn [FS.lookup].
        now rewrite assoc_remove_entry_other.
      - destruct (FS.assoc c es) as [ch|]; [|discriminate].
        destruct (FS.unlink ch (x :: r')); [|discriminate].
        injection Hu as <-. cbn [FS.lookup].
        now rewrite assoc_set_entry_other. }
    rewrite E. exact Hl.
Qed.

Lemma lookup_app a : forall n b,
  FS.lookup n (a ++ b)
  = match FS.lookup n a with
    | Some n' => FS.lookup n' b
    | None => None
    end.
Proof.
  induction a as [|x a IH]; intros n b; [reflexivity|].
  cbn [app FS.lookup]. destruct n as [d|es]; [reflexivity|].
  destruct (FS.assoc x es); [apply IH | reflexivity].
Qed.

Lemma removelast_snoc {A} (l : list A) x : removelast (l ++ [x]) = l.
Proof. apply removelast_last. Qed.

(** The parent of a node of the tree is a directory. *)
Lemma lookup_parent_dir root cur n :
  FS.lookup root cur = Some n -> is_Dir (Some n) ->
  is_Dir (FS.lookup root (removelast cur)).
Proof.
  intros H Hn.
  destruct cur as [|c r] using rev_ind;
    [cbn in *; injection H as ->; assumption|].
  clear IHr. rewrite removelast_snoc. rewrite lookup_app in H.
  destruct (FS.lookup root r) as [[d|es]|]; try discriminate.
  now exists es.
Qed.

(** Where a path leads: to a directory, or to a place named by the last
    component of the path. *)
Lemma namei_last root comps : forall cur t,
  FS.namei root cur comps = inr t -> comps <> [] ->
  is_Dir (FS.lookup root t) \/ exists t0, t = (t0 ++ [last comps ""])%list.
Proof.
  induction comps as [|c r IH]; intros cur t H Hne; [congruence|].
  cbn [FS.namei] in H.
  destruct (FS.lookup root cur) as [[d|es]|] eqn:El; try discriminate.
  destruct r as [|c2 r'].
  - destruct (String.eqb c "" || String.eqb c ".")%bool.
    + injection H as <-. left. rewrite El. now exists es.
    + destruct (String.eqb c "..").
      * injection H as <-. left.
        apply (lookup_parent_dir root cur (Dir es)); [assumption|now exists es].
      * injection H as <-. right. now exists cur.
  - change (last (c :: c2 :: r') "") with (last (c2 :: r') "").
    destruct (String.eqb c "" || String.eqb c ".")%bool;
      [|destruct (String.eqb c "..")];
      (eapply IH; [exact H | discriminate]).
Qed.

Lemma last_split_sep p : last (split_sep p) "" = basename p.
Proof.
  destruct (path_parts p) as (X & f & -> & HX & Hf).
  rewrite (basename_app X f HX Hf).
  destruct HX as [->|HX].
  - cbn [append]. now rewrite split_sep_plain.
  - destruct (endswith_sep_inv X HX) as (X' & ->).
    rewrite sapp_assoc. cbn [append].
    rewrite split_sep_app_sep, (split_sep_plain f Hf). apply last_last.
Qed.

Lemma last_snoc_neq {A} (comps t0 : list A) x d :
  last comps d <> x -> comps <> (t0 ++ [x])%list.
Proof. intros H ->. apply H. apply last_last. Qed.

Lemma kept_mkdir Q p : keeps (files_kept Q) (os.mkdir p).
Proof.
  intros w comps data Hl _. unfold os.mkdir.
  destruct (String.eqb p ""); [assumption|].
  destruct (FS.namei _ _ _) as [e|t]; [assumption|].
  destruct (FS.lookup (fs w) t) as [n|] eqn:Et; [assumption|].
  destruct (FS.update (fs w) t (Dir [])) as [f|] eqn:Eu; [|assumption].
  cbn [snd fs with_fs]. eapply lookup_update_file; try eassumption.
  - intros ->. congruence.
  - rewrite Et. intros (? & ?). discriminate.
Qed.

Lemma resolve_last w p t :
  os.resolve w p = inr t ->
  is_Dir (FS.lookup (fs w) t) \/ exists t0, t = (t0 ++ [basename p])%list.
Proof.
  unfold os.resolve. destruct (String.eqb p ""); [discriminate|].
  intro H. rewrite <- last_split_sep.
  eapply namei_last; [exact H | apply split_sep_nonempty].
Qed.

Lemma kept_write_file (Q : string -> Prop) p d :
  Q (basename p) -> keeps (files_kept Q) (os.write_file p d).
Proof.
  intros HQ w comps data Hl Hq. unfold os.write_file.
  destruct (os.resolve w p) as [e|t] eqn:Er; [assumption|].
  destruct (resolve_last w p t Er) as [(es & Hd)|(t0 & ->)].
  { rewrite Hd. assumption. }
  destruct (FS.lookup (fs w) (t0 ++ [basename p])) as [[x|es]|] eqn:Et;
    try assumption;
    (destruct (FS.update (fs w) _ (File d)) as [f|] eqn:Eu; [|assumption];
     cbn [snd fs with_fs]; eapply lookup_update_file; try eassumption;
     [ apply last_snoc_neq with (d := ""); intro E; apply Hq; now rewrite E
     | rewrite Et; intros (? & ?); discriminate ]).
Qed.

Lemma kept_remove_file (Q : string -> Prop) p :
  Q (basename p) -> keeps (files_kept Q) (os.remove p).
Proof.
  intros HQ w comps data Hl Hq. unfold os.remove.
  destruct (os.resolve w p) as [e|t] eqn:Er; [assumption|].
  destruct (resolve_last w p t Er) as [(es & Hd)|(t0 & ->)].
  { rewrite Hd. assumption. }
  destruct (FS.lookup (fs w) (t0 ++ [basename p])) as [[x|es]|] eqn:Et;
    try assumption.
  destruct (FS.unlink (fs w) _) as [f|] eqn:Eu; [|assumption].
  cbn [snd fs with_fs]. eapply lookup_unlink_file; try eassumption.
  - apply last_snoc_neq with (d := ""). intro E. apply Hq. now rewrite E.
  - rewrite Et. intros (? & ?). discriminate.
Qed.

Ltac kept_frame Q :=
  repeat first
    [ apply kept_mkdir
    | apply kept_write_file; assumption
    | apply kept_remove_file; assumption
    | apply files_kept_same_fs; intro;
      unfold os.path_exists, os.path_isdir, os.path_getsize, os.read_file,
        os.path_relpath, os.walk, print, print_end, remove;
      repeat match goal with
             | |- context [match ?x with _ => _ end] => destruct x
             end; reflexivity
    | frame_step (files_kept_refl Q) (files_kept_trans Q) ].

Lemma kept_makedirs_rec Q fuel : forall name ok,
  keeps (files_kept Q) (os.makedirs_rec fuel name ok).
Proof.
  induction fuel as [|k IH]; intros name ok; cbn [os.makedirs_rec].
  - apply (keeps_raise _ (files_kept_refl Q)).
  - unfold os.makedirs_body. kept_frame Q. apply IH.
Qed.

Lemma kept_is_valid_image Q (L : Libs) p : keeps (files_kept Q) (is_valid_image L p).
Proof.
  intro w. destruct (is_valid_image_pure L p w) as (b & ->).
  apply files_kept_refl.
Qed.

Lemma kept_sip (Q : string -> Prop) (L : Libs) i o mn am :
  Q (basename o) ->
  keeps (files_kept Q) (remove_background_high_quality L i o mn am).
Proof.
  intro HQ.
  unfold remove_background_high_quality, remove_background_try,
    Image_open_bytes, Image_convert, Image_save_bytes, Image_open,
    Image_save, new_session, os.makedirs.
  repeat first
    [ apply kept_is_valid_image | apply kept_makedirs_rec
    | progress kept_frame Q ].
Qed.

(** X14.  In a tree of directories and regular files, without symbolic
    or hard links (through a link, a write under one name reaches a file
    of another name; the tree of this development has none): whatever its
    result, the processor leaves every regular file in place and
    unchanged, except for files that bear the name of the output path. *)
Theorem the_processor_touches_one_name_only
        (L : Libs) (input_path output_path : string)
        (model_name : option string) (alpha_matting : option bool)
        (w : World) (comps : list string) (data : list byte) :
  FS.lookup (fs w) comps = Some (File data) ->
  last comps "" <> basename output_path ->
  FS.lookup (fs (snd (remove_background_high_quality
                        L input_path output_path model_name alpha_matting w)))
            comps
  = Some (File data).
Proof.
  intros Hl Hne.
  apply (kept_sip (fun x => x = basename output_path) L input_path output_path
                  model_name alpha_matting eq_refl w comps data Hl).
  intro E. now apply Hne.
Qed.

Lemma the_processor_touches_one_name_only_witness :
  FS.lookup (fs Demo.batch_world) ["home"; "u"; "in"; "b.txt"]
  = Some (File (Demo.junk 300)) /\
  last ["home"; "u"; "in"; "b.txt"] "" <> basename "in/b.png" /\
  FS.lookup (fs (snd (remove_background_high_quality
                        Demo.libs "in/a.png" "in/b.png" None None
                        Demo.batch_world)))
            ["home"; "u"; "in"; "b.txt"]
  = Some (File (Demo.junk 300)).
Proof.
  split; [reflexivity|]. split; [discriminate|].
  apply (the_processor_touches_one_name_only
           Demo.libs "in/a.png" "in/b.png" None None Demo.batch_world
           ["home"; "u"; "in"; "b.txt"] (Demo.junk 300)).
  - reflexivity.
  - discriminate.
Defined.

Lemma basename_mirrored_output out ds f :
  Forall (fun x => valid_name x = true) (ds ++ [f]) ->
  basename (mirrored_output out ds f) = stem f ++ sfx.
Proof.
  intro Hv. pose proof (Forall_valid_plain _ Hv) as Hp.
  apply Forall_app in Hp. destruct Hp as [Hds Hf]. inversion Hf; subst.
  unfold mirrored_output. fold sfx.
  rewrite join_all_file by (assumption || now apply plain_stem_sfx).
  apply basename_app.
  - apply dir_like_app_dirs, dirpart_dir_like.
  - apply sfx_no_sep. match goal with H : plain f |- _ => apply H end.
Qed.

Lemma kept_process_one (L : Libs) input_dir output_dir total i ds f counts :
  input_dir <> "" ->
  Forall (fun x => valid_name x = true) (ds ++ [f]) ->
  keeps (files_kept tagged)
        (process_one L input_dir output_dir total
                     (i, walked_path input_dir ds f) counts).
Proof.
  intros Hin Hv. unfold process_one. destruct counts as [sc fc].
  apply (keeps_bind _ (files_kept_trans tagged)); [kept_frame tagged|].
  intros _.
  apply (keeps_bind_val _ (files_kept_trans tagged)
           (fun o => o = mirrored_output output_dir ds f)).
  - apply files_kept_same_fs. intro w.
    now rewrite output_file_for_walked.
  - intros w a. rewrite output_file_for_walked by assumption.
    cbn [fst]. congruence.
  - intros o ->.
    apply (keeps_bind _ (files_kept_trans tagged)).
    + apply kept_sip. rewrite basename_mirrored_output by assumption.
      now exists (stem f).
    + intro ok. destruct ok; apply (keeps_ret _ (files_kept_refl tagged)).
Qed.

Lemma kept_batch (L : Libs) input_dir output_dir total items :
  input_dir <> "" ->
  Forall (fun item : Z * string =>
            exists ds f, snd item = walked_path input_dir ds f /\
                         Forall (fun x => valid_name x = true) (ds ++ [f]))
         items ->
  forall counts,
    keeps (files_kept tagged)
          (for_each items (process_one L input_dir output_dir total) counts).
Proof.
  intros Hin HF. induction HF as [|[i img] items (ds & f & E & Hv) _ IH];
    intro counts; cbn [for_each].
  - apply (keeps_ret _ (files_kept_refl tagged)).
  - cbn [snd] in E. subst img.
    apply (keeps_bind _ (files_kept_trans tagged)); [|exact IH].
    now apply kept_process_one.
Qed.

Lemma in_enumerate {A} (l : list A) : forall k i a,
  In (i, a) (enumerate l k) -> In a l.
Proof.
  induction l as [|x l IH]; intros k i a H; [destruct H|].
  cbn in H. destruct H as [H|H].
  - injection H as _ <-. now left.
  - right. eapply IH. exact H.
Qed.

(** X15.  In a tree of directories and regular files, without symbolic
    or hard links, and with legal names: a batch leaves every regular
    file in place and unchanged, unless its name ends with
    [_sem_fundo.png]; the originals are not overwritten or removed, also
    when the output root is the input root.  (An output name that is a
    link to an original is outside this tree.) *)
Theorem the_batch_spares_the_originals
        (L : Libs) (input_dir output_dir : string) (w : World)
        (comps : list string) (data : list byte) :
  valid_names (fs w) = true ->
  FS.lookup (fs w) comps = Some (File data) ->
  ~ tagged (last comps "") ->
  FS.lookup (fs (snd (process_directory_high_quality
                        L input_dir output_dir w))) comps
  = Some (File data).
Proof.
  intros Hw Hl Hq. revert comps data Hl Hq.
  change (files_kept tagged w
            (snd (process_directory_high_quality L input_dir output_dir w))).
  unfold process_directory_high_quality.
  assert (Hex : os.path_exists input_dir w
                = (Return (match os.stat w input_dir with
                           | inr _ => true
                           | inl _ => false
                           end), w)) by reflexivity.
  rewrite (bind_run _ _ _ _ _ Hex). clear Hex.
  destruct (os.stat w input_dir) as [e|n] eqn:Hst; cbn [negb].
  - intros c d H _. exact H.
  - assert (Hwalk : os.walk input_dir w = (Return (FS.walk input_dir n), w))
      by (unfold os.walk; now rewrite Hst).
    rewrite (bind_run _ _ _ _ _ Hwalk). clear Hwalk.
    pose proof (stat_valid_names w input_dir n Hw Hst) as Hn.
    destruct (collect_image_files (FS.walk input_dir n)) as [|x l] eqn:Ef.
    + intros c d H _. exact H.
    + rewrite (bind_run _ _ _ _ _ (print_run _ _)).
      eapply files_kept_trans; [|apply kept_batch].
      * intros c d H _. exact H.
      * eapply stat_nonempty. exact Hst.
      * apply Forall_forall. intros [i img] Hi. cbn [snd].
        apply in_enumerate in Hi. rewrite <- Ef in Hi.
        apply image_files_spec in Hi.
        destruct Hi as (ds & f & Hf & _ & ->). exists ds, f.
        split; [reflexivity|]. eapply file_under_valid; eassumption.
Qed.

Lemma untagged_a_png : ~ tagged (last ["home"; "u"; "in"; "a.png"] "").
Proof.
  intros (x & E). apply (f_equal String.length) in E.
  rewrite slength_app in E. cbn in E. lia.
Qed.

Lemma the_batch_spares_the_originals_witness :
  valid_names (fs Demo.batch_world) = true /\
  FS.lookup (fs Demo.batch_world) ["home"; "u"; "in"; "a.png"]
  = Some (File (Demo.png 120)) /\
  ~ tagged (last ["home"; "u"; "in"; "a.png"] "") /\
  FS.lookup (fs (snd (process_directory_high_quality
                        Demo.libs "in" "in" Demo.batch_world)))
            ["home"; "u"; "in"; "a.png"]
  = Some (File (Demo.png 120)).
Proof.
  split; [reflexivity|]. split; [reflexivity|].
  split; [exact untagged_a_png|].
  apply (the_batch_spares_the_originals
           Demo.libs "in" "in" Demo.batch_world
           ["home"; "u"; "in"; "a.png"] (Demo.png 120)).
  - reflexivity.
  - reflexivity.
  - exact untagged_a_png.
Defined.

(** ** Paths and their parents *)


Lemma namei_first_dir root cur l t :
  FS.namei root cur l = inr t -> l <> [] -> is_Dir (FS.lookup root cur).
Proof.
  destruct l as [|c r]; [congruence|]. cbn [FS.namei]. intros H _.
  destruct (FS.lookup root cur) as [[d|es]|]; try discriminate.
  now exists es.
Qed.





Lemma all_sep_seps k : all_sep (seps k) = true.
Proof.
  induction k as [|k IH]; [reflexivity|].
  cbn [seps all_sep]. now rewrite Ascii.eqb_refl.
Qed.




Lemma isabs_seps k s : startswith (seps (S k) ++ s) "/" = true.
Proof. reflexivity. Qed.


Lemma split_sep_snoc_empty a :
  split_sep (a ++ String sep "") = (split_sep a ++ [""])%list.
Proof. now rewrite split_sep_app_sep. Qed.






(** ** A destination directory that exists *)








(** ** A destination directory that is missing *)












(** ** A successful run *)




Lemma valid_image_run (L : Libs) p w data img :
  import_PIL L = None ->
  os.stat w p = inr (File data) ->
  100 <= Z.of_nat (length data) ->
  PIL_open L data = Return img ->
  PIL_verify L img = None ->
  is_valid_image L p w = (Return true, w).
Proof.
  intros Hi Hst Hsz Ho Hv.
  rewrite is_valid_image_catches.
  unfold is_valid_image_try, try_except, bind, import_module, os.path_getsize,
    Image_open, Image_verify, os.read_file, lift, bind, ret, import_module.
  rewrite Hi. cbv beta iota zeta. rewrite Hst. cbv beta iota zeta.
  replace (Z.of_nat (length data) <? 100) with false
    by (symmetry; apply Z.ltb_ge; lia).
  rewrite Hst. cbv beta iota zeta. rewrite Ho. cbv beta iota zeta.
  now rewrite Hv.
Qed.













(** ** Output paths that cannot be written *)








(** ** The automatic output of the menu, without a directory *)



(** Two images that differ in their extension only: both calls of the
    batch succeed, and one output is left. *)
Example two_images_one_output :
  let w := Demo.world_of (Demo.in_home
             [("in", Dir [("a.jpg", File (Demo.png 120));
                          ("a.png", File (Demo.png 200))])]) in
  let run := process_directory_high_quality Demo.libs "in" "out" w in
  fst run = Return (2, 0) /\
  FS.lookup (fs (snd run)) ["home"; "u"; "out"]
  = Some (Dir [("a_sem_fundo.png", File (Demo.png 200))]).
Proof. vm_compute. repeat split. Qed.

(** ** What the processor prints, and how often it calls the engine *)

(** The ways the body of the [try] statement can go: an import fails; the
    input is rejected with one line; the work starts and a step raises,
    before or after the call of the engine; or everything succeeds. *)
Lemma try_protocol (L : Libs) i o mn am w :
  exists r w1,
    remove_background_try L i o mn am w = (r, w1) /\
    ((exists e, r = Raise e) /\ stdout w1 = stdout w /\
     remove_calls w1 = remove_calls w
     \/
     r = Return false /\ remove_calls w1 = remove_calls w /\
     (exists m, stdout w1 = (stdout w ++ [("❌ " ++ m)%string])%list)
     \/
     (exists e, r = Raise e) /\
     stdout w1 = (stdout w ++ [msg_processing i])%list /\
     (exists calls, remove_calls w1 = (remove_calls w ++ calls)%list /\
                    (length calls <= 1)%nat /\
                    Forall (fixed_call mn am) calls)
     \/
     r = Return true /\
     stdout w1 = (stdout w ++ [msg_processing i; msg_done o])%list /\
     (exists png, remove_calls w1
                  = (remove_calls w ++ [engine_call png mn am])%list)).
Proof.
  unfold remove_background_try.
  destruct (is_valid_image_pure L i w) as (b & Hrun).
  unfold bind at 1, import_module at 1.
  destruct (import_rembg L);
    [do 2 eexists; split; [reflexivity|]; left; eauto|].
  unfold ret at 1. unfold bind at 1, import_module at 1.
  destruct (import_PIL L);
    [do 2 eexists; split; [reflexivity|]; left; eauto|].
  unfold ret at 1. unfold bind at 1, os.path_exists at 1.
  destruct (os.stat w i) as [e|n] eqn:Hst; cbn [negb].
  { do 2 eexists; split; [reflexivity|]. right. left.
    repeat split. eexists. reflexivity. }
  rewrite (bind_run _ _ _ _ _ Hrun).
  destruct b; cbn [negb].
  2:{ do 2 eexists; split; [reflexivity|]. right. left.
      repeat split. eexists. reflexivity. }
  rewrite (bind_run _ _ _ _ _ (print_run _ _)). rewrite sapp_assoc.
  fold (msg_processing i).
  set (w1 := print_text (msg_processing i) w).
  assert (Hearly : forall e,
             exists r w2,
               (@Raise bool e, w1) = (r, w2) /\
               ((exists e, r = Raise e) /\ stdout w2 = stdout w /\
                remove_calls w2 = remove_calls w
                \/
                r = Return false /\ remove_calls w2 = remove_calls w /\
                (exists m, stdout w2 = (stdout w ++ [("❌ " ++ m)%string])%list)
                \/
                (exists e, r = Raise e) /\
                stdout w2 = (stdout w ++ [msg_processing i])%list /\
                (exists calls,
                    remove_calls w2 = (remove_calls w ++ calls)%list /\
                    (length calls <= 1)%nat /\
                    Forall (fixed_call mn am) calls)
                \/
                r = Return true /\
                stdout w2 = (stdout w ++ [msg_processing i; msg_done o])%list /\
                (exists png, remove_calls w2
                             = (remove_calls w ++ [engine_call png mn am])%list))).
  { intro e. do 2 eexists. split; [reflexivity|]. right. right. left.
    split; [eauto|]. split; [reflexivity|]. exists [].
    split; [now rewrite app_nil_r|]. split; [cbn; lia | constructor]. }
  unfold bind at 1, new_session at 1.
  destruct (rembg_new_session L _); [apply Hearly|].
  unfold ret at 1. unfold bind at 1, Image_open at 1.
  unfold bind at 1, os.read_file at 1.
  change (os.stat w1 i) with (os.stat w i). rewrite Hst.
  destruct n as [data|es]; [|apply Hearly].
  unfold lift at 1.
  destruct (PIL_open L data) as [img|]; [|apply Hearly].
  unfold bind at 1, Image_convert at 1, lift at 1.
  destruct (PIL_convert L img "RGBA") as [img1|]; [|apply Hearly].
  unfold bind at 1, Image_save_bytes at 1, lift at 1.
  destruct (PIL_encode L img1 "PNG" false) as [png|]; [|apply Hearly].
  clear Hearly.
  fold (engine_call png mn am).
  set (w2 := log_remove (engine_call png mn am) w1).
  assert (Hlate : forall (r : outcome bool) w3,
             (exists e, r = Raise e) ->
             stdout w3 = stdout w2 -> remove_calls w3 = remove_calls w2 ->
             (exists e, r = Raise e) /\
             stdout w3 = (stdout w ++ [msg_processing i])%list /\
             (exists calls,
                 remove_calls w3 = (remove_calls w ++ calls)%list /\
                 (length calls <= 1)%nat /\
                 Forall (fixed_call mn am) calls)).
  { intros r w3 Hr Ho Hc. split; [exact Hr|]. split; [now rewrite Ho|].
    exists [engine_call png mn am]. split; [now rewrite Hc|].
    split; [cbn; lia|]. constructor; [|constructor]. repeat split. }
  unfold bind at 1, remove at 1.
  destruct (rembg_remove L _) as [out|].
  2:{ do 2 eexists. split; [reflexivity|]. right. right. left.
      apply Hlate; eauto. }
  fold w2.
  unfold bind at 1, Image_open_bytes at 1, lift at 1.
  destruct (PIL_open L out) as [img2|].
  2:{ do 2 eexists. split; [reflexivity|]. right. right. left.
      apply Hlate; eauto. }
  unfold bind at 1, Image_convert at 1, lift at 1.
  destruct (PIL_convert L img2 "RGBA") as [img3|].
  2:{ do 2 eexists. split; [reflexivity|]. right. right. left.
      apply Hlate; eauto. }
  pose proof (fs_only_makedirs (dirname o) true w2) as Hmk.
  unfold bind at 1.
  destruct (os.makedirs (dirname o) true w2) as [[[]|e] w3]; cbn [snd] in Hmk;
    destruct Hmk as (_ & Ho3 & Hc3).
  2:{ do 2 eexists. split; [reflexivity|]. right. right. left.
      apply Hlate; eauto. }
  pose proof (fs_only_Image_save L img3 o "PNG" true w3) as Hsv.
  unfold bind at 1.
  destruct (Image_save L img3 o "PNG" true w3) as [[[]|e] w4]; cbn [snd] in Hsv;
    destruct Hsv as (_ & Ho4 & Hc4).
  2:{ do 2 eexists. split; [reflexivity|]. right. right. left.
      apply Hlate; eauto; congruence. }
  rewrite (bind_run _ _ _ _ _ (print_run _ _)). rewrite sapp_assoc.
  fold (msg_done o).
  do 2 eexists. split; [reflexivity|]. right. right. right.
  split; [reflexivity|]. split.
  - cbn [stdout print_text]. rewrite Ho4, Ho3. cbn [stdout print_text log_remove w2 w1].
    now rewrite <- app_assoc.
  - exists png. cbn [remove_calls print_text]. now rewrite Hc4, Hc3.
Qed.

(** What a call of the processor prints and how often it calls the
    engine, with its result. *)
Lemma sip_protocol (L : Libs) i o mn am w :
  exists b w' lines calls,
    remove_background_high_quality L i o mn am w = (Return b, w') /\
    stdout w' = (stdout w ++ lines)%list /\
    remove_calls w' = (remove_calls w ++ calls)%list /\
    Forall (fixed_call (default "u2net" mn) (default true am)) calls /\
    (length lines = 1 \/ length lines = 2)%nat /\
    (length calls <= 1)%nat /\
    (b = true -> last lines "" = msg_done o /\ length calls = 1%nat) /\
    (b = false -> exists m, last lines "" = "❌ " ++ m).
Proof.
  rewrite sip_catches. unfold try_except.
  destruct (try_protocol L i o (default "u2net" mn) (default true am) w)
    as (r & w1 & -> & [((e & ->) & Ho & Hc)
                      | [(-> & Hc & (m & Ho))
                        | [((e & ->) & Ho & (calls & Hc & Hl & Hf))
                          | (-> & Ho & (png & Hc))]]]).
  - exists false. eexists. eexists [_], [].
    split; [reflexivity|].
    split; [cbn [stdout print_text]; now rewrite Ho|].
    split; [cbn [remove_calls print_text]; now rewrite Hc, app_nil_r|].
    split; [constructor|]. split; [now left|]. split; [cbn; lia|].
    split; [discriminate|]. intros _. eexists. reflexivity.
  - exists false, w1, [("❌ " ++ m)%string], [].
    split; [reflexivity|]. split; [exact Ho|].
    split; [now rewrite Hc, app_nil_r|].
    split; [constructor|]. split; [now left|]. split; [cbn; lia|].
    split; [discriminate|]. intros _. now exists m.
  - exists false. eexists. eexists [_; _], calls.
    split; [reflexivity|].
    split; [cbn [stdout print_text]; now rewrite Ho, <- app_assoc|].
    split; [exact Hc|]. split; [exact Hf|]. split; [now right|].
    split; [exact Hl|].
    split; [discriminate|]. intros _. eexists. reflexivity.
  - exists true, w1, [msg_processing i; msg_done o],
      [engine_call png (default "u2net" mn) (default true am)].
    split; [reflexivity|]. split; [exact Ho|]. split; [exact Hc|].
    split; [constructor; [repeat split | constructor]|].
    split; [now right|]. split; [cbn; lia|].
    split; [intros _; split; reflexivity | discriminate].
Qed.


(** ** The engine calls of a batch *)




(** * The claims on names, extensions and the call of the engine

    The claims C7, C3 and C9 speak of the extension of a file name, of a
    comparison that ignores case and of the call that reaches the
    segmentation engine.  They are stated in those words and proved from
    the lemmas of the parts above. *)

(** ** Extensions *)

Lemma has_char_In c s :
  has_char c s = true <-> In c (list_ascii_of_string s).
Proof.
  induction s as [|a r IH]; cbn [has_char list_ascii_of_string In].
  - split; [discriminate | tauto].
  - rewrite orb_true_iff, IH, Ascii.eqb_eq. tauto.
Qed.

Lemma has_char_not_In c s :
  has_char c s = false <-> ~ In c (list_ascii_of_string s).
Proof.
  rewrite <- has_char_In. destruct (has_char c s); split; congruence.
Qed.

Lemma lower_app a b : lower (a ++ b) = lower a ++ lower b.
Proof. induction a as [|x r IH]; cbn; congruence. Qed.

Lemma same_letter_lower a : same_letter a (lower_char a).
Proof.
  destruct a as [[] [] [] [] [] [] [] []];
    first [ left; reflexivity
          | right; left; cbn; repeat first [left; reflexivity | right] ].
Qed.

Lemma lower_same_letter a b : same_letter a b -> lower_char a = lower_char b.
Proof.
  intros [->|[H|H]]; [reflexivity| |];
    cbn in H;
    repeat (destruct H as [H|H]; [injection H as <- <-; reflexivity|]);
    destruct H.
Qed.

Lemma caseless_lower s : caseless s (lower s).
Proof.
  unfold caseless. induction s as [|a r IH]; cbn; constructor.
  - apply same_letter_lower.
  - exact IH.
Qed.

Lemma lower_caseless s : forall t, caseless s t -> lower s = lower t.
Proof.
  unfold caseless. induction s as [|a r IH]; intros [|b t] H; cbn in H;
    inversion H; subst; [reflexivity|].
  cbn [lower]. f_equal; [now apply lower_same_letter | now apply IH].
Qed.

Lemma lower_extension e : In e extensions -> lower e = e.
Proof.
  intro H. repeat (destruct H as [<-|H]; [reflexivity|]). destruct H.
Qed.

Lemma dotted_extensions e :
  In e extensions <-> In ("." ++ e) supported_formats.
Proof.
  unfold extensions, supported_formats. cbn [In]. split; intro H;
    repeat (destruct H as [H|H];
            [ first [ subst e; cbn; tauto
                    | injection H as <-; tauto ] |]);
    destruct H.
Qed.

(** The suffix that [pathlib] finds in a name with an extension. *)
Lemma suffix_of_extension f base ext :
  has_char sep f = false -> has_extension f base ext ->
  pathlib.suffix f = "." ++ ext.
Proof.
  intros Hf (-> & Hb & He & Hd). apply has_char_not_In in Hd.
  unfold pathlib.suffix. rewrite name_of_plain by assumption.
  assert (Hlb : 0 < len base)
    by (unfold len; destruct base; [congruence | cbn; lia]).
  assert (Hle : 0 < len ext)
    by (unfold len; destruct ext; [congruence | cbn; lia]).
  replace (String.eqb (base ++ "." ++ ext) ".") with false.
  2:{ symmetry. apply String.eqb_neq. intro E.
      apply (f_equal String.length) in E. rewrite slength_app in E.
      unfold len in *. cbn in E. lia. }
  assert (Hr : rfind extsep ("." ++ ext) = 0).
  { change ("." ++ ext) with (String extsep ext). unfold rfind.
    cbn [rfind_from]. rewrite Ascii.eqb_refl, rfind_from_shift.
    unfold extsep in *. now rewrite Hd. }
  assert (Hh : has_char extsep ("." ++ ext) = true) by reflexivity.
  rewrite rfind_app, Hh, Hr, !len_app.
  change (len ".") with 1.
  replace (0 <? len base + 0) with true by (symmetry; apply Z.ltb_lt; lia).
  replace (len base + 0 <? len base + (1 + len ext) - 1) with true
    by (symmetry; apply Z.ltb_lt; lia).
  cbn [andb]. rewrite slice_from_app by lia. reflexivity.
Qed.

(** What line 114 accepts has a suffix after a base that is not empty. *)
Lemma supported_suffix f :
  has_char sep f = false -> is_supported f = true ->
  exists base,
    f = base ++ pathlib.suffix f /\ base <> "" /\
    In (lower (pathlib.suffix f)) supported_formats.
Proof.
  intros Hf Hs. apply is_supported_spec in Hs.
  change (In (lower (pathlib.suffix f)) supported_formats) in Hs.
  assert (Hne : pathlib.suffix f <> "").
  { intro E. rewrite E in Hs.
    repeat (destruct Hs as [Hs|Hs]; [discriminate|]). destruct Hs. }
  unfold pathlib.suffix in *. rewrite name_of_plain in * by assumption.
  destruct (String.eqb f ".") eqn:Ed; [now cbn in Hne|].
  destruct ((0 <? rfind extsep f) && (rfind extsep f <? len f - 1))%bool
    eqn:Ei; [|congruence].
  apply andb_true_iff in Ei. destruct Ei as [E0 E1].
  apply Z.ltb_lt in E0, E1.
  exists (slice_to f (rfind extsep f)).
  split; [symmetry; apply take_drop|]. split; [|exact Hs].
  intro E.
  pose proof (take_drop (Z.to_nat (rfind extsep f)) f) as Htd.
  fold (slice_to f (rfind extsep f)) in Htd. rewrite E in Htd.
  cbn [append] in Htd.
  assert (Hl : String.length (drop (Z.to_nat (rfind extsep f)) f)
               = String.length f) by now rewrite Htd.
  assert (Hdrop : forall n s, (n <= String.length s)%nat ->
                    (String.length (drop n s) + n = String.length s)%nat).
  { induction n as [|n IH]; intros [|a r] Hn; cbn in *; try lia.
    specialize (IH r). lia. }
  specialize (Hdrop (Z.to_nat (rfind extsep f)) f). unfold len in *. lia.
Qed.

(** The test of line 114 in the words of the claim. *)
Lemma supported_by_extension f :
  has_char sep f = false ->
  (is_supported f = true <->
   exists base ext e,
     has_extension f base ext /\ caseless ext e /\ In e extensions).
Proof.
  intro Hf. split.
  - intro Hs. destruct (supported_suffix f Hf Hs) as (base & Ef & Hb & Hin).
    destruct (pathlib.suffix f) as [|c ext] eqn:Es.
    { repeat (destruct Hin as [Hin|Hin]; [discriminate|]). destruct Hin. }
    cbn [lower] in Hin.
    assert (Hc : lower_char c = "."%char /\ In (lower ext) extensions).
    { unfold supported_formats in Hin. unfold extensions. cbn [In] in *.
      repeat (destruct Hin as [Hin|Hin];
              [injection Hin as <- <-; split; [reflexivity | tauto]|]).
      destruct Hin. }
    destruct Hc as [Hc He].
    assert (c = "."%char) as ->.
    { pose proof (lower_char_dot c) as H. rewrite Hc in H.
      change (Ascii.eqb "." extsep) with true in H.
      symmetry in H. now apply Ascii.eqb_eq in H. }
    exists base, ext, (lower ext). split; [|split].
    + split; [exact Ef|]. split; [exact Hb|]. split.
      * intros ->. repeat (destruct He as [He|He]; [discriminate|]).
        destruct He.
      * apply has_char_not_In. rewrite <- has_char_lower.
        repeat (destruct He as [<-|He]; [reflexivity|]). destruct He.
    + apply caseless_lower.
    + exact He.
  - intros (base & ext & e & Hx & Hc & He).
    apply is_supported_spec.
    change (In (lower (pathlib.suffix f)) supported_formats).
    rewrite (suffix_of_extension f base ext Hf Hx).
    change ("." ++ ext) with (String "." ext). cbn [lower].
    change (lower_char ".") with "."%char.
    rewrite (lower_caseless _ _ Hc), (lower_extension e He).
    now apply dotted_extensions.
Qed.


Ltac same_letters :=
  repeat constructor;
  first [ left; reflexivity
        | right; left; cbn; repeat first [left; reflexivity | right]
        | right; right; cbn; repeat first [left; reflexivity | right] ].

Lemma has_extension_IMG : has_extension "IMG.PNG" "IMG" "PNG".
Proof.
  repeat split; try discriminate.
  intros [H|[H|[H|[]]]]; discriminate.
Qed.

Lemma caseless_PNG : caseless "PNG" "png".
Proof. unfold caseless. cbn. same_letters. Qed.



(** ** The path of an output *)

Lemma take1_drop_app base r : forall k a,
  nth_error (list_ascii_of_string base) k = Some a ->
  take 1 (drop k (base ++ r)) = String a "".
Proof.
  induction base as [|c b IH]; intros [|k] a H; cbn in H; try discriminate.
  - injection H as <-. reflexivity.
  - cbn [append drop]. now apply IH.
Qed.

Lemma scan_dots p d : forall n j,
  (forall k, (k < n)%nat ->
             take 1 (slice_from p (j + Z.of_nat k)) = ".") ->
  splitext_scan p d j n = (p, "").
Proof.
  induction n as [|n IH]; intros j H; [reflexivity|].
  cbn [splitext_scan].
  pose proof (H 0%nat ltac:(lia)) as H0. rewrite Z.add_0_r in H0.
  rewrite H0. cbn [String.eqb Ascii.eqb Bool.eqb]. 
  change (String.eqb "." ".") with true. cbv iota.
  apply IH. intros k Hk. specialize (H (S k) ltac:(lia)).
  now replace (j + 1 + Z.of_nat k) with (j + Z.of_nat (S k)) by lia.
Qed.

Lemma only_dots_nth base :
  only_dots base = true ->
  forall k, (k < String.length base)%nat ->
            nth_error (list_ascii_of_string base) k = Some "."%char.
Proof.
  unfold only_dots. induction base as [|c b IH]; intros H k Hk;
    cbn [list_ascii_of_string forallb String.length nth_error] in *; [lia|].
  apply andb_true_iff in H. destruct H as [Hc Hb].
  apply Ascii.eqb_eq in Hc. subst c.
  destruct k as [|k]; [reflexivity|]. cbn [nth_error].
  apply IH; [assumption | lia].
Qed.

Lemma not_only_dots_nth base :
  only_dots base = false ->
  exists k a, (k < String.length base)%nat /\
              nth_error (list_ascii_of_string base) k = Some a /\
              a <> "."%char.
Proof.
  unfold only_dots. induction base as [|c b IH]; intro H;
    cbn [list_ascii_of_string forallb String.length nth_error] in *;
    [discriminate|].
  destruct (Ascii.eqb "." c) eqn:Ec; cbn [andb] in H.
  - destruct (IH H) as (k & a & Hk & Hn & Ha).
    exists (S k), a. repeat split; [lia | exact Hn | exact Ha].
  - exists 0%nat, c. repeat split; [lia|].
    intros ->. now rewrite Ascii.eqb_refl in Ec.
Qed.

(** What [os.path.splitext] makes of a name with an extension: the
    extension is split off, unless dots alone precede it. *)
Lemma stem_of_extension f base ext :
  has_char sep f = false -> has_extension f base ext ->
  stem f = if only_dots base then f else base.
Proof.
  intros Hf (-> & Hb & He & Hd). apply has_char_not_In in Hd.
  unfold stem, splitext.
  rewrite (rfind_absent _ _ Hf).
  assert (Hr : rfind extsep (base ++ "." ++ ext) = len base).
  { rewrite rfind_app.
    change (has_char extsep ("." ++ ext)) with true. cbv iota.
    change ("." ++ ext) with (String extsep ext). unfold rfind.
    cbn [rfind_from]. rewrite Ascii.eqb_refl, rfind_from_shift.
    unfold extsep in *. rewrite Hd. lia. }
  rewrite Hr.
  assert (Hlb : 0 < len base)
    by (unfold len; destruct base; [congruence | cbn; lia]).
  replace (-1 <? len base) with true by (symmetry; apply Z.ltb_lt; lia).
  replace (Z.to_nat (len base - (-1 + 1))) with (String.length base)
    by (unfold len; lia).
  change (-1 + 1) with 0.
  destruct (only_dots base) eqn:Eo.
  - rewrite scan_dots; [reflexivity|].
    intros k Hk. unfold slice_from. rewrite Z.add_0_l, Nat2Z.id.
    apply take1_drop_app. now apply only_dots_nth.
  - destruct (not_only_dots_nth base Eo) as (k & a & Hk & Hn & Ha).
    rewrite (splitext_scan_stops _ _ _ _ k Hk).
    + cbn [fst]. replace (len base) with (len base + 0) by lia.
      rewrite slice_to_app by lia. change (slice_to ("." ++ ext) 0) with "". now rewrite sapp_nil_r.
    + unfold slice_from. rewrite Z.add_0_l, Nat2Z.id.
      rewrite (take1_drop_app _ _ _ _ Hn).
      apply String.eqb_neq. congruence.
Qed.

Lemma dirpart_as_directory root : dirpart root = as_directory root.
Proof.
  unfold dirpart, as_directory.
  destruct (String.eqb_spec root "") as [->|H]; [reflexivity|].
  cbn [orb]. destruct (endswith_sep root); reflexivity.
Qed.

(** The output path of line 131 in the words of the claim. *)
Lemma mirrored_output_by_extension out ds f base ext :
  Forall (fun x => valid_name x = true) (ds ++ [f])%list ->
  has_extension f base ext ->
  mirrored_output out ds f
  = path_under out ds ((if only_dots base then f else base)
                       ++ "_sem_fundo.png").
Proof.
  intros Hv Hx.
  assert (Hf : has_char sep f = false).
  { apply Forall_app in Hv. destruct Hv as [_ Hv].
    apply Forall_inv in Hv. now apply valid_name_spec in Hv. }
  destruct (mirrored_output_parts out ds f Hv) as [-> _].
  rewrite join_sep_snoc, dirpart_as_directory.
  rewrite (stem_of_extension f base ext Hf Hx).
  unfold path_under, sfx. reflexivity.
Qed.

(** C3, as amended.  In a world whose file names are legal, let [f] be a
    file of the subdirectory [ds] of the input root whose name is
    [base.ext], with an extension that is supported, and [tr] the calls
    that the walker makes.  In this batch, [f] is handed to the
    processor; the output path of every call on it is the output root,
    followed by [ds], followed by [base_sem_fundo.png]: the extension is
    stripped, unless [base] is made of dots only, in which case
    [os.path.splitext] strips nothing and the tag follows the whole name;
    and when the call returns [True], the output path holds, in the world
    the call left, a regular file whose content is the PNG encoding, with
    [optimize=True], of an image converted to [RGBA]. *)
Theorem output_is_mirrored_png
        (L : Libs) (w : World) (input_dir output_dir : string) (n : node)
        (ds : list string) (f base ext e : string)
        (tr : list invocation) (w' : World) :
  valid_names (fs w) = true ->
  os.stat w input_dir = inr n ->
  file_under n ds f ->
  has_extension f base ext -> caseless ext e -> In e extensions ->
  batch_trace L input_dir output_dir
              (Z.of_nat (length (image_files_at w input_dir)))
              (enumerate (image_files_at w input_dir) 1)
              (batch_start w input_dir)
  = (tr, w') ->
  process_directory_high_quality L input_dir output_dir w
  = (Return (successes tr, failures tr), w') /\
  In (walked_path input_dir ds f) (map inv_input tr) /\
  forall r,
    In r tr -> inv_input r = walked_path input_dir ds f ->
    inv_output r
    = path_under output_dir ds
         ((if only_dots base then f else base) ++ "_sem_fundo.png") /\
    (inv_result r = true ->
     exists (img0 img : image L) data,
       PIL_convert L img0 "RGBA" = Return img /\
       PIL_encode L img "PNG" true = Return data /\
       os.stat (inv_after r) (inv_output r) = inr (File data)).
Proof.
  intros Hw Hst Hf Hx Hc He Htr.
  pose proof (stat_valid_names w input_dir n Hw Hst) as Hv.
  pose proof (file_under_valid n ds f Hv Hf) as Hnames.
  assert (Hs : is_supported f = true).
  { apply supported_by_extension; [|now exists base, ext, e].
    apply Forall_app in Hnames. destruct Hnames as [_ H].
    apply Forall_inv in H. now apply valid_name_spec in H. }
  assert (Hin : In (walked_path input_dir ds f) (image_files_at w input_dir)).
  { unfold image_files_at. rewrite Hst. apply image_files_spec.
    now exists ds, f. }
  assert (Hne : image_files_at w input_dir <> [])
    by (intro E; rewrite E in Hin; destruct Hin).
  destruct (walker_batch L input_dir output_dir w)
    as (tr0 & w0 & Hrun & Hmap & Hb).
  specialize (Hb Hne). rewrite Htr in Hb. injection Hb as <- <-.
  split; [exact Hrun|]. split; [now rewrite Hmap|].
  intros r Hr Hinput.
  destruct (batch_trace_calls _ _ _ _ _ _ _ _ _ Htr Hr)
    as (w1 & w2 & Hout & Hsip).
  rewrite Hinput in Hout.
  rewrite output_file_for_walked in Hout
    by (eauto using stat_nonempty).
  injection Hout as Hout _.
  rewrite (mirrored_output_by_extension output_dir ds f base ext Hnames Hx)
    in Hout.
  split; [now symmetry|].
  intro Hres. rewrite Hres in Hsip. now apply sip_success in Hsip.
Qed.

Lemma output_is_mirrored_png_witness :
  valid_names (fs Demo.batch_world) = true /\
  os.stat Demo.batch_world "in" = inr Demo.batch_dir /\
  file_under Demo.batch_dir ["sub"] "IMG.PNG" /\
  has_extension "IMG.PNG" "IMG" "PNG" /\ caseless "PNG" "png" /\
  In "png" extensions /\
  process_directory_high_quality Demo.libs "in" "out" Demo.batch_world
  = (Return (successes (fst Demo.batch_run), failures (fst Demo.batch_run)),
     snd Demo.batch_run) /\
  In (walked_path "in" ["sub"] "IMG.PNG") (map inv_input (fst Demo.batch_run)) /\
  forall r,
    In r (fst Demo.batch_run) ->
    inv_input r = walked_path "in" ["sub"] "IMG.PNG" ->
    inv_output r = "out/sub/IMG_sem_fundo.png" /\
    (inv_result r = true ->
     exists (img0 img : image Demo.libs) data,
       PIL_convert Demo.libs img0 "RGBA" = Return img /\
       PIL_encode Demo.libs img "PNG" true = Return data /\
       os.stat (inv_after r) (inv_output r) = inr (File data)).
Proof.
  split; [reflexivity|]. split; [reflexivity|].
  split; [exact file_under_batch_IMG|].
  split; [exact has_extension_IMG|]. split; [exact caseless_PNG|].
  split; [cbn; tauto|].
  apply (output_is_mirrored_png Demo.libs Demo.batch_world "in" "out"
           Demo.batch_dir ["sub"] "IMG.PNG" "IMG" "PNG" "png"
           (fst Demo.batch_run) (snd Demo.batch_run)).
  - reflexivity.
  - reflexivity.
  - exact file_under_batch_IMG.
  - exact has_extension_IMG.
  - exact caseless_PNG.
  - cbn. tauto.
  - apply surjective_pairing.
Defined.

(** C3 as the specification states it fails on an image named [..png]:
    the walker lists it for its extension [png], the processor succeeds,
    and the output is [out/..png_sem_fundo.png], with the extension still
    in the name; nothing is written at [out/._sem_fundo.png]. *)
Lemma dotted_name_keeps_its_extension :
  has_extension "..png" "." "png" /\
  image_files_at Demo.dotted_world "in" = ["in/..png"] /\
  fst (process_directory_high_quality Demo.libs "in" "out" Demo.dotted_world)
  = Return (1, 0) /\
  os.stat (snd (process_directory_high_quality Demo.libs "in" "out"
                                               Demo.dotted_world))
          "out/..png_sem_fundo.png"
  = inr (File (Demo.png 120)) /\
  path_under "out" [] ("." ++ "_sem_fundo.png") = "out/._sem_fundo.png" /\
  os.stat (snd (process_directory_high_quality Demo.libs "in" "out"
                                               Demo.dotted_world))
          "out/._sem_fundo.png"
  = inl ENOENT.
Proof.
  split.
  { repeat split; try discriminate. intros [H|[H|[H|[]]]]; discriminate. }
  vm_compute. repeat split.
Qed.

(** ** The call of the engine *)

Local Open Scope py_scope.

Lemma calls_kept_refl w : calls_kept w w.
Proof. reflexivity. Qed.

Lemma calls_kept_trans a b c :
  calls_kept a b -> calls_kept b c -> calls_kept a c.
Proof. unfold calls_kept. congruence. Qed.

Lemma fs_only_calls_kept w w' : fs_only w w' -> calls_kept w w'.
Proof. now intros (_ & _ & H). Qed.

Lemma calls_kept_print s : keeps calls_kept (print s).
Proof. intro w. reflexivity. Qed.

(** From line 88 on, no call of the engine is made. *)
Lemma calls_kept_after_the_engine (L : Libs) o out :
  keeps calls_kept
    (output_image <- Image_open_bytes L out ;;
     output_image <- Image_convert L output_image "RGBA" ;;
     os.makedirs (dirname o) true ;;
     Image_save L output_image o "PNG" true ;;
     print ("✅ Salvo: " ++ o) ;;
     ret true).
Proof.
  unfold Image_open_bytes, Image_convert.
  repeat first
    [ apply calls_kept_print
    | apply (keeps_weaken fs_only _ _ fs_only_calls_kept);
      first [ apply fs_only_Image_save | apply fs_only_makedirs ]
    | frame_step calls_kept_refl calls_kept_trans ].
Qed.

Lemma calls_of_the_engine_step (L : Libs) c (K : list byte -> M bool)
      (h : exn -> M bool) w :
  (forall out, keeps calls_kept (K out)) ->
  (forall e, keeps calls_kept (h e)) ->
  remove_calls (snd (try_except (bind (remove L c) K) h w))
  = (remove_calls w ++ [c])%list.
Proof.
  intros HK Hh. unfold try_except, bind, remove.
  destruct (rembg_remove L c) as [out|e].
  - specialize (HK out (log_remove c w)). unfold calls_kept in HK.
    destruct (K out (log_remove c w)) as [[b|e] w3]; cbn [snd] in *.
    + exact HK.
    + specialize (Hh e w3). unfold calls_kept in Hh. now rewrite Hh.
  - specialize (Hh e (log_remove c w)). exact Hh.
Qed.

(** When the steps before line 79 succeed, the engine is called, once,
    on the encoded input. *)
Lemma sip_calls_the_engine (L : Libs) i o mn am w data img rgba png :
  import_rembg L = None -> import_PIL L = None ->
  os.stat w i = inr (File data) ->
  100 <= Z.of_nat (length data) ->
  PIL_open L data = Return img -> PIL_verify L img = None ->
  rembg_new_session L (default "u2net" mn) = None ->
  PIL_convert L img "RGBA" = Return rgba ->
  PIL_encode L rgba "PNG" false = Return png ->
  remove_calls (snd (remove_background_high_quality L i o mn am w))
  = (remove_calls w
     ++ [engine_call png (default "u2net" mn) (default true am)])%list.
Proof.
  intros Hi1 Hi2 Hst Hsz E1 Ev Hs E2 E3.
  set (w1 := print_text ("🔄 Processando com qualidade: " ++ i ++ newline) w).
  rewrite sip_catches. unfold try_except.
  unfold remove_background_try. rewrite Hi1, Hi2.
  rewrite (bind_run _ _ w tt w eq_refl).
  rewrite (bind_run _ _ w tt w eq_refl).
  assert (Hex : os.path_exists i w = (Return true, w))
    by (unfold os.path_exists; now rewrite Hst).
  rewrite (bind_run _ _ _ _ _ Hex). cbn [negb].
  rewrite (bind_run _ _ _ _ _ (valid_image_run L i w data img Hi2 Hst Hsz E1 Ev)).
  cbn [negb].
  rewrite (bind_run _ _ _ _ _ (print_run _ _)). rewrite sapp_assoc.
  fold w1.
  assert (Hses : new_session L (default "u2net" mn) w1
                 = (Return (Session (default "u2net" mn)), w1))
    by (unfold new_session; now rewrite Hs).
  rewrite (bind_run _ _ _ _ _ Hses).
  assert (Hopen : Image_open L i w1 = (Return img, w1)).
  { unfold Image_open, bind, os.read_file, lift.
    change (os.stat w1 i) with (os.stat w i). now rewrite Hst, E1. }
  rewrite (bind_run _ _ _ _ _ Hopen).
  assert (Hc1 : Image_convert L img "RGBA" w1 = (Return rgba, w1))
    by (unfold Image_convert, lift; now rewrite E2).
  rewrite (bind_run _ _ _ _ _ Hc1).
  assert (Hb1 : Image_save_bytes L rgba "PNG" w1 = (Return png, w1))
    by (unfold Image_save_bytes, lift; now rewrite E3).
  rewrite (bind_run _ _ _ _ _ Hb1).
  fold (engine_call png (default "u2net" mn) (default true am)).
  change (remove_calls w) with (remove_calls w1).
  apply (calls_of_the_engine_step L
           (engine_call png (default "u2net" mn) (default true am))).
  - intro out. apply calls_kept_after_the_engine.
  - intro e. apply (keeps_bind _ calls_kept_trans);
      [apply calls_kept_print | intro; apply (keeps_ret _ calls_kept_refl)].
Qed.

(** C9.  An argument left out is the default of line 36: the model
    [u2net], alpha matting enabled.  Whenever the steps before line 79
    succeed, the processor calls [rembg.remove] exactly once, on the PNG
    encoding of the input converted to [RGBA], with a session of the
    model, the flag, foreground threshold 240, background threshold 10
    and erosion size 10, whether the flag is enabled or not; and whatever
    happens, it makes no call but such a one, and at most one. *)
Theorem defaults_and_fixed_tuning
        (L : Libs) (input_path output_path : string)
        (model_name : option string) (alpha_matting : option bool)
        (w : World) :
  (remove_background_high_quality L input_path output_path
                                  None alpha_matting w
   = remove_background_high_quality L input_path output_path
                                    (Some "u2net") alpha_matting w /\
   remove_background_high_quality L input_path output_path
                                  model_name None w
   = remove_background_high_quality L input_path output_path
                                    model_name (Some true) w) /\
  (forall data img rgba png,
      import_rembg L = None -> import_PIL L = None ->
      os.stat w input_path = inr (File data) ->
      100 <= Z.of_nat (length data) ->
      PIL_open L data = Return img -> PIL_verify L img = None ->
      rembg_new_session L (default "u2net" model_name) = None ->
      PIL_convert L img "RGBA" = Return rgba ->
      PIL_encode L rgba "PNG" false = Return png ->
      remove_calls
        (snd (remove_background_high_quality L input_path output_path
                                             model_name alpha_matting w))
      = (remove_calls w
         ++ [ {| rc_data := png;
                 rc_session := Session (default "u2net" model_name);
                 rc_alpha_matting := default true alpha_matting;
                 rc_alpha_matting_foreground_threshold := 240;
                 rc_alpha_matting_background_threshold := 10;
                 rc_alpha_matting_erode_size := 10 |} ])%list) /\
  (exists calls,
      remove_calls
        (snd (remove_background_high_quality L input_path output_path
                                             model_name alpha_matting w))
      = (remove_calls w ++ calls)%list /\
      (length calls <= 1)%nat /\
      Forall (fixed_call (default "u2net" model_name)
                         (default true alpha_matting)) calls).
Proof.
  split; [split; reflexivity|]. split.
  - intros data img rgba png Hi1 Hi2 Hst Hsz E1 Ev Hs E2 E3.
    exact (sip_calls_the_engine L input_path output_path model_name
             alpha_matting w data img rgba png Hi1 Hi2 Hst Hsz E1 Ev Hs E2 E3).
  - destruct (sip_protocol L input_path output_path model_name
                alpha_matting w)
      as (b & w' & lines & calls & Hrun & _ & Hcalls & Hfix & _ & Hlen & _).
    exists calls. rewrite Hrun. cbn [snd]. now repeat split.
Qed.

Lemma defaults_and_fixed_tuning_witness :
  os.stat Demo.photo_world "photo.jpg" = inr (File (Demo.png 150)) /\
  100 <= Z.of_nat (length (Demo.png 150)) /\
  PIL_open Demo.libs (Demo.png 150) = Return (Demo.png 150) /\
  PIL_convert Demo.libs (Demo.png 150) "RGBA" = Return (Demo.png 150) /\
  PIL_encode Demo.libs (Demo.png 150) "PNG" false = Return (Demo.png 150) /\
  remove_calls
    (snd (remove_background_high_quality Demo.libs "photo.jpg" "out/photo.png"
                                         None None Demo.photo_world))
  = [ {| rc_data := Demo.png 150;
         rc_session := Session "u2net";
         rc_alpha_matting := true;
         rc_alpha_matting_foreground_threshold := 240;
         rc_alpha_matting_background_threshold := 10;
         rc_alpha_matting_erode_size := 10 |} ] /\
  remove_calls
    (snd (remove_background_high_quality Demo.libs "photo.jpg" "out/photo.png"
                                         (Some "isnet-general-use") (Some false)
                                         Demo.photo_world))
  = [ {| rc_data := Demo.png 150;
         rc_session := Session "isnet-general-use";
         rc_alpha_matting := false;
         rc_alpha_matting_foreground_threshold := 240;
         rc_alpha_matting_background_threshold := 10;
         rc_alpha_matting_erode_size := 10 |} ].
Proof.
  split; [reflexivity|]. split; [vm_compute; discriminate|].
  split; [reflexivity|]. split; [reflexivity|]. split; [reflexivity|].
  split.
  - apply (proj1 (proj2 (defaults_and_fixed_tuning
                           Demo.libs "photo.jpg" "out/photo.png" None None
                           Demo.photo_world))
             (Demo.png 150) (Demo.png 150) (Demo.png 150) (Demo.png 150));
      first [reflexivity | vm_compute; discriminate].
  - apply (proj1 (proj2 (defaults_and_fixed_tuning
                           Demo.libs "photo.jpg" "out/photo.png"
                           (Some "isnet-general-use") (Some false)
                           Demo.photo_world))
             (Demo.png 150) (Demo.png 150) (Demo.png 150) (Demo.png 150));
      first [reflexivity | vm_compute; discriminate].
Defined.
